(** * LazyUI: design-token truth resolution and class validation

    A shallow embedding of the three pure stages of the pipeline
    (logic/extractor.ts, logic/resolver.ts, logic/validator.ts), of the
    generation loop around them (controller/generator.ts) and of the
    flattening of the script that freezes the defaults
    (scripts/generate-defaults.js), with the properties of their
    specification and further properties of the code.

    Conventions of the embedding.
    - A JavaScript string is a [string]: a sequence of character codes,
      compared code by code ([===] is [String.eqb]).
    - A plain JavaScript object used as [Record<string, V>] is the list of
      its own properties in the order [Object.keys] and [for ... in]
      enumerate them: array-index keys first, in ascending numeric order,
      then the other keys in creation order.
    - A character is one code unit below 256; the classes [\s] and [\d]
      of the regular expressions are taken on these.
    - An object has a prototype. Reading a key that is not own goes to
      the prototype; assigning [__proto__] ([o[k] = v], [Object.assign])
      runs the setter of [Object.prototype] as long as it is inherited,
      while an object spread and the parsed default asset make [__proto__]
      an own property like any other.
    - [console.log] calls are not modelled: they do not touch the result.
    - The file system, the parser and the tree traversal are parameters
      of the extraction; so is the default token asset of the resolver.
    - The settings of the editor and the service that answers the requests
      are parameters of the generation loop; a run is described by the
      promise it settles, the warnings it shows and the requests it sends. *)

From Stdlib Require Import List String Ascii Bool Arith NArith Lia.
From Stdlib Require Import ZArith DecimalString Permutation Sorted.
Import ListNotations.
Local Open Scope list_scope.
Local Open Scope string_scope.

Set Implicit Arguments.
Set Warnings "-register-all".

(* ===================================================================== *)
(** ** Plain JavaScript objects *)
(* ===================================================================== *)

Module JsObject.

Section Obj.
Variable V : Type.

(** Own properties, in enumeration order. *)
Definition obj := list (string * V).

Definition empty : obj := [].

(** Value of a decimal digit. *)
Definition digit_of (c : ascii) : option N :=
  let n := N_of_ascii c in
  if ((48 <=? n) && (n <=? 57))%N then Some (n - 48)%N else None.

Fixpoint parse_digits (s : string) (acc : N) : option N :=
  match s with
  | EmptyString => Some acc
  | String c s' =>
      match digit_of c with
      | Some d => parse_digits s' (10 * acc + d)%N
      | None => None
      end
  end.

(** [array_index k] is [Some n] when [k] is the canonical decimal spelling
    of an integer [n] with [0 <= n < 2^32 - 1]: such keys are enumerated
    first, in numeric order. *)
Definition array_index (k : string) : option N :=
  match k with
  | EmptyString => None
  | String c rest =>
      if Ascii.eqb c "0" then
        match rest with EmptyString => Some 0%N | _ => None end
      else
        match parse_digits k 0 with
        | Some n => if (n <? 4294967295)%N then Some n else None
        | None => None
        end
  end.

(** [o.hasOwnProperty(k)] and the own value of [k]. *)
Fixpoint get_own (o : obj) (k : string) : option V :=
  match o with
  | [] => None
  | (k', v) :: o' => if String.eqb k' k then Some v else get_own o' k
  end.

Definition has_own (o : obj) (k : string) : bool :=
  match get_own o k with Some _ => true | None => false end.

(** Overwriting an existing property keeps its place. *)
Fixpoint replace (o : obj) (k : string) (v : V) : obj :=
  match o with
  | [] => []
  | (k', v') :: o' =>
      if String.eqb k' k then (k', v) :: o' else (k', v') :: replace o' k v
  end.

(** A new array-index key goes among the index keys, in numeric order. *)
Fixpoint insert_index (n : N) (k : string) (v : V) (o : obj) : obj :=
  match o with
  | [] => [(k, v)]
  | (k', v') :: o' =>
      match array_index k' with
      | Some n' =>
          if (n <? n')%N then (k, v) :: o
          else (k', v') :: insert_index n k v o'
      | None => (k, v) :: o
      end
  end.

(** Creating or overwriting the own property [k]: what [o[k] = v] does
    for every key but [__proto__], and what defining a property does for
    every key. *)
Definition set (o : obj) (k : string) (v : V) : obj :=
  if has_own o k then replace o k v
  else
    match array_index k with
    | Some n => insert_index n k v o
    | None => (o ++ [(k, v)])%list
    end.

(** [Object.keys(o)]. *)
Definition keys (o : obj) : list string := map fst o.

(** Every own property of [src], in enumeration order, made an own
    property of [target]: the copy an object spread does. *)
Definition assign (target src : obj) : obj :=
  fold_left (fun acc kv => set acc (fst kv) (snd kv)) src target.

(** The object literal [{ ...a, ...b }]. *)
Definition spread2 (a b : obj) : obj := assign (assign empty a) b.

(** [k1] may stand before [k2] in an enumeration. *)
Definition precedes (k1 k2 : string) : bool :=
  negb (String.eqb k1 k2) &&
  match array_index k2 with
  | Some n2 =>
      match array_index k1 with
      | Some n1 => (n1 <? n2)%N
      | None => false
      end
  | None => true
  end.

Fixpoint ordered (ks : list string) : bool :=
  match ks with
  | [] => true
  | k :: ks' => forallb (precedes k) ks' && ordered ks'
  end.

(** The list is the enumeration of an object: no key twice, index keys
    first and ascending. *)
Definition wf (o : obj) : bool := ordered (keys o).

End Obj.

Arguments empty {V}.

End JsObject.

(** Names every plain object inherits from [Object.prototype]; each is
    bound there to a function (or, for [__proto__], to the prototype
    itself), so reading it through an object that does not own the key
    gives a truthy value. *)
Definition OBJECT_PROTOTYPE_KEYS : list string :=
  [ "constructor"; "__defineGetter__"; "__defineSetter__"; "hasOwnProperty";
    "__lookupGetter__"; "__lookupSetter__"; "isPrototypeOf";
    "propertyIsEnumerable"; "toString"; "valueOf"; "__proto__";
    "toLocaleString" ].

Definition string_in (s : string) (l : list string) : bool :=
  existsb (String.eqb s) l.

(** Truthiness of a string: the empty string is falsy. *)
Definition truthy (s : string) : bool := negb (String.eqb s EmptyString).

(** Truthiness of the property read [o[k]] on a [Record<string, string>]:
    an own property counts by its string value, a key that is not own is
    looked up in the prototype. *)
Definition truthy_get (o : JsObject.obj string) (k : string) : bool :=
  match JsObject.get_own o k with
  | Some v => truthy v
  | None => string_in k OBJECT_PROTOTYPE_KEYS
  end.

(* ===================================================================== *)
(** ** logic/resolver.ts *)
(* ===================================================================== *)

Record TokenFamilies := mkFamilies {
  colors : JsObject.obj string;
  spacing : JsObject.obj string
}.

(** [ExtractedTruth] of logic/extractor.ts. *)
Record ExtractedTruth := mkExtracted {
  extend : TokenFamilies;
  override : TokenFamilies
}.

(** [ResolvedTruth] has the two families. *)
Definition ResolvedTruth := TokenFamilies.

Section Resolver.

(** The asset [assets/tailwind-defaults.json], imported as [defaultTheme]. *)
Variable defaultTheme : TokenFamilies.

Definition resolveTruth (userTruth : ExtractedTruth) : ResolvedTruth :=
  let finalColors :=
    if (0 <? List.length (JsObject.keys (colors (override userTruth))))%nat then
      JsObject.spread2 (colors (override userTruth)) (colors (extend userTruth))
    else
      JsObject.spread2 (colors defaultTheme) (colors (extend userTruth)) in
  let finalSpacing :=
    if (0 <? List.length (JsObject.keys (spacing (override userTruth))))%nat then
      JsObject.spread2 (spacing (override userTruth)) (spacing (extend userTruth))
    else
      JsObject.spread2 (spacing defaultTheme) (spacing (extend userTruth)) in
  {| colors := finalColors; spacing := finalSpacing |}.

End Resolver.

(** Both families of a token set, and all four buckets of an extracted
    truth, are enumerations of plain objects. *)
Definition wf_families (f : TokenFamilies) : bool :=
  JsObject.wf (colors f) && JsObject.wf (spacing f).

Definition wf_truth (t : ExtractedTruth) : bool :=
  wf_families (extend t) && wf_families (override t).

(** The extracted truth of a configuration that declares nothing. *)
Definition emptyTruth : ExtractedTruth :=
  {| extend := {| colors := JsObject.empty; spacing := JsObject.empty |};
     override := {| colors := JsObject.empty; spacing := JsObject.empty |} |}.

(** A few entries in the shape of the default asset, for examples. *)
Definition sampleDefaults : TokenFamilies :=
  {| colors := [("black", "#000"); ("white", "#fff"); ("slate-50", "#f8fafc");
                ("red-500", "#ef4444"); ("blue-500", "#3b82f6")];
     spacing := [("0", "0px"); ("1", "0.25rem"); ("4", "1rem"); ("8", "2rem");
                 ("px", "1px"); ("0.5", "0.125rem")] |}.

Definition sampleTruth : ExtractedTruth :=
  {| extend := {| colors := [("brand", "#123456"); ("black", "#111")];
                  spacing := [("18", "4.5rem")] |};
     override := {| colors := JsObject.empty;
                    spacing := [("1", "4px"); ("2", "8px")] |} |}.

(* ===================================================================== *)
(** ** logic/extractor.ts *)
(* ===================================================================== *)

(** A thrown [Error]: the name of its class and its message. *)
Record JsError := mkError {
  name : string;
  message : string
}.

(** [new ConfigParseError(message)]. *)
Definition ConfigParseError (msg : string) : JsError :=
  {| name := "ConfigParseError"; message := msg |}.

(** The outcome of a call that may throw. *)
Inductive Result (A : Type) : Type :=
| Throw (e : JsError)
| Return (a : A).
Arguments Throw {A} e.
Arguments Return {A} a.

(** The values the extractor and the flattenings meet: strings, objects,
    arrays and [null]. An object is the list of its own properties, in
    enumeration order, with its prototype: [Object.prototype], [null], or
    another object or array. An array is the list of its elements,
    without holes or further properties. [extractObjectFromNode] builds
    no array. *)
Inductive jsval : Type :=
| JStr (s : string)
| JObj (props : list (string * jsval)) (proto : jsproto)
| JArr (items : list jsval)
| JNull
with jsproto : Type :=
| ObjectPrototype
| NullPrototype
| PrototypeObject (props : list (string * jsval)) (proto : jsproto)
| PrototypeArray (items : list jsval).

(** The key of the element [i] of a string or of an array. *)
Definition index_key (i : N) : string := NilEmpty.string_of_uint (N.to_uint i).

(** A one-character string per index, as the own enumerable properties of
    a string value are: [{0: 'r', 1: 'e', 2: 'd'}] for ['red']. *)
Fixpoint string_props (i : N) (s : string) : list (string * string) :=
  match s with
  | EmptyString => []
  | String c s' => (index_key i, String c EmptyString) :: string_props (N.succ i) s'
  end.

(** The elements of an array under their index keys. *)
Fixpoint indexed (i : N) (items : list jsval) : list (string * jsval) :=
  match items with
  | [] => []
  | value :: rest => (index_key i, value) :: indexed (N.succ i) rest
  end.

(** A loop over the elements of an array: the body is run on each index
    key and element, in order. *)
Fixpoint for_items (A : Type) (body : string -> jsval -> A -> A)
                   (i : N) (items : list jsval) (acc : A) : A :=
  match items with
  | [] => acc
  | value :: rest => for_items body (N.succ i) rest (body (index_key i) value acc)
  end.

(** [result[key] = value] for a string [value], on an object whose
    prototype is [Object.prototype]. There [__proto__] is an accessor: as
    long as the object has no own property of that name the assignment
    runs its setter, which ignores a value that is neither an object nor
    [null]. *)
Definition put (result : JsObject.obj string) (key value : string)
  : JsObject.obj string :=
  if String.eqb key "__proto__" && negb (JsObject.has_own result key) then result
  else JsObject.set result key value.

(** [Object.assign(result, src)] for two such objects: every own property
    of [src], in enumeration order, is assigned to [result]. *)
Definition put_all (result src : JsObject.obj string) : JsObject.obj string :=
  fold_left (fun acc kv => put acc (fst kv) (snd kv)) src result.

(** [flattenObject(obj, prefix)]. The [for ... in] loop runs over the own
    properties in enumeration order and then, prototype by prototype, over
    the inherited ones whose name was not met before;
    [Object.prototype] and [Array.prototype] have no enumerable property.
    A nested object is flattened under the dash-joined key and assigned
    onto the result, a string is stored, anything else (an array, [null])
    is dropped. *)
Fixpoint flattenObject (obj : jsval) (prefix : string) {struct obj}
  : JsObject.obj string :=
  let newKey key := if truthy prefix then prefix ++ "-" ++ key else key in
  let body key value result :=
    match value with
    | JObj _ _ => put_all result (flattenObject value (newKey key))
    | JStr s => put result (newKey key) s
    | JArr _ | JNull => result
    end in
  match obj with
  | JObj props proto =>
      flattenObject_inherited proto prefix (JsObject.keys props)
        (fold_left (fun result kv => body (fst kv) (snd kv) result) props JsObject.empty)
  | JArr items => for_items body 0%N items JsObject.empty
  | JStr s =>
      fold_left (fun result kv => put result (newKey (fst kv)) (snd kv))
                (string_props 0 s) JsObject.empty
  | JNull => JsObject.empty
  end
with flattenObject_inherited (proto : jsproto) (prefix : string)
       (visited : list string) (result : JsObject.obj string) {struct proto}
  : JsObject.obj string :=
  let newKey key := if truthy prefix then prefix ++ "-" ++ key else key in
  let body key value result :=
    if string_in key visited then result
    else
      match value with
      | JObj _ _ => put_all result (flattenObject value (newKey key))
      | JStr s => put result (newKey key) s
      | JArr _ | JNull => result
      end in
  match proto with
  | ObjectPrototype | NullPrototype => result
  | PrototypeObject props proto' =>
      flattenObject_inherited proto' prefix (visited ++ JsObject.keys props)%list
        (fold_left (fun result kv => body (fst kv) (snd kv) result) props result)
  | PrototypeArray items => for_items body 0%N items result
  end.

(** The key of an object property in the syntax tree: an identifier, a
    literal (its value as a property name), or a computed expression. *)
Inductive PropKey : Type :=
| Identifier (name : string)
| KeyLiteral (value : string)
| KeyComputed.

(** The expression nodes [extractObjectFromNode] tells apart. A numeric
    literal carries [String(node.value)]; a template literal carries the
    number of its expressions and the cooked text of its quasis. *)
Inductive Node : Type :=
| ObjectExpression (properties : list Property)
| StringLiteral (value : string)
| NumericLiteral (value : string)
| TemplateLiteral (expressions : nat) (quasis : list string)
| OtherExpression
with Property : Type :=
| ObjectProperty (key : PropKey) (value : Node)
| SpreadElement
| ObjectMethod.

(** [prop.key.type === 'Identifier' ? prop.key.name : prop.key.value],
    used as a property name. *)
Definition property_name (k : PropKey) : string :=
  match k with
  | Identifier n => n
  | KeyLiteral v => v
  | KeyComputed => "undefined"
  end.

(** An object in the making: its own properties and its prototype. *)
Definition object : Type := (list (string * jsval) * jsproto)%type.

(** The object literal [{}]. *)
Definition new_object : object := ([], ObjectPrototype).

Definition object_value (o : object) : jsval := JObj (fst o) (snd o).

(** Whether looking [__proto__] up along a prototype chain ends at the
    accessor of [Object.prototype]: an own property of that name on the
    way hides it, and a chain that ends in [null] never reaches it. *)
Fixpoint setter_in_reach (proto : jsproto) : bool :=
  match proto with
  | ObjectPrototype => true
  | NullPrototype => false
  | PrototypeObject props proto' =>
      negb (JsObject.has_own props "__proto__") && setter_in_reach proto'
  | PrototypeArray _ => true
  end.

(** [obj[key] = value]. Every inherited property but [__proto__] is a
    writable data property, so the assignment creates or overwrites an
    own property; for [__proto__], unless it is an own property or the
    accessor is out of reach, the setter of [Object.prototype] runs: an
    object, an array or [null] becomes the prototype, a string is
    ignored, and no own property is made. *)
Definition assign_property (o : object) (key : string) (value : jsval) : object :=
  if String.eqb key "__proto__" && negb (JsObject.has_own (fst o) key)
     && setter_in_reach (snd o)
  then match value with
       | JObj props proto => (fst o, PrototypeObject props proto)
       | JArr items => (fst o, PrototypeArray items)
       | JNull => (fst o, NullPrototype)
       | JStr _ => o
       end
  else (JsObject.set (fst o) key value, snd o).

Fixpoint extractObjectFromNode (node : Node) : jsval :=
  match node with
  | ObjectExpression properties =>
      object_value
        (fold_left (fun obj prop =>
                      match prop with
                      | ObjectProperty key value =>
                          assign_property obj (property_name key)
                                          (extractObjectFromNode value)
                      | SpreadElement | ObjectMethod => obj
                      end) properties new_object)
  | StringLiteral value => JStr value
  | NumericLiteral value => JStr value
  | TemplateLiteral expressions quasis =>
      match expressions, quasis with
      | 0, [cooked] => JStr cooked
      | _, _ => JNull
      end
  | OtherExpression => JNull
  end.

(** [Array.prototype.join]. *)
Fixpoint join (sep : string) (l : list string) : string :=
  match l with
  | [] => EmptyString
  | [s] => s
  | s :: l' => s ++ sep ++ join sep l'
  end.

Inductive TargetKey := KColors | KSpacing.

Definition target_name (k : TargetKey) : string :=
  match k with KColors => "colors" | KSpacing => "spacing" end.

Inductive Ancestry := FromExtend | FromRoot.

Definition verifyAncestry (path : list string) (targetKey : TargetKey)
  : option Ancestry :=
  let pathStr := join "." path in
  if String.eqb pathStr ("theme.extend." ++ target_name targetKey) then Some FromExtend
  else if String.eqb pathStr ("theme." ++ target_name targetKey) then Some FromRoot
  else None.

(** What the visitor reads of a path handed to it by the traversal: the
    property node and the chain of [parentPath]s, innermost first. Of an
    enclosing node only its being an object property, and then its key,
    is looked at. *)
Inductive Enclosing : Type :=
| EnclosingProperty (key : PropKey)
| EnclosingOther.

Record NodePath := mkPath {
  node_key : PropKey;
  node_value : Node;
  parents : list Enclosing
}.

(** [node.key.name || node.key.value]; [None] stands for [undefined]. *)
Definition key_of (k : PropKey) : option string :=
  match k with
  | Identifier n => Some n
  | KeyLiteral v => Some v
  | KeyComputed => None
  end.

(** In [Array.prototype.join] an [undefined] element is the empty string. *)
Definition join_text (k : option string) : string :=
  match k with Some s => s | None => EmptyString end.

(** The four buckets the visitor fills. *)
Record Buckets := mkBuckets {
  extendColors : object;
  extendSpacing : object;
  overrideColors : object;
  overrideSpacing : object
}.

(** The own enumerable properties of a value, as [Object.assign] and
    [Object.entries] enumerate them: the own properties of an object, the
    elements of an array, the characters of a string. *)
Definition own_properties (v : jsval) : list (string * jsval) :=
  match v with
  | JObj props _ => props
  | JArr items => indexed 0 items
  | JStr s => map (fun kv => (fst kv, JStr (snd kv))) (string_props 0 s)
  | JNull => []
  end.

(** [Object.assign(target, extracted)]: every own property of
    [extracted] is assigned to [target]. *)
Definition assign_value (target : object) (extracted : jsval) : object :=
  fold_left (fun target kv => assign_property target (fst kv) (snd kv))
            (own_properties extracted) target.

Definition js_truthy (v : jsval) : bool :=
  match v with
  | JStr s => truthy s
  | JObj _ _ | JArr _ => true
  | JNull => false
  end.

(** The [ObjectProperty] visitor of [extractTruth]. *)
Definition visit (b : Buckets) (nodePath : NodePath) : Buckets :=
  let key := key_of (node_key nodePath) in
  let targetKey :=
    match key with
    | Some k => if String.eqb k "colors" then Some KColors
                else if String.eqb k "spacing" then Some KSpacing else None
    | None => None
    end in
  match targetKey with
  | None => b
  | Some tk =>
      let ancestryPath :=
        (fold_left (fun acc current =>
                     match current with
                     | EnclosingProperty parentKey => join_text (key_of parentKey) :: acc
                     | EnclosingOther => acc
                     end) (parents nodePath) [] ++ [target_name tk])%list in
      match verifyAncestry ancestryPath tk with
      | None => b
      | Some source =>
          let extracted := extractObjectFromNode (node_value nodePath) in
          if js_truthy extracted then
            match tk, source with
            | KColors, FromExtend =>
                mkBuckets (assign_value (extendColors b) extracted) (extendSpacing b)
                          (overrideColors b) (overrideSpacing b)
            | KColors, FromRoot =>
                mkBuckets (extendColors b) (extendSpacing b)
                          (assign_value (overrideColors b) extracted) (overrideSpacing b)
            | KSpacing, FromExtend =>
                mkBuckets (extendColors b) (assign_value (extendSpacing b) extracted)
                          (overrideColors b) (overrideSpacing b)
            | KSpacing, FromRoot =>
                mkBuckets (extendColors b) (extendSpacing b)
                          (overrideColors b) (assign_value (overrideSpacing b) extracted)
            end
          else b
      end
  end.

Section Extractor.

(** The syntax tree type of [@babel/parser]. *)
Variable Ast : Type.

(** The collaborators of [extractTruth]: the file system ([fs], [path]),
    the parser and the traversal. A call that throws gives the text of
    the thrown value, as [`${error}`] renders it. [traverse] gives the
    object-property paths in the order the visitor is called on them. *)
Record Host := mkHost {
  path_join : string -> string -> string;
  existsSync : string -> bool;
  readFileSync : string -> string + string;
  parse : string -> string + Ast;
  traverse : Ast -> string + list NodePath
}.

Variable host : Host.

Definition configFiles : list string :=
  ["tailwind.config.js"; "tailwind.config.ts"; "tailwind.config.cjs"].

(** [configPath] after the search loop: the path of the first
    configuration file that exists at the project root; [None] stands for
    a [configPath] that fails the test [!configPath] ([null], or an empty
    path). *)
Definition findConfig (projectRoot : string) : option string :=
  match find (existsSync host) (map (path_join host projectRoot) configFiles) with
  | Some fullPath => if truthy fullPath then Some fullPath else None
  | None => None
  end.

Definition extractTruth (projectRoot : string) : Result ExtractedTruth :=
  match findConfig projectRoot with
  | None => Throw (ConfigParseError "No tailwind config file found")
  | Some configPath =>
      match readFileSync host configPath with
      | inl error => Throw (ConfigParseError ("Failed to read config file: " ++ error))
      | inr code =>
          match parse host code with
          | inl error => Throw (ConfigParseError ("Failed to parse config file: " ++ error))
          | inr ast =>
              match traverse host ast with
              | inl error => Throw (ConfigParseError ("Failed to traverse AST: " ++ error))
              | inr paths =>
                  let b := fold_left visit paths
                                     (mkBuckets new_object new_object new_object new_object) in
                  let flat bucket := flattenObject (object_value bucket) EmptyString in
                  Return
                    {| extend :=
                         {| colors := flat (extendColors b);
                            spacing := flat (extendSpacing b) |};
                       override :=
                         {| colors := flat (overrideColors b);
                            spacing := flat (overrideSpacing b) |} |}
              end
          end
      end
  end.

End Extractor.

(* ===================================================================== *)
(** ** logic/validator.ts *)
(* ===================================================================== *)

Inductive Category := Colors | Spacing | Layout | Typography | Decoration.

(** [SCOPED_PREFIXES], in the order [Object.entries] lists it. *)
Definition SCOPED_PREFIXES : list (Category * list string) :=
  [ (Colors, ["bg-"; "text-"; "border-"; "ring-"; "divide-"]);
    (Spacing, ["p-"; "pt-"; "pr-"; "pb-"; "pl-"; "px-"; "py-"; "m-"; "mt-";
               "mr-"; "mb-"; "ml-"; "mx-"; "my-"; "gap-"; "gap-x-"; "gap-y-";
               "space-x-"; "space-y-"]);
    (Layout, ["flex"; "flex-"; "grid"; "grid-"; "block"; "hidden"; "inline";
              "inline-block"; "inline-flex"; "inline-grid";
              "w-"; "h-"; "min-w-"; "max-w-"; "min-h-"; "max-h-";
              "justify-"; "items-"; "content-"; "self-"; "col-"; "row-";
              "relative"; "absolute"; "fixed"; "sticky";
              "top-"; "bottom-"; "left-"; "right-"; "inset-";
              "z-"; "flex-wrap"; "order-"; "overflow-";
              "border-t-"; "border-b-"; "border-l-"; "border-r-";
              "border-x-"; "border-y-"]);
    (Typography, ["font-"; "leading-"; "tracking-"; "text-";
                  "uppercase"; "lowercase"; "capitalize"; "normal-case";
                  "list-"; "italic"; "underline";
                  "text-center"; "text-left"; "text-right"]);
    (Decoration, ["rounded-"; "rounded"; "shadow-"; "shadow";
                  "opacity-"; "cursor-";
                  "border-t"; "border-b"; "border-l"; "border-r";
                  "ring-"; "outline-"; "transition-"; "duration-"]) ].

Definition STANDARD_SIZE_KEYWORDS : list string :=
  ["full"; "screen"; "min"; "max"; "fit"; "auto"; "px"].

Definition TEXT_SIZES : list string :=
  ["xs"; "sm"; "base"; "lg"; "xl"; "2xl"; "3xl"; "4xl"; "5xl"; "6xl"; "7xl";
   "8xl"; "9xl"].

Definition BORDER_WIDTHS : list string := ["0"; "2"; "4"; "8"].

(** *** String primitives *)

(** [s.startsWith(p)]. *)
Definition startsWith (s p : string) : bool := String.prefix p s.

(** [s.substring(n)]: [s] without its first [n] characters. *)
Fixpoint substring_from (n : nat) (s : string) : string :=
  match n, s with
  | 0, _ => s
  | S n', String _ s' => substring_from n' s'
  | S _, EmptyString => EmptyString
  end.

(** [s.endsWith(suffix)]. *)
Definition endsWith (s suffix : string) : bool :=
  (String.length suffix <=? String.length s)%nat &&
  String.eqb (substring_from (String.length s - String.length suffix) s) suffix.

(** [s.includes(c)] for a one-character [c]. *)
Fixpoint includes (s : string) (c : ascii) : bool :=
  match s with
  | EmptyString => false
  | String c' s' => Ascii.eqb c' c || includes s' c
  end.

(** [s.charAt(i)]: a one-character string, empty out of range. *)
Definition charAt (s : string) (i : nat) : string :=
  match String.get i s with
  | Some c => String c EmptyString
  | None => EmptyString
  end.

(** *** Arrays *)

(** [arr[i] = v]: inside the array the element is replaced, at its end the
    array grows by one; further out the gap is left as holes, which read
    as [hole]. *)
Definition array_set (A : Type) (hole : A) (arr : list A) (i : nat) (v : A)
  : list A :=
  if (i <? List.length arr)%nat then (firstn i arr ++ v :: skipn (S i) arr)%list
  else (arr ++ repeat hole (i - List.length arr) ++ [v])%list.

(** [matrix[i][j]] and [matrix[i][j] = v] on an array of rows. *)
Definition cell (matrix : list (list nat)) (i j : nat) : nat :=
  nth j (nth i matrix []) 0.

Definition set_cell (matrix : list (list nat)) (i j v : nat) : list (list nat) :=
  array_set [] matrix i (array_set 0 (nth i matrix []) j v).

(** [for (let i = lo; i <= hi; i++) body]: the indices, in order. *)
Definition range (lo hi : nat) : list nat := seq lo (S hi - lo).

(** *** Levenshtein distance *)

Definition levenshtein (a b : string) : nat :=
  let matrix : list (list nat) := [] in
  let matrix :=
    fold_left (fun matrix i => array_set [] matrix i [i])
              (range 0 (String.length b)) matrix in
  let matrix :=
    fold_left (fun matrix j => set_cell matrix 0 j j)
              (range 0 (String.length a)) matrix in
  let matrix :=
    fold_left
      (fun matrix i =>
         fold_left
           (fun matrix j =>
              if String.eqb (charAt b (i - 1)) (charAt a (j - 1)) then
                set_cell matrix i j (cell matrix (i - 1) (j - 1))
              else
                set_cell matrix i j
                  (Nat.min (cell matrix (i - 1) (j - 1) + 1)
                     (Nat.min (cell matrix i (j - 1) + 1)
                              (cell matrix (i - 1) j + 1))))
           (range 1 (String.length a)) matrix)
      (range 1 (String.length b)) matrix in
  cell matrix (String.length b) (String.length a).

(** *** Sorting and the closest matches *)

(** [Array.prototype.sort(cmp)]. The sort is stable: elements that compare
    equal keep their order. For a comparator that orders by a key this
    fixes the result, computed here by insertion from the right. *)
Fixpoint sort_insert (A : Type) (cmp : A -> A -> Z) (x : A) (l : list A) : list A :=
  match l with
  | [] => [x]
  | y :: l' => if (cmp x y <=? 0)%Z then x :: l else y :: sort_insert cmp x l'
  end.

Definition Array_sort (A : Type) (cmp : A -> A -> Z) (l : list A) : list A :=
  fold_right (sort_insert cmp) [] l.

Record Scored := mkScored {
  option_ : string;
  distance : nat
}.

Definition findClosest (target : string) (options : list string) : list string :=
  let distances :=
    map (fun option => {| option_ := option; distance := levenshtein target option |})
        options in
  let distances :=
    Array_sort (fun a b => (Z.of_nat (distance a) - Z.of_nat (distance b))%Z)
               distances in
  map option_ (firstn 3 distances).

(** *** Class extraction *)

(** [\s] on character codes below 256: tab, line feed, vertical tab, form
    feed, carriage return, space and no-break space. *)
Definition is_space (c : ascii) : bool :=
  let n := nat_of_ascii c in
  ((9 <=? n) && (n <=? 13) || (n =? 32) || (n =? 160))%nat.

(** [\d]. *)
Definition is_digit (c : ascii) : bool :=
  let n := nat_of_ascii c in ((48 <=? n) && (n <=? 57))%nat.

(** The quote classes of the pattern: double quote (code 34), single
    quote and, in the first, backquote. *)
Definition is_quote3 (c : ascii) : bool :=
  Ascii.eqb c "034" || Ascii.eqb c "'" || Ascii.eqb c "`".

Definition is_quote2 (c : ascii) : bool :=
  Ascii.eqb c "034" || Ascii.eqb c "'".

(** A literal at the head of the input; the rest of the input on success. *)
Fixpoint eat_literal (lit s : string) : option string :=
  match lit, s with
  | EmptyString, _ => Some s
  | String c lit', String c' s' =>
      if Ascii.eqb c c' then eat_literal lit' s' else None
  | String _ _, EmptyString => None
  end.

(** A greedy run [p*] at the head of the input: the run and the rest. *)
Fixpoint span (p : ascii -> bool) (s : string) : string * string :=
  match s with
  | EmptyString => (EmptyString, EmptyString)
  | String c s' =>
      if p c then let (run, rest) := span p s' in (String c run, rest)
      else (EmptyString, s)
  end.

(** One character of a class. *)
Definition eat_char (p : ascii -> bool) (s : string) : option string :=
  match s with
  | String c s' => if p c then Some s' else None
  | EmptyString => None
  end.

(** An optional character [c?]. *)
Definition eat_optional (c : ascii) (s : string) : string :=
  match s with
  | String c' s' => if Ascii.eqb c' c then s' else s
  | EmptyString => s
  end.

(** The attribute pattern
    [name\s*=\s*{?Q([^Q]+)Q}?], with the braces only when [braces] is set.
    No run of it can give characters back to what follows (each run ends
    where the next item's class begins), so greedy matching decides it.
    The result is the captured group and the input after the match. *)
Definition match_attribute (name : string) (braces : bool)
                           (is_quote : ascii -> bool) (s : string)
  : option (string * string) :=
  match eat_literal name s with
  | None => None
  | Some s =>
      match eat_char (Ascii.eqb "=") (snd (span is_space s)) with
      | None => None
      | Some s =>
          let s := snd (span is_space s) in
          let s := if braces then eat_optional "{" s else s in
          match eat_char is_quote s with
          | None => None
          | Some s =>
              let (group, s) := span (fun c => negb (is_quote c)) s in
              if truthy group then
                match eat_char is_quote s with
                | None => None
                | Some s => Some (group, if braces then eat_optional "}" s else s)
                end
              else None
          end
      end
  end.

(** The regular expression of [extractClasses] tried at the head of the
    input: the [className] alternative, then the [class] one. *)
Definition classRegex_here (s : string) : option (string * string) :=
  match match_attribute "className" true is_quote3 s with
  | Some m => Some m
  | None => match_attribute "class" false is_quote2 s
  end.

(** The [exec] loop of a global regular expression: the leftmost match at
    or after [lastIndex], then on from its end. [skip] counts the
    characters of the last match still to be passed over. *)
Fixpoint classRegex_exec_all (s : string) (skip : nat) : list string :=
  match s with
  | EmptyString => []
  | String _ s' =>
      match skip with
      | S k => classRegex_exec_all s' k
      | 0 =>
          match classRegex_here s with
          | Some (group, rest) =>
              group :: classRegex_exec_all s'
                         (String.length s - String.length rest - 1)
          | None => classRegex_exec_all s' 0
          end
      end
  end.

(** [s.split(/\s+/)]: [piece] is the piece being read, [in_run] tells that
    the last character belonged to a separator. *)
Fixpoint split_loop (s piece : string) (in_run : bool) : list string :=
  match s with
  | EmptyString => [piece]
  | String c s' =>
      if is_space c then
        if in_run then split_loop s' piece true
        else piece :: split_loop s' EmptyString true
      else split_loop s' (piece ++ String c EmptyString) false
  end.

Definition split_spaces (s : string) : list string := split_loop s EmptyString false.

Definition extractClasses (code : string) : list string :=
  flat_map (fun classString => filter truthy (split_spaces classString))
           (classRegex_exec_all code 0).

(** *** Prefix matching *)

(** One step of the two nested loops of [findLongestMatch]: the state is
    [longestMatch] with [longestLength]. *)
Definition match_step (className : string) (category : Category)
                      (st : option (Category * string) * nat) (prefix : string)
  : option (Category * string) * nat :=
  let (longestMatch, longestLength) := st in
  if negb (endsWith prefix "-") then
    if String.eqb className prefix && (longestLength <? String.length prefix)%nat
    then (Some (category, prefix), String.length prefix)
    else st
  else
    if startsWith className prefix && (longestLength <? String.length prefix)%nat
    then (Some (category, prefix), String.length prefix)
    else st.

Definition findLongestMatch_in (table : list (Category * list string))
                               (className : string)
  : option (Category * string) :=
  fst (fold_left
         (fun st entry =>
            fold_left (match_step className (fst entry)) (snd entry) st)
         table (None, 0)).

Definition findLongestMatch (className : string) : option (Category * string) :=
  findLongestMatch_in SCOPED_PREFIXES className.

Definition extractToken (className prefix : string) : string :=
  if negb (endsWith prefix "-") then EmptyString
  else substring_from (String.length prefix) className.

(** [/^\d+\/\d+$/.test(token)]. *)
Definition is_fraction (token : string) : bool :=
  let (numerator, rest) := span is_digit token in
  truthy numerator &&
  match rest with
  | String c rest' =>
      Ascii.eqb c "/" &&
      let (denominator, tail) := span is_digit rest' in
      truthy denominator && String.eqb tail EmptyString
  | EmptyString => false
  end.

Definition isStandardSizeKeyword (token : string) : bool :=
  string_in token STANDARD_SIZE_KEYWORDS || is_fraction token.

(** *** validateCode *)

Record ValidationResult := mkResult {
  isValid : bool;
  code : string;
  errors : list string
}.

(** The three locals of [validateCode] that the loop updates. *)
Record Pass := mkPass {
  validClasses : list string;
  errorList : list string;
  stillValid : bool
}.

(** [validClasses.push(className)]. *)
Definition accept (st : Pass) (className : string) : Pass :=
  {| validClasses := (validClasses st ++ [className])%list;
     errorList := errorList st;
     stillValid := stillValid st |}.

(** [errors.push(msg); isValid = false]. *)
Definition reject (st : Pass) (msg : string) : Pass :=
  {| validClasses := validClasses st;
     errorList := (errorList st ++ [msg])%list;
     stillValid := false |}.

Definition arbitrary_message (className : string) : string :=
  "Invalid arbitrary value: '" ++ className ++ "'. Arbitrary values are not allowed.".

(** The message of a rejected class, with the closest options re-prefixed. *)
Definition suggestion_message (className prefix token : string)
                              (options : list string) : string :=
  let suggestions := findClosest token options in
  let suggestionText :=
    join ", " (map (fun s => "'" ++ prefix ++ s ++ "'") suggestions) in
  "Invalid class '" ++ className ++ "'. Did you mean: " ++ suggestionText ++ "?".

(** [if (token && !truth[token]) reject else accept], on the given
    family of the resolved truth. *)
Definition strict_check (st : Pass) (className prefix token : string)
                        (family : JsObject.obj string) : Pass :=
  if truthy token && negb (truthy_get family token) then
    reject st (suggestion_message className prefix token (JsObject.keys family))
  else accept st className.

(** The body of the loop over the extracted classes. *)
Definition validate_class (resolvedTruth : ResolvedTruth) (st : Pass)
                          (className : string) : Pass :=
  if includes className "[" && includes className "]" then
    reject st (arbitrary_message className)
  else
    match findLongestMatch className with
    | None => accept st className
    | Some (category, prefix) =>
        let token := extractToken className prefix in
        match category with
        | Colors =>
            if String.eqb prefix "text-" then
              if string_in token TEXT_SIZES then accept st className
              else strict_check st className prefix token (colors resolvedTruth)
            else if String.eqb prefix "border-" then
              if string_in token BORDER_WIDTHS then accept st className
              else strict_check st className prefix token (colors resolvedTruth)
            else strict_check st className prefix token (colors resolvedTruth)
        | Spacing =>
            strict_check st className prefix token (spacing resolvedTruth)
        | Layout =>
            if startsWith prefix "w-" || startsWith prefix "h-"
               || startsWith prefix "min-" || startsWith prefix "max-" then
              if truthy token && negb (isStandardSizeKeyword token)
                 && negb (truthy_get (spacing resolvedTruth) token) then
                let spacingOptions := JsObject.keys (spacing resolvedTruth) in
                let allOptions := (STANDARD_SIZE_KEYWORDS ++ spacingOptions)%list in
                reject st (suggestion_message className prefix token allOptions)
              else accept st className
            else if startsWith prefix "border-t-" || startsWith prefix "border-b-"
                    || startsWith prefix "border-l-" || startsWith prefix "border-r-"
                    || startsWith prefix "border-x-" || startsWith prefix "border-y-" then
              strict_check st className prefix token (spacing resolvedTruth)
            else accept st className
        | Typography | Decoration => accept st className
        end
    end.

Definition validate_classes (resolvedTruth : ResolvedTruth) (classes : list string)
  : Pass :=
  fold_left (validate_class resolvedTruth) classes
            {| validClasses := []; errorList := []; stillValid := true |}.

Definition validateCode (code : string) (resolvedTruth : ResolvedTruth)
  : ValidationResult :=
  let st := validate_classes resolvedTruth (extractClasses code) in
  {| isValid := stillValid st;
     code := join " " (validClasses st);
     errors := errorList st |}.

(* ===================================================================== *)
(** ** Notions of the specification *)
(* ===================================================================== *)

(** The prefix table as the sequence of (category, prefix) pairs, in
    registration order. *)
Definition prefix_entries (table : list (Category * list string))
  : list (Category * string) :=
  flat_map (fun entry => map (pair (fst entry)) (snd entry)) table.

(** A prefix without a trailing separator matches by equality, a
    separator-terminated one when the class starts with it. *)
Definition prefix_matches (className prefix : string) : bool :=
  if endsWith prefix "-" then startsWith className prefix
  else String.eqb className prefix.

(** The two conditions under which extraction fails: no configuration
    file can be had, or the one found does not yield a tree that can be
    walked. *)
Definition config_unavailable (Ast : Type) (host : Host Ast) (projectRoot : string) : Prop :=
  findConfig host projectRoot = None \/
  exists configPath error,
    findConfig host projectRoot = Some configPath /\
    readFileSync host configPath = inl error.

Definition config_malformed (Ast : Type) (host : Host Ast) (projectRoot : string) : Prop :=
  exists configPath code,
    findConfig host projectRoot = Some configPath /\
    readFileSync host configPath = inr code /\
    ((exists error, parse host code = inl error) \/
     (exists ast error, parse host code = inr ast /\ traverse host ast = inl error)).

(** Powers of ten, for the value of a digit string by its length. *)
Fixpoint pow10 (len : nat) : N :=
  match len with
  | 0 => 1%N
  | S len' => (10 * pow10 len')%N
  end.

(** *** Edit distance *)

(** The characters of a string. *)
Definition chars (s : string) : list ascii := list_ascii_of_string s.

(** One single-character edit: a character is inserted, deleted or
    replaced by another, anywhere in the text. *)
Inductive edit_step : list ascii -> list ascii -> Prop :=
| edit_insert l c r : edit_step (l ++ r)%list (l ++ c :: r)%list
| edit_delete l c r : edit_step (l ++ c :: r)%list (l ++ r)%list
| edit_substitute l c d r : edit_step (l ++ c :: r)%list (l ++ d :: r)%list.

(** [edits n s t]: [n] single-character edits turn [s] into [t]. *)
Inductive edits : nat -> list ascii -> list ascii -> Prop :=
| edits_none s : edits 0 s s
| edits_more n s t u : edit_step s t -> edits n t u -> edits (S n) s u.

(** [d] is the least number of single-character edits from [s] to [t]. *)
Definition edit_distance (s t : list ascii) (d : nat) : Prop :=
  edits d s t /\ forall n, edits n s t -> d <= n.

(** The recurrence of the distance, on texts read from their first
    character. *)
Fixpoint lev (s : list ascii) : list ascii -> nat :=
  match s with
  | [] => fun t => List.length t
  | x :: s' =>
      fix lev_row (t : list ascii) : nat :=
        match t with
        | [] => S (List.length s')
        | y :: t' =>
            if Ascii.eqb x y then lev s' t'
            else S (Nat.min (lev s' t') (Nat.min (lev s' t) (lev_row t')))
        end
  end.

(** [i] ranks before [k]: a smaller distance, or the same distance and an
    earlier place in the pool. *)
Definition ranks_before (dist : nat -> nat) (i k : nat) : Prop :=
  dist i < dist k \/ (dist i = dist k /\ i < k).

(** Two strings of which one begins with the other. *)
Definition comparable (q p : string) : bool := String.prefix p q || String.prefix q p.

(** What the loop state says of the pairs seen so far: nothing but empty
    prefixes matched, or the match kept is the first of the longest. *)
Definition best_so_far (className : string) (seen : list (Category * string))
                       (st : option (Category * string) * nat) : Prop :=
  match fst st with
  | None =>
      snd st = 0 /\
      forall j e, nth_error seen j = Some e ->
                  prefix_matches className (snd e) = true ->
                  String.length (snd e) = 0
  | Some (c, p) =>
      snd st = String.length p /\ 0 < String.length p /\
      exists i, nth_error seen i = Some (c, p) /\
                prefix_matches className p = true /\
                forall j e, nth_error seen j = Some e ->
                            prefix_matches className (snd e) = true ->
                            String.length (snd e) <= String.length p /\
                            (String.length (snd e) = String.length p -> i <= j)
  end.

(** The rejection message of a class validated on its own, if any. *)
Definition verdict (resolvedTruth : ResolvedTruth) (className : string)
  : option string :=
  match errorList (validate_class resolvedTruth
                     {| validClasses := []; errorList := []; stillValid := true |}
                     className) with
  | [] => None
  | msg :: _ => Some msg
  end.

Definition accepted (resolvedTruth : ResolvedTruth) (className : string) : bool :=
  match verdict resolvedTruth className with None => true | Some _ => false end.

(** The rejection messages of a sequence of classes, in order. *)
Definition rejections (resolvedTruth : ResolvedTruth) (classes : list string)
  : list string :=
  flat_map (fun c => match verdict resolvedTruth c with
                     | Some msg => [msg]
                     | None => []
                     end) classes.

(** A resolved truth for examples: [red] is a color and [4] a spacing
    step, [giant] is neither. *)
Definition sampleResolved : ResolvedTruth :=
  {| colors := [("red", "#f00"); ("blue-500", "#3b82f6")];
     spacing := [("4", "1rem"); ("8", "2rem"); ("px", "1px")] |}.

(** A resolved truth for examples with a color and a spacing key of
    empty value. *)
Definition ghostResolved : ResolvedTruth :=
  {| colors := [("red", "#f00"); ("ghost", EmptyString)];
     spacing := [("4", "1rem"); ("zero", EmptyString)] |}.

(** Reading the key [k] in the mapping [o] gives a truthy value: [k] is
    an own key with a non-empty value, or it is no own key and is the
    name of a property every object inherits from [Object.prototype]. *)
Definition reads_truthy (o : JsObject.obj string) (k : string) : Prop :=
  (exists v, JsObject.get_own o k = Some v /\ v <> EmptyString) \/
  (JsObject.get_own o k = None /\ In k OBJECT_PROTOTYPE_KEYS).

(** A string without a [\s] character. *)
Fixpoint no_space (s : string) : bool :=
  match s with
  | EmptyString => true
  | String c s' => negb (is_space c) && no_space s'
  end.

(** The prefixes of the two strictly validated categories. *)
Definition STRICT_PREFIXES : list string :=
  flat_map (fun entry =>
              match fst entry with
              | Colors | Spacing => snd entry
              | _ => []
              end) SCOPED_PREFIXES.

(** Hosts for examples: a project without a configuration file, and one
    whose configuration file does not parse. *)
Definition hostWithoutConfig : Host unit :=
  {| path_join := fun dir file => dir ++ "/" ++ file;
     existsSync := fun _ => false;
     readFileSync := fun _ => inl "Error: ENOENT: no such file or directory";
     parse := fun _ => inr tt;
     traverse := fun _ => inr [] |}.

Definition hostWithBrokenConfig : Host unit :=
  {| path_join := fun dir file => dir ++ "/" ++ file;
     existsSync := fun p => String.eqb p "/app/tailwind.config.js";
     readFileSync := fun _ => inr "module.exports = {";
     parse := fun _ => inl "SyntaxError: Unexpected token (1:18)";
     traverse := fun _ => inr [] |}.

(* ===================================================================== *)
(** ** Prefix families of the validator *)
(* ===================================================================== *)

Definition category_eqb (a b : Category) : bool :=
  match a, b with
  | Colors, Colors | Spacing, Spacing | Layout, Layout
  | Typography, Typography | Decoration, Decoration => true
  | _, _ => false
  end.

(** The prefixes registered under a category. *)
Definition prefixes_of (category : Category) : list string :=
  flat_map (fun entry => if category_eqb (fst entry) category then snd entry else [])
           SCOPED_PREFIXES.

(** The category under which a prefix is registered first. *)
Definition first_category (prefix : string) : option Category :=
  option_map fst (find (fun cp => String.eqb (snd cp) prefix)
                       (prefix_entries SCOPED_PREFIXES)).

(** A separator-terminated prefix that no other registered prefix
    continues. *)
Definition unextended (q : string) : bool :=
  endsWith q "-" &&
  forallb (fun cp => negb (String.prefix q (snd cp)) || String.eqb (snd cp) q)
          (prefix_entries SCOPED_PREFIXES).

(** The two tests of the layout branch of [validateCode] on the prefix. *)
Definition is_sizing_prefix (prefix : string) : bool :=
  startsWith prefix "w-" || startsWith prefix "h-"
  || startsWith prefix "min-" || startsWith prefix "max-".

Definition is_directional_border_prefix (prefix : string) : bool :=
  startsWith prefix "border-t-" || startsWith prefix "border-b-"
  || startsWith prefix "border-l-" || startsWith prefix "border-r-"
  || startsWith prefix "border-x-" || startsWith prefix "border-y-".

(** The layout prefixes that take the sizing branch, and those that take
    the directional-border branch after it. *)
Definition SIZING_PREFIXES : list string :=
  filter is_sizing_prefix (prefixes_of Layout).

Definition DIRECTIONAL_BORDER_PREFIXES : list string :=
  filter (fun p => negb (is_sizing_prefix p) && is_directional_border_prefix p)
         (prefixes_of Layout).

(** The prefixes under which a class can be rejected. *)
Definition GOVERNED_PREFIXES : list string :=
  (prefixes_of Colors ++ prefixes_of Spacing
   ++ SIZING_PREFIXES ++ DIRECTIONAL_BORDER_PREFIXES)%list.

(** [pat] occurs somewhere in [s]. *)
Fixpoint occurs (pat s : string) : bool :=
  String.prefix pat s ||
  match s with
  | EmptyString => false
  | String _ s' => occurs pat s'
  end.

(** A string without any character of the class [p]. *)
Fixpoint without (p : ascii -> bool) (s : string) : bool :=
  match s with
  | EmptyString => true
  | String c s' => negb (p c) && without p s'
  end.


(** [q] is separator-terminated, no registered prefix continues it, and
    its first registration is under [category]. *)
Definition dominant (q : string) (category : Category) : bool :=
  unextended q &&
  match first_category q with
  | Some c => category_eqb c category
  | None => false
  end.

(** The test of step A of [validateCode]. *)
Definition is_arbitrary (className : string) : bool :=
  includes className "[" && includes className "]".


(* ===================================================================== *)
(** ** Notions for the extractor *)
(* ===================================================================== *)

(** A flat mapping as an object: the same own properties, with the
    prototype of an object literal. *)
Definition as_object (flat : JsObject.obj string) : jsval :=
  JObj (map (fun kv => (fst kv, JStr (snd kv))) flat) ObjectPrototype.

(** A flat mapping without its key [__proto__], if it has one. *)
Definition without_proto (flat : JsObject.obj string) : JsObject.obj string :=
  filter (fun kv => negb (String.eqb (fst kv) "__proto__")) flat.

(** The value of the last property named [k] among the properties of an
    object expression, spread elements and methods left aside. *)
Definition last_property (properties : list Property) (k : string) : option Node :=
  fold_left (fun found prop =>
               match prop with
               | ObjectProperty key value =>
                   if String.eqb (property_name key) k then Some value else found
               | SpreadElement | ObjectMethod => found
               end) properties None.


(* ===================================================================== *)
(** ** controller/generator.ts *)
(* ===================================================================== *)

Module Generator.

(** [new StrictComplianceError(message)] and [new Error(message)]. *)
Definition StrictComplianceError (msg : string) : JsError :=
  {| name := "StrictComplianceError"; message := msg |}.

Definition Error (msg : string) : JsError :=
  {| name := "Error"; message := msg |}.

Record CodeContext := mkContext {
  prefix : string;
  suffix : string;
  language : string
}.

(** An element of the [messages] array. *)
Record Message := mkMessage {
  role : string;
  content : string
}.

(** The line feed and the double quote of the template texts. *)
Definition nl : string := String "010" EmptyString.
Definition dq : string := String "034" EmptyString.

Definition buildSystemPrompt (context : CodeContext) (resolvedTruth : ResolvedTruth)
  : string :=
  let allowedColors := join ", " (firstn 20 (JsObject.keys (colors resolvedTruth))) in
  let allowedSpacing := join ", " (firstn 15 (JsObject.keys (spacing resolvedTruth))) in
  join nl
    [ "You are a strict UI component generator. Generate ONLY valid JSX code using allowed Tailwind classes.";
      EmptyString;
      "ALLOWED COLORS: " ++ allowedColors ++ "...";
      "ALLOWED SPACING: " ++ allowedSpacing ++ "...";
      EmptyString;
      "CONTEXT AWARENESS:";
      "Language: " ++ language context;
      EmptyString;
      "[CODE BEFORE CURSOR]:";
      "```";
      prefix context;
      "```";
      EmptyString;
      "[CURSOR IS HERE]";
      EmptyString;
      "[CODE AFTER CURSOR]:";
      "```";
      suffix context;
      "```";
      EmptyString;
      "INTELLIGENT PLACEMENT RULES:";
      "1. Analyze where the [CURSOR] is relative to the code structure.";
      "2. IF Inside an Object/Class: Generate properties/methods (e.g., " ++ dq ++ "key: value," ++ dq ++ ").";
      "3. IF Outside an Object/Class: Do NOT generate properties. Generate standalone code (e.g., " ++ dq ++ "object.key = value;" ++ dq ++ ") or a new variable.";
      "4. IF Inside a List/Array: Generate items (e.g., " ++ dq ++ "item," ++ dq ++ ").";
      "5. NEVER repeat the code from Before/After. Output ONLY the insertion.";
      EmptyString;
      "STRICT RULES:";
      "- NO arbitrary values like bg-[#fff] or w-[50px]";
      "- ONLY use colors and spacing from the allowed lists above";
      "- Use semantic class names (bg-, text-, p-, m-, etc.)";
      "- Return ONLY the JSX code, no explanations" ].

(** *** The text of a reply *)

(** [\w]. *)
Definition is_word (c : ascii) : bool :=
  let n := nat_of_ascii c in
  ((48 <=? n) && (n <=? 57) || (65 <=? n) && (n <=? 90)
   || (97 <=? n) && (n <=? 122) || (n =? 95))%nat.

(** [s.replace(/```[\w]*\n?/g, '')]: where three backquotes begin, they,
    the word characters after them and one line feed after those are
    dropped, and the scan goes on behind them; any other character is
    kept. Every step passes a character, so the length of the text is
    fuel enough. *)
Fixpoint replace_fences (fuel : nat) (s : string) : string :=
  match fuel with
  | 0 => s
  | S fuel' =>
      match eat_literal "```" s with
      | Some rest =>
          replace_fences fuel' (eat_optional "010" (snd (span is_word rest)))
      | None =>
          match s with
          | EmptyString => EmptyString
          | String c s' => String c (replace_fences fuel' s')
          end
      end
  end.

(** [s.trim()]: white space and line terminators are the characters of
    [is_space]. *)
Definition trimStart (s : string) : string := snd (span is_space s).

Fixpoint trimEnd (s : string) : string :=
  match s with
  | EmptyString => EmptyString
  | String c s' =>
      match trimEnd s' with
      | EmptyString => if is_space c then EmptyString else String c EmptyString
      | kept => String c kept
      end
  end.

Definition trim (s : string) : string := trimEnd (trimStart s).

(** The last statement of [callLLM] on the content of the reply:
    [content.replace(/```[\w]*\n?/g, '').trim()]. *)
Definition strip_markdown (content : string) : string :=
  trim (replace_fences (String.length content) content).

(** *** The request *)

(** The settings [lazyui.apiKey], [lazyui.baseUrl] and [lazyui.model];
    [None] stands for [undefined]. *)
Record Config := mkConfig {
  apiKey : option string;
  baseUrl : option string;
  model : option string
}.

(** The payload of a request; [temperature] is the literal of the source. *)
Record Payload := mkPayload {
  payload_model : string;
  payload_messages : list Message;
  temperature : string
}.

(** What [postRequest] is called with. *)
Record Request := mkRequest {
  url : string;
  key : string;
  payload : Payload
}.

(** [value || fallback] on a setting. *)
Definition or_default (value : option string) (fallback : string) : string :=
  match value with
  | Some s => if truthy s then s else fallback
  | None => fallback
  end.

(** [s.replace(/\/$/, '')]: one slash at the end is dropped. *)
Fixpoint strip_trailing_slash (s : string) : string :=
  match s with
  | EmptyString => EmptyString
  | String c s' =>
      match s' with
      | EmptyString => if Ascii.eqb c "/" then EmptyString else s
      | _ => String c (strip_trailing_slash s')
      end
  end.

Section Calls.

Variable config : Config.

(** The service behind [postRequest], together with the checks [callLLM]
    makes on its reply up to the extraction of the content: given the
    requests sent before and the request sent now, either the content of
    the first choice or the error [callLLM] throws at that point. *)
Variable exchange : list Request -> Request -> Result string.

(** [callLLM(messages, resolvedTruth)], in a state that records the
    requests sent so far; the source does not use its second argument. *)
Definition callLLM (messages : list Message) (sent : list Request)
  : Result string * list Request :=
  let baseUrl := or_default (baseUrl config) "https://api.openai.com/v1" in
  let model := or_default (model config) "gpt-4" in
  match apiKey config with
  | None =>
      (Throw (Error ("LazyUI API Key not configured. Set " ++ dq ++ "lazyui.apiKey"
                     ++ dq ++ " in settings.")), sent)
  | Some apiKey =>
      if truthy apiKey then
        let fullUrl := strip_trailing_slash baseUrl ++ "/chat/completions" in
        let request :=
          {| url := fullUrl; key := apiKey;
             payload := {| payload_model := model; payload_messages := messages;
                           temperature := "0.2" |} |} in
        (match exchange sent request with
         | Throw e => Throw e
         | Return content => Return (strip_markdown content)
         end, (sent ++ [request])%list)
      else
        (Throw (Error ("LazyUI API Key not configured. Set " ++ dq ++ "lazyui.apiKey"
                       ++ dq ++ " in settings.")), sent)
  end.

(** What a run of [generateCompliantUI] leaves: the settled promise, the
    warnings shown and the requests sent. *)
Record Outcome := mkOutcome {
  settled : Result string;
  warnings : list string;
  requests : list Request
}.

Definition maxAttempts : nat := 3.

Definition errorFeedback (errors : list string) : string :=
  "Your code was rejected strictly. Fix these errors:" ++ nl ++ "- "
  ++ join (nl ++ "- ") errors ++ nl ++ nl ++ "Return ONLY the fixed JSX.".

Definition warningMessage (errors : list string) : string :=
  "LazyUI: Generated code had violations. Returning sanitized version. Issues: "
  ++ NilEmpty.string_of_uint (Nat.to_uint (List.length errors)).

(** The loop [for (attempt = 1; attempt <= maxAttempts; attempt++)], with
    [remaining] the number of iterations still allowed. *)
Fixpoint attempts (resolvedTruth : ResolvedTruth) (remaining attempt : nat)
                  (messages : list Message) (sent : list Request) : Outcome :=
  match remaining with
  | 0 =>
      {| settled := Throw (StrictComplianceError "Unexpected error in generation loop");
         warnings := []; requests := sent |}
  | S remaining' =>
      match callLLM messages sent with
      | (Throw e, sent) => {| settled := Throw e; warnings := []; requests := sent |}
      | (Return generatedCode, sent) =>
          let validationResult := validateCode generatedCode resolvedTruth in
          if isValid validationResult then
            {| settled := Return (code validationResult);
               warnings := []; requests := sent |}
          else if (attempt =? maxAttempts)%nat then
            {| settled := Return (code validationResult);
               warnings := [warningMessage (errors validationResult)];
               requests := sent |}
          else
            attempts resolvedTruth remaining' (S attempt)
                     (messages ++ [ {| role := "user";
                                       content := errorFeedback (errors validationResult) |} ])%list
                     sent
      end
  end.

Definition generateCompliantUI (resolvedTruth : ResolvedTruth) (context : CodeContext)
                               (userPrompt : string) : Outcome :=
  let systemPrompt := buildSystemPrompt context resolvedTruth in
  let messages :=
    [ {| role := "system"; content := systemPrompt |};
      {| role := "user"; content := userPrompt |} ] in
  attempts resolvedTruth maxAttempts 1 messages [].

End Calls.

End Generator.


(** *** Notions for the generation loop *)

(** The API key [callLLM] goes on with: a setting that is a non-empty
    string. *)
Definition usable_key (config : Generator.Config) : option string :=
  match Generator.apiKey config with
  | Some k => if truthy k then Some k else None
  | None => None
  end.

(** The request [callLLM] sends for [messages] with the key [k]. *)
Definition request_for (config : Generator.Config) (k : string)
                       (messages : list Generator.Message) : Generator.Request :=
  {| Generator.url :=
       Generator.strip_trailing_slash
         (Generator.or_default (Generator.baseUrl config) "https://api.openai.com/v1")
       ++ "/chat/completions";
     Generator.key := k;
     Generator.payload :=
       {| Generator.payload_model :=
            Generator.or_default (Generator.model config) "gpt-4";
          Generator.payload_messages := messages;
          Generator.temperature := "0.2" |} |}.

(** The error of [callLLM] without a usable key. *)
Definition missing_key_error : JsError :=
  Generator.Error ("LazyUI API Key not configured. Set " ++ Generator.dq
                   ++ "lazyui.apiKey" ++ Generator.dq ++ " in settings.").

(** The two messages a run starts with. *)
Definition initial_messages (resolvedTruth : ResolvedTruth)
                            (context : Generator.CodeContext) (userPrompt : string)
  : list Generator.Message :=
  [ {| Generator.role := "system";
       Generator.content := Generator.buildSystemPrompt context resolvedTruth |};
    {| Generator.role := "user"; Generator.content := userPrompt |} ].

(** The validation of a reply, as the loop sees it, and the message that
    reports its errors. *)
Definition validated (resolvedTruth : ResolvedTruth) (reply : string)
  : ValidationResult :=
  validateCode (Generator.strip_markdown reply) resolvedTruth.

Definition feedback_message (resolvedTruth : ResolvedTruth) (reply : string)
  : Generator.Message :=
  {| Generator.role := "user";
     Generator.content :=
       Generator.errorFeedback (errors (validated resolvedTruth reply)) |}.


(** A configuration and two services for examples: one whose reply is a
    fenced block with known classes, one whose replies always hold an
    unknown class. *)
Definition sampleConfig : Generator.Config :=
  {| Generator.apiKey := Some "sk-test";
     Generator.baseUrl := Some "https://llm.example/v1/";
     Generator.model := None |}.

Definition sampleContext : Generator.CodeContext :=
  {| Generator.prefix := "export const Card = () => (";
     Generator.suffix := ");";
     Generator.language := "typescriptreact" |}.

Definition compliantService (sent : list Generator.Request) (r : Generator.Request)
  : Result string :=
  Return ("```jsx" ++ Generator.nl ++ "<div className='p-4 bg-red'>Hi</div>"
          ++ Generator.nl ++ "```").

Definition stubbornService (sent : list Generator.Request) (r : Generator.Request)
  : Result string :=
  Return "<div className='p-4 bg-neon'>Hi</div>".


(* ===================================================================== *)
(** ** scripts/generate-defaults.js *)
(* ===================================================================== *)

(** The color names the script skips. *)
Definition DEPRECATED_COLORS : list string :=
  ["lightBlue"; "warmGray"; "trueGray"; "coolGray"; "blueGray"].

(** The loop of [flattenColors] over [Object.entries(obj)], the own
    properties of an [obj] that is not [null]: a deprecated name is
    skipped, a string is stored under the new key, an object or an array
    is flattened under it and assigned onto the result. Under a prefix
    the key [DEFAULT] gives the prefix itself. *)
Fixpoint flattenColors_entries (obj : jsval) (prefix : string) {struct obj}
  : JsObject.obj string :=
  let newKey key :=
    if truthy prefix
    then if String.eqb key "DEFAULT" then prefix else prefix ++ "-" ++ key
    else key in
  let body key value result :=
    if string_in key DEPRECATED_COLORS then result
    else
      match value with
      | JStr s => put result (newKey key) s
      | JObj _ _ | JArr _ => put_all result (flattenColors_entries value (newKey key))
      | JNull => result
      end in
  match obj with
  | JObj props _ =>
      fold_left (fun result kv => body (fst kv) (snd kv) result) props JsObject.empty
  | JArr items => for_items body 0%N items JsObject.empty
  | JStr s =>
      fold_left (fun result kv =>
                   if string_in (fst kv) DEPRECATED_COLORS then result
                   else put result (newKey (fst kv)) (snd kv))
                (string_props 0 s) JsObject.empty
  | JNull => JsObject.empty
  end.

(** [flattenColors(obj, prefix)]: [Object.entries] throws on [null]. *)
Definition flattenColors (obj : jsval) (prefix : string)
  : Result (JsObject.obj string) :=
  match obj with
  | JNull =>
      Throw {| name := "TypeError";
               message := "Cannot convert undefined or null to object" |}
  | _ => Return (flattenColors_entries obj prefix)
  end.

(** An object on which the two flattenings have nothing to tell apart:
    at every depth its values are strings, [null] or such objects, no
    object inherits an enumerable property (its prototype is
    [Object.prototype] or [null]), and no key is [DEFAULT] or a
    deprecated name. *)
Fixpoint ordinary (obj : jsval) : bool :=
  match obj with
  | JObj props proto =>
      match proto with
      | ObjectPrototype | NullPrototype => true
      | PrototypeObject _ _ | PrototypeArray _ => false
      end
      && forallb (fun kv => negb (String.eqb (fst kv) "DEFAULT")
                            && negb (string_in (fst kv) DEPRECATED_COLORS)
                            && ordinary (snd kv)) props
  | JArr _ => false
  | JStr _ | JNull => true
  end.

(** The flat key [flattenColors] gives the child [k] of the group
    [parent]. *)
Definition color_key (parent k : string) : string :=
  if String.eqb k "DEFAULT" then parent else parent ++ "-" ++ k.


(** *** Notions for the visitor *)

(** The keys of the object properties that enclose a path, outermost
    first, followed by the key [own] of the path itself. *)
Definition ancestry (nodePath : NodePath) (own : string) : list string :=
  (rev (flat_map (fun e => match e with
                           | EnclosingProperty k => [join_text (key_of k)]
                           | EnclosingOther => []
                           end) (parents nodePath)) ++ [own])%list.

(** The property is [colors] or [spacing] and sits at [theme] or at
    [theme.extend]. *)
Definition collected (nodePath : NodePath) : bool :=
  match key_of (node_key nodePath) with
  | Some k =>
      string_in k ["colors"; "spacing"]
      && string_in (join "." (ancestry nodePath k))
                   ["theme." ++ k; "theme.extend." ++ k]
  | None => false
  end.

(** The keys of the object properties that enclose a path, outermost
    first. *)
Definition enclosing_keys (nodePath : NodePath) : list string :=
  rev (flat_map (fun e => match e with
                          | EnclosingProperty k => [join_text (key_of k)]
                          | EnclosingOther => []
                          end) (parents nodePath)).

(** The text has no dot. *)
Definition dot_free (s : string) : bool := negb (includes s ".").

Fixpoint same_keys (l l' : list string) : bool :=
  match l, l' with
  | [], [] => true
  | k :: rest, k' :: rest' => String.eqb k k' && same_keys rest rest'
  | _, _ => false
  end.

(** The property is named [colors] or [spacing], and the object
    properties around it are, from the outside in, [theme] alone or
    [theme] and then [extend]. *)
Definition at_theme (nodePath : NodePath) : bool :=
  match key_of (node_key nodePath) with
  | Some k =>
      string_in k ["colors"; "spacing"]
      && (same_keys (enclosing_keys nodePath) ["theme"]
          || same_keys (enclosing_keys nodePath) ["theme"; "extend"])
  | None => false
  end.

(** A host for examples. Its configuration file (the text read stands
    for it) is
    [module.exports = { colors: { brand: '#123' },
                        plugins: { theme: { colors: { brand: '#456' } } } }]:
    [colors] at the top level and under [plugins.theme], not under
    [theme]. The traversal meets six object properties. *)
Definition strayColorsPaths : list NodePath :=
  let outside := [EnclosingOther; EnclosingOther; EnclosingOther] in
  let under (keys : list string) :=
    (flat_map (fun k => [EnclosingOther; EnclosingProperty (Identifier k)]) keys
     ++ EnclosingOther :: outside)%list in
  [ {| node_key := Identifier "colors";
       node_value := ObjectExpression
                       [ObjectProperty (Identifier "brand") (StringLiteral "#123")];
       parents := under [] |};
    {| node_key := Identifier "brand"; node_value := StringLiteral "#123";
       parents := under ["colors"] |};
    {| node_key := Identifier "plugins";
       node_value :=
         ObjectExpression
           [ObjectProperty (Identifier "theme")
              (ObjectExpression
                 [ObjectProperty (Identifier "colors")
                    (ObjectExpression
                       [ObjectProperty (Identifier "brand") (StringLiteral "#456")])])];
       parents := under [] |};
    {| node_key := Identifier "theme";
       node_value :=
         ObjectExpression
           [ObjectProperty (Identifier "colors")
              (ObjectExpression
                 [ObjectProperty (Identifier "brand") (StringLiteral "#456")])];
       parents := under ["plugins"] |};
    {| node_key := Identifier "colors";
       node_value := ObjectExpression
                       [ObjectProperty (Identifier "brand") (StringLiteral "#456")];
       parents := under ["theme"; "plugins"] |};
    {| node_key := Identifier "brand"; node_value := StringLiteral "#456";
       parents := under ["colors"; "theme"; "plugins"] |} ].

Definition hostWithStrayColors : Host unit :=
  {| path_join := fun dir file => dir ++ "/" ++ file;
     existsSync := fun p => String.eqb p "/app/tailwind.config.js";
     readFileSync := fun _ => inr "module.exports = { colors: {}, plugins: {} }";
     parse := fun _ => inr tt;
     traverse := fun _ => inr strayColorsPaths |}.


(** A host for examples: the configuration file (the text read stands for
    it) is [module.exports = { 'theme.extend': { colors: { brand: '#123' } } }],
    with one key that contains a dot and no property [theme]. The
    traversal meets three object properties. *)
Definition dottedKeyPaths : list NodePath :=
  let outside := [EnclosingOther; EnclosingOther; EnclosingOther; EnclosingOther] in
  let brandObject :=
    ObjectExpression [ObjectProperty (Identifier "brand") (StringLiteral "#123")] in
  [ {| node_key := KeyLiteral "theme.extend";
       node_value := ObjectExpression [ObjectProperty (Identifier "colors") brandObject];
       parents := outside |};
    {| node_key := Identifier "colors"; node_value := brandObject;
       parents := (EnclosingOther :: EnclosingProperty (KeyLiteral "theme.extend")
                   :: outside)%list |};
    {| node_key := Identifier "brand"; node_value := StringLiteral "#123";
       parents := (EnclosingOther :: EnclosingProperty (Identifier "colors")
                   :: EnclosingOther :: EnclosingProperty (KeyLiteral "theme.extend")
                   :: outside)%list |} ].

Definition hostWithDottedKey : Host unit :=
  {| path_join := fun dir file => dir ++ "/" ++ file;
     existsSync := fun p => String.eqb p "/app/tailwind.config.js";
     readFileSync := fun _ => inr "module.exports = { 'theme.extend': { colors: {} } }";
     parse := fun _ => inr tt;
     traverse := fun _ => inr dottedKeyPaths |}.

(** The text of a literal, as the extractor reads it. *)
Definition string_of_literal (node : Node) : option string :=
  match node with
  | StringLiteral v | NumericLiteral v => Some v
  | TemplateLiteral 0 [cooked] => Some cooked
  | _ => None
  end.

(** Every property value of the object expression is such a literal. *)
Definition literal_properties (properties : list Property) : bool :=
  forallb (fun prop =>
             match prop with
             | ObjectProperty _ value =>
                 match string_of_literal value with Some _ => true | None => false end
             | SpreadElement | ObjectMethod => true
             end) properties.

(** Every property named [__proto__] has such a literal for value. *)
Definition proto_literals (properties : list Property) : bool :=
  forallb (fun prop =>
             match prop with
             | ObjectProperty key value =>
                 negb (String.eqb (property_name key) "__proto__")
                 || match string_of_literal value with Some _ => true | None => false end
             | SpreadElement | ObjectMethod => true
             end) properties.

(** The four buckets of an extracted truth, by where the property sits
    and by its name, and the dotted path of each. *)
Definition bucket (t : ExtractedTruth) (source : Ancestry) (target : TargetKey)
  : JsObject.obj string :=
  let families := match source with FromExtend => extend t | FromRoot => override t end in
  match target with KColors => colors families | KSpacing => spacing families end.

Definition theme_path (source : Ancestry) (target : TargetKey) : string :=
  match source with FromExtend => "theme.extend." | FromRoot => "theme." end
  ++ target_name target.

(** A host for examples: the configuration file (the text read stands for
    it) is [export default { theme: { extend: { spacing:
    { 18: '4.5rem', __proto__: '1rem', gutter: `2rem`, 18: '5rem' } } } }]. *)
Definition extendSpacingObject : Node :=
  ObjectExpression
    [ObjectProperty (KeyLiteral "18") (StringLiteral "4.5rem");
     ObjectProperty (Identifier "__proto__") (StringLiteral "1rem");
     ObjectProperty (Identifier "gutter") (TemplateLiteral 0 ["2rem"]);
     ObjectProperty (KeyLiteral "18") (StringLiteral "5rem")].

Definition extendSpacingPath : NodePath :=
  {| node_key := Identifier "spacing";
     node_value := extendSpacingObject;
     parents := [EnclosingOther; EnclosingProperty (Identifier "extend");
                 EnclosingOther; EnclosingProperty (Identifier "theme");
                 EnclosingOther; EnclosingOther; EnclosingOther] |}.

Definition hostWithExtendSpacing : Host unit :=
  let extendObject :=
    ObjectExpression [ObjectProperty (Identifier "spacing") extendSpacingObject] in
  let themeObject :=
    ObjectExpression [ObjectProperty (Identifier "extend") extendObject] in
  let inside := (EnclosingOther :: EnclosingProperty (Identifier "spacing")
                 :: parents extendSpacingPath)%list in
  {| path_join := fun dir file => dir ++ "/" ++ file;
     existsSync := fun p => String.eqb p "/app/tailwind.config.ts";
     readFileSync := fun _ => inr "export default { theme: { extend: { spacing: {} } } }";
     parse := fun _ => inr tt;
     traverse := fun _ =>
       inr [ {| node_key := Identifier "theme"; node_value := themeObject;
                parents := [EnclosingOther; EnclosingOther; EnclosingOther] |};
             {| node_key := Identifier "extend"; node_value := extendObject;
                parents := [EnclosingOther; EnclosingProperty (Identifier "theme");
                            EnclosingOther; EnclosingOther; EnclosingOther] |};
             extendSpacingPath;
             {| node_key := KeyLiteral "18"; node_value := StringLiteral "4.5rem";
                parents := inside |};
             {| node_key := Identifier "__proto__"; node_value := StringLiteral "1rem";
                parents := inside |};
             {| node_key := Identifier "gutter"; node_value := TemplateLiteral 0 ["2rem"];
                parents := inside |};
             {| node_key := KeyLiteral "18"; node_value := StringLiteral "5rem";
                parents := inside |} ] |}.


(** A host for examples: the configuration file (the text read stands for
    it) is [export default { theme: { extend: { colors:
    { primary: { DEFAULT: '#000', light: '#fff' } } } } }]. The traversal
    meets six object properties. *)
Definition defaultShadeColors : Node :=
  ObjectExpression
    [ObjectProperty (Identifier "primary")
       (ObjectExpression
          [ObjectProperty (Identifier "DEFAULT") (StringLiteral "#000");
           ObjectProperty (Identifier "light") (StringLiteral "#fff")])].

Definition hostWithDefaultShade : Host unit :=
  let under (keys : list string) :=
    (flat_map (fun k => [EnclosingOther; EnclosingProperty (Identifier k)]) keys
     ++ [EnclosingOther; EnclosingOther; EnclosingOther])%list in
  let primaryObject :=
    ObjectExpression
      [ObjectProperty (Identifier "DEFAULT") (StringLiteral "#000");
       ObjectProperty (Identifier "light") (StringLiteral "#fff")] in
  let extendObject :=
    ObjectExpression [ObjectProperty (Identifier "colors") defaultShadeColors] in
  let themeObject :=
    ObjectExpression [ObjectProperty (Identifier "extend") extendObject] in
  {| path_join := fun dir file => dir ++ "/" ++ file;
     existsSync := fun p => String.eqb p "/app/tailwind.config.ts";
     readFileSync := fun _ => inr "export default { theme: { extend: { colors: {} } } }";
     parse := fun _ => inr tt;
     traverse := fun _ =>
       inr [ {| node_key := Identifier "theme"; node_value := themeObject;
                parents := under [] |};
             {| node_key := Identifier "extend"; node_value := extendObject;
                parents := under ["theme"] |};
             {| node_key := Identifier "colors"; node_value := defaultShadeColors;
                parents := under ["extend"; "theme"] |};
             {| node_key := Identifier "primary"; node_value := primaryObject;
                parents := under ["colors"; "extend"; "theme"] |};
             {| node_key := Identifier "DEFAULT"; node_value := StringLiteral "#000";
                parents := under ["primary"; "colors"; "extend"; "theme"] |};
             {| node_key := Identifier "light"; node_value := StringLiteral "#fff";
                parents := under ["primary"; "colors"; "extend"; "theme"] |} ] |}.

(** Defaults for examples with twenty colors, as many as the system
    prompt lists. *)
Definition paletteDefaults : TokenFamilies :=
  {| colors :=
       map (fun k => (k, "#888"))
           ["inherit"; "current"; "transparent"; "black"; "white";
            "slate-50"; "slate-100"; "slate-200"; "slate-300"; "slate-400";
            "slate-500"; "slate-600"; "slate-700"; "slate-800"; "slate-900";
            "gray-50"; "gray-100"; "gray-200"; "gray-300"; "gray-400"];
     spacing := spacing sampleDefaults |}.

(** The key is no array index. *)
Definition named_key (k : string) : bool :=
  match JsObject.array_index k with
  | None => true
  | Some _ => false
  end.

(* ===================================================================== *)
(** * Properties *)
(* ===================================================================== *)

(** ** Plain objects *)

Section ObjFacts.
Variable V : Type.
Implicit Types (o src target a b : JsObject.obj V) (k : string) (v : V).

Lemma get_own_replace o k v k' :
  JsObject.get_own (JsObject.replace o k v) k' =
  if String.eqb k k' then
    match JsObject.get_own o k with Some _ => Some v | None => None end
  else JsObject.get_own o k'.
Proof.
  induction o as [|[k0 v0] o IH]; simpl.
  - destruct (String.eqb k k'); reflexivity.
  - destruct (String.eqb k0 k) eqn:E0; simpl.
    + apply String.eqb_eq in E0; subst k0.
      destruct (String.eqb k k'); reflexivity.
    + rewrite IH. destruct (String.eqb k k') eqn:E.
      * apply String.eqb_eq in E; subst k'. rewrite E0. reflexivity.
      * reflexivity.
Qed.

Lemma get_own_insert_index n o k v k' :
  JsObject.get_own o k = None ->
  JsObject.get_own (JsObject.insert_index n k v o) k' =
  if String.eqb k k' then Some v else JsObject.get_own o k'.
Proof.
  induction o as [|[k0 v0] o IH]; simpl; intros H.
  - reflexivity.
  - destruct (String.eqb k0 k) eqn:E0; [discriminate|].
    assert (Hne : String.eqb k k' = true -> String.eqb k0 k' = false).
    { intros E. apply String.eqb_eq in E; subst k'. exact E0. }
    destruct (JsObject.array_index k0) as [n0|].
    + destruct (n <? n0)%N; simpl.
      * reflexivity.
      * rewrite (IH H). destruct (String.eqb k k'); [rewrite Hne|]; reflexivity.
    + simpl. reflexivity.
Qed.

Lemma get_own_app o1 o2 k :
  JsObject.get_own (o1 ++ o2)%list k =
  match JsObject.get_own o1 k with
  | Some v => Some v
  | None => JsObject.get_own o2 k
  end.
Proof.
  induction o1 as [|[k0 v0] o1 IH]; simpl; [reflexivity|].
  destruct (String.eqb k0 k); [reflexivity|apply IH].
Qed.

(** Reading after [o[k] = v]. *)
Lemma get_own_set o k v k' :
  JsObject.get_own (JsObject.set o k v) k' =
  if String.eqb k k' then Some v else JsObject.get_own o k'.
Proof.
  unfold JsObject.set, JsObject.has_own.
  destruct (JsObject.get_own o k) eqn:E.
  - rewrite get_own_replace, E. reflexivity.
  - destruct (JsObject.array_index k).
    + apply get_own_insert_index; assumption.
    + rewrite get_own_app. simpl.
      destruct (String.eqb k k') eqn:Ek.
      * apply String.eqb_eq in Ek; subst k'. rewrite E. reflexivity.
      * destruct (JsObject.get_own o k'); reflexivity.
Qed.

Lemma precedes_neq k1 k2 : JsObject.precedes k1 k2 = true -> String.eqb k1 k2 = false.
Proof.
  unfold JsObject.precedes. destruct (String.eqb k1 k2); simpl; congruence.
Qed.

Lemma get_own_fresh o k :
  forallb (JsObject.precedes k) (JsObject.keys o) = true ->
  JsObject.get_own o k = None.
Proof.
  induction o as [|[k0 v0] o IH]; simpl; [reflexivity|].
  intros H. apply andb_true_iff in H as [H1 H2].
  apply precedes_neq in H1. rewrite String.eqb_sym, H1. apply IH, H2.
Qed.

(** Reading after the copy of [src] onto [target]: the source wins. *)
Lemma get_own_assign src : forall target k,
  JsObject.wf src = true ->
  JsObject.get_own (JsObject.assign target src) k =
  match JsObject.get_own src k with
  | Some v => Some v
  | None => JsObject.get_own target k
  end.
Proof.
  unfold JsObject.assign, JsObject.wf.
  induction src as [|[k0 v0] src IH]; simpl; intros target k H; [reflexivity|].
  apply andb_true_iff in H as [Hk Hs].
  rewrite (IH _ _ Hs), get_own_set.
  destruct (String.eqb k0 k) eqn:E; [|reflexivity].
  apply String.eqb_eq in E; subst k0.
  rewrite (get_own_fresh _ _ Hk). reflexivity.
Qed.

(** Reading the literal [{ ...a, ...b }]. *)
Lemma get_own_spread2 a b k :
  JsObject.wf a = true -> JsObject.wf b = true ->
  JsObject.get_own (JsObject.spread2 a b) k =
  match JsObject.get_own b k with
  | Some v => Some v
  | None => JsObject.get_own a k
  end.
Proof.
  intros Ha Hb. unfold JsObject.spread2.
  rewrite (get_own_assign _ _ _ Hb), (get_own_assign _ _ _ Ha). simpl.
  destruct (JsObject.get_own b k), (JsObject.get_own a k); reflexivity.
Qed.

Lemma ordered_app_inv ks1 : forall k ks2,
  JsObject.ordered (ks1 ++ k :: ks2)%list = true ->
  forallb (fun k' => JsObject.precedes k' k) ks1 = true /\
  JsObject.ordered (ks1 ++ [k])%list = true.
Proof.
  induction ks1 as [|k1 ks1 IH]; simpl; intros k ks2 H.
  - split; reflexivity.
  - apply andb_true_iff in H as [H1 H2].
    destruct (IH _ _ H2) as [IH1 IH2].
    rewrite forallb_app in H1. simpl in H1.
    apply andb_true_iff in H1 as [H1a H1b].
    apply andb_true_iff in H1b as [H1b _].
    rewrite H1b, IH1, IH2, forallb_app, H1a. simpl. rewrite H1b. split; reflexivity.
Qed.

Lemma insert_index_last n k v o :
  JsObject.array_index k = Some n ->
  forallb (fun k' => JsObject.precedes k' k) (JsObject.keys o) = true ->
  JsObject.insert_index n k v o = (o ++ [(k, v)])%list.
Proof.
  intros Hn. induction o as [|[k0 v0] o IH]; simpl; intros H; [reflexivity|].
  apply andb_true_iff in H as [H1 H2].
  unfold JsObject.precedes in H1. rewrite Hn in H1.
  apply andb_true_iff in H1 as [_ H1].
  destruct (JsObject.array_index k0) as [n0|]; [|discriminate].
  apply N.ltb_lt in H1.
  destruct (N.ltb_spec n n0); [lia|].
  rewrite (IH H2). reflexivity.
Qed.

(** Setting a key that every present key precedes appends it. *)
Lemma set_last o k v :
  forallb (fun k' => JsObject.precedes k' k) (JsObject.keys o) = true ->
  JsObject.set o k v = (o ++ [(k, v)])%list.
Proof.
  intros H. unfold JsObject.set, JsObject.has_own.
  assert (Hfresh : JsObject.get_own o k = None).
  { clear v. induction o as [|[k0 v0] o IH]; simpl in *; [reflexivity|].
    apply andb_true_iff in H as [H1 H2].
    rewrite (precedes_neq _ _ H1). apply IH, H2. }
  rewrite Hfresh.
  destruct (JsObject.array_index k) eqn:E; [|reflexivity].
  apply insert_index_last; assumption.
Qed.

Lemma assign_ordered src : forall target,
  JsObject.wf (target ++ src)%list = true ->
  JsObject.assign target src = (target ++ src)%list.
Proof.
  unfold JsObject.assign, JsObject.wf, JsObject.keys.
  induction src as [|[k v] src IH]; simpl; intros target H.
  - rewrite app_nil_r. reflexivity.
  - rewrite map_app in H. simpl in H.
    destruct (ordered_app_inv _ _ _ H) as [H1 _].
    rewrite set_last by exact H1.
    rewrite IH; rewrite <- app_assoc; simpl; [reflexivity|].
    rewrite map_app. simpl. exact H.
Qed.

(** Copying a plain object gives the same object. *)
Lemma assign_empty o : JsObject.wf o = true -> JsObject.assign JsObject.empty o = o.
Proof. intros H. apply (assign_ordered o []). exact H. Qed.

Lemma spread2_empty_r o :
  JsObject.wf o = true -> JsObject.spread2 o JsObject.empty = o.
Proof. intros H. unfold JsObject.spread2. simpl. apply assign_empty, H. Qed.

End ObjFacts.

Unset Implicit Arguments.

(** *** Array-index keys *)

Lemma pow10_S len : pow10 (S len) = (10 * pow10 len)%N.
Proof. reflexivity. Qed.

Lemma pow10_pos len : (0 < pow10 len)%N.
Proof. induction len as [|len IH]; [reflexivity|]. rewrite pow10_S. lia. Qed.

Lemma digit_of_bound c d : JsObject.digit_of c = Some d -> (d <= 9)%N.
Proof.
  unfold JsObject.digit_of.
  destruct ((48 <=? N_of_ascii c)%N && (N_of_ascii c <=? 57)%N) eqn:E; [|discriminate].
  intros H. injection H as <-.
  apply andb_true_iff in E as [E1 E2]. apply N.leb_le in E1, E2. lia.
Qed.

Lemma digit_of_inj c1 c2 d :
  JsObject.digit_of c1 = Some d -> JsObject.digit_of c2 = Some d -> c1 = c2.
Proof.
  unfold JsObject.digit_of.
  destruct ((48 <=? N_of_ascii c1)%N && (N_of_ascii c1 <=? 57)%N) eqn:E1; [|discriminate].
  destruct ((48 <=? N_of_ascii c2)%N && (N_of_ascii c2 <=? 57)%N) eqn:E2; [|discriminate].
  intros H1 H2. injection H1 as H1. injection H2 as H2.
  apply andb_true_iff in E1 as [E1 _]. apply andb_true_iff in E2 as [E2 _].
  apply N.leb_le in E1, E2.
  rewrite <- (ascii_N_embedding c1), <- (ascii_N_embedding c2). f_equal. lia.
Qed.

(** The value of a digit string lies in the range its length gives. *)
Lemma parse_digits_bounds s : forall acc v,
  JsObject.parse_digits s acc = Some v ->
  (acc * pow10 (String.length s) <= v < (acc + 1) * pow10 (String.length s))%N.
Proof.
  induction s as [|c s IH]; intros acc v H.
  - simpl in H. injection H as <-. change (pow10 (String.length EmptyString)) with 1%N. lia.
  - cbn [JsObject.parse_digits] in H. cbn [String.length]. rewrite pow10_S.
    destruct (JsObject.digit_of c) as [d|] eqn:Ed; [|discriminate].
    apply digit_of_bound in Ed. specialize (IH _ _ H).
    pose proof (pow10_pos (String.length s)). nia.
Qed.

Lemma parse_digits_inj s1 : forall s2 acc1 acc2 v,
  String.length s1 = String.length s2 ->
  JsObject.parse_digits s1 acc1 = Some v ->
  JsObject.parse_digits s2 acc2 = Some v ->
  acc1 = acc2 /\ s1 = s2.
Proof.
  induction s1 as [|c1 s1 IH]; intros [|c2 s2] acc1 acc2 v Hlen H1 H2;
    simpl in Hlen; try discriminate.
  - simpl in *. split; congruence.
  - cbn [JsObject.parse_digits] in H1, H2.
    destruct (JsObject.digit_of c1) as [d1|] eqn:E1; [|discriminate].
    destruct (JsObject.digit_of c2) as [d2|] eqn:E2; [|discriminate].
    injection Hlen as Hlen.
    destruct (IH _ _ _ _ Hlen H1 H2) as [Hacc ->].
    pose proof (digit_of_bound _ _ E1). pose proof (digit_of_bound _ _ E2).
    assert (acc1 = acc2) by lia. assert (d1 = d2) by lia. subst.
    split; [reflexivity|]. f_equal. exact (digit_of_inj _ _ _ E1 E2).
Qed.

Lemma pow10_mono m n : m <= n -> (pow10 m <= pow10 n)%N.
Proof.
  induction 1 as [|n _ IH]; [lia|]. rewrite pow10_S. pose proof (pow10_pos n). lia.
Qed.

(** An array index has one spelling. *)
Lemma array_index_inj k1 k2 n :
  JsObject.array_index k1 = Some n -> JsObject.array_index k2 = Some n -> k1 = k2.
Proof.
  assert (canon : forall c rest v,
            Ascii.eqb c "0" = false ->
            JsObject.parse_digits (String c rest) 0 = Some v ->
            (pow10 (String.length rest) <= v < pow10 (S (String.length rest)))%N).
  { intros c rest v Hc H. cbn [JsObject.parse_digits] in H.
    destruct (JsObject.digit_of c) as [d|] eqn:Ed; [|discriminate].
    assert (d <> 0)%N.
    { intros ->. apply Ascii.eqb_neq in Hc. apply Hc.
      apply (digit_of_inj c "0" 0%N Ed). reflexivity. }
    pose proof (digit_of_bound _ _ Ed).
    apply parse_digits_bounds in H. rewrite pow10_S.
    pose proof (pow10_pos (String.length rest)). nia. }
  unfold JsObject.array_index.
  destruct k1 as [|c1 r1]; [discriminate|]. destruct k2 as [|c2 r2]; [discriminate|].
  destruct (Ascii.eqb c1 "0") eqn:E1; destruct (Ascii.eqb c2 "0") eqn:E2.
  - apply Ascii.eqb_eq in E1, E2. subst.
    destruct r1; [|discriminate]. destruct r2; [|discriminate]. reflexivity.
  - destruct r1; [|discriminate]. intros H1. injection H1 as <-.
    destruct (JsObject.parse_digits (String c2 r2) 0) as [v|] eqn:P; [|discriminate].
    destruct (v <? 4294967295)%N; [|discriminate]. intros H. injection H as ->.
    pose proof (canon _ _ _ E2 P). pose proof (pow10_pos (String.length r2)). lia.
  - destruct (JsObject.parse_digits (String c1 r1) 0) as [v|] eqn:P; [|discriminate].
    destruct (v <? 4294967295)%N; [|discriminate]. intros H. injection H as ->.
    destruct r2; [|discriminate]. intros H2. injection H2 as <-.
    pose proof (canon _ _ _ E1 P). pose proof (pow10_pos (String.length r1)). lia.
  - destruct (JsObject.parse_digits (String c1 r1) 0) as [v1|] eqn:P1; [|discriminate].
    destruct (v1 <? 4294967295)%N; [|discriminate]. intros H. injection H as ->.
    destruct (JsObject.parse_digits (String c2 r2) 0) as [v2|] eqn:P2; [|discriminate].
    destruct (v2 <? 4294967295)%N; [|discriminate]. intros H. injection H as ->.
    pose proof (canon _ _ _ E1 P1) as B1. pose proof (canon _ _ _ E2 P2) as B2.
    assert (Hlen : String.length r1 = String.length r2).
    { destruct (Nat.lt_trichotomy (String.length r1) (String.length r2)) as [L|[L|L]].
      - pose proof (pow10_mono (S (String.length r1)) (String.length r2) L). lia.
      - exact L.
      - pose proof (pow10_mono (S (String.length r2)) (String.length r1) L). lia. }
    apply (parse_digits_inj (String c1 r1) (String c2 r2) 0%N 0%N n); simpl; auto.
Qed.

(** *** Assignment keeps the enumeration order *)

Section ObjOrder.
Variable V : Type.
Implicit Types (o src target a b : JsObject.obj V) (k : string) (v : V).

Lemma keys_replace o k v : JsObject.keys (JsObject.replace o k v) = JsObject.keys o.
Proof.
  induction o as [|[k0 v0] o IH]; simpl; [reflexivity|].
  destruct (String.eqb k0 k); simpl; [reflexivity|]. rewrite IH. reflexivity.
Qed.

Lemma get_own_None_neq o k k' :
  JsObject.get_own o k = None -> In k' (JsObject.keys o) -> String.eqb k' k = false.
Proof.
  induction o as [|[k0 v0] o IH]; simpl; intros H Hin; [contradiction|].
  destruct (String.eqb k0 k) eqn:E; [discriminate|].
  destruct Hin as [<-|Hin]; [exact E|exact (IH H Hin)].
Qed.

Lemma ordered_snoc ks k :
  JsObject.ordered ks = true ->
  forallb (fun k' => JsObject.precedes k' k) ks = true ->
  JsObject.ordered (ks ++ [k])%list = true.
Proof.
  induction ks as [|k0 ks IH]; simpl; intros H1 H2; [reflexivity|].
  apply andb_true_iff in H1 as [H1a H1b]. apply andb_true_iff in H2 as [H2a H2b].
  rewrite forallb_app, H1a, (IH H1b H2b). simpl. rewrite H2a. reflexivity.
Qed.

Lemma keys_insert_index n k v o x :
  In x (JsObject.keys (JsObject.insert_index n k v o)) ->
  x = k \/ In x (JsObject.keys o).
Proof.
  induction o as [|[k0 v0] o IH]; simpl.
  - intros [<-|[]]. left. reflexivity.
  - destruct (JsObject.array_index k0) as [n0|].
    + destruct (n <? n0)%N; simpl.
      * intros [<-|H]; [left; reflexivity|right; exact H].
      * intros [<-|H]; [right; left; reflexivity|].
        destruct (IH H) as [->|H']; [left; reflexivity|right; right; exact H'].
    + simpl. intros [<-|H]; [left; reflexivity|right; exact H].
Qed.

Lemma ordered_insert_index n k v o :
  JsObject.array_index k = Some n ->
  JsObject.get_own o k = None ->
  JsObject.wf o = true ->
  JsObject.wf (JsObject.insert_index n k v o) = true.
Proof.
  unfold JsObject.wf. intros Hn. induction o as [|[k0 v0] o IH]; intros Hfresh Hwf.
  - reflexivity.
  - cbn [JsObject.keys map fst JsObject.ordered] in Hwf.
    apply andb_true_iff in Hwf as [Hk0 Hwf].
    assert (Hne : String.eqb k0 k = false) by (simpl in Hfresh; destruct (String.eqb k0 k); congruence).
    assert (Hfresh' : JsObject.get_own o k = None) by (simpl in Hfresh; rewrite Hne in Hfresh; exact Hfresh).
    assert (Hall : forall kr, In kr (JsObject.keys o) -> String.eqb k kr = false).
    { intros kr Hin. rewrite String.eqb_sym. exact (get_own_None_neq _ _ _ Hfresh' Hin). }
    rewrite forallb_forall in Hk0.
    assert (Hfront : JsObject.array_index k0 = None \/
                     (exists n0, JsObject.array_index k0 = Some n0 /\ (n < n0)%N) ->
                     JsObject.ordered (k :: k0 :: JsObject.keys o) = true).
    { intros Hcase. cbn [JsObject.ordered forallb].
      apply andb_true_iff. split; [|apply andb_true_iff; split; [|exact Hwf]].
      - apply andb_true_iff. split.
        + unfold JsObject.precedes. rewrite String.eqb_sym, Hne, Hn. simpl.
          destruct Hcase as [->|(n0 & -> & Hlt)]; [reflexivity|].
          apply N.ltb_lt. exact Hlt.
        + apply forallb_forall. intros kr Hin.
          specialize (Hk0 kr Hin). unfold JsObject.precedes in Hk0 |- *.
          rewrite (Hall kr Hin), Hn. simpl.
          apply andb_true_iff in Hk0 as [_ Hk0].
          destruct (JsObject.array_index kr) as [nr|]; [|reflexivity].
          destruct Hcase as [E|(n0 & E & Hlt)]; rewrite E in Hk0; [discriminate|].
          apply N.ltb_lt in Hk0. apply N.ltb_lt. lia.
      - apply forallb_forall. exact Hk0. }
    cbn [JsObject.insert_index].
    destruct (JsObject.array_index k0) as [n0|] eqn:E0.
    + destruct (N.ltb_spec n n0) as [Hlt|Hge].
      * apply Hfront. right. exists n0. split; [reflexivity|exact Hlt].
      * cbn [JsObject.keys map fst JsObject.ordered].
        apply andb_true_iff. split; [|exact (IH Hfresh' Hwf)].
        apply forallb_forall. intros x Hx.
        apply keys_insert_index in Hx as [->|Hx]; [|exact (Hk0 x Hx)].
        unfold JsObject.precedes. rewrite Hne, Hn, E0. simpl.
        apply N.ltb_lt.
        assert (n <> n0).
        { intros ->. rewrite (array_index_inj _ _ _ Hn E0), String.eqb_refl in Hne.
          discriminate. }
        lia.
    + apply Hfront. left. reflexivity.
Qed.

(** [o[k] = v] keeps a plain object a plain object. *)
Lemma wf_set o k v : JsObject.wf o = true -> JsObject.wf (JsObject.set o k v) = true.
Proof.
  intros Hwf. unfold JsObject.set, JsObject.has_own.
  destruct (JsObject.get_own o k) eqn:E.
  - unfold JsObject.wf. rewrite keys_replace. exact Hwf.
  - destruct (JsObject.array_index k) as [n|] eqn:En.
    + apply ordered_insert_index; assumption.
    + unfold JsObject.wf, JsObject.keys. rewrite map_app. simpl.
      apply ordered_snoc; [exact Hwf|].
      apply forallb_forall. intros k' Hin.
      unfold JsObject.precedes. rewrite (get_own_None_neq _ _ _ E Hin), En. reflexivity.
Qed.

Lemma wf_assign src : forall target,
  JsObject.wf target = true -> JsObject.wf (JsObject.assign target src) = true.
Proof.
  unfold JsObject.assign.
  induction src as [|[k v] src IH]; simpl; intros target H; [exact H|].
  apply IH, wf_set, H.
Qed.

(** An object literal built by spreading is a plain object. *)
Lemma wf_spread2 a b : JsObject.wf (JsObject.spread2 a b) = true.
Proof. unfold JsObject.spread2. apply wf_assign, wf_assign. reflexivity. Qed.

End ObjOrder.

(** ** Truth resolution *)

Section ResolverFacts.
Variable defaultTheme : TokenFamilies.

(** The baseline of a family: the override bucket when it has a key, the
    built-in default otherwise. *)
Let baseline (family : TokenFamilies -> JsObject.obj string)
             (userTruth : ExtractedTruth) : JsObject.obj string :=
  match family (override userTruth) with
  | [] => family defaultTheme
  | _ :: _ => family (override userTruth)
  end.

Lemma resolveTruth_colors userTruth :
  colors (resolveTruth defaultTheme userTruth) =
  JsObject.spread2 (baseline colors userTruth) (colors (extend userTruth)).
Proof.
  unfold resolveTruth, baseline. simpl.
  destruct (colors (override userTruth)); reflexivity.
Qed.

Lemma resolveTruth_spacing userTruth :
  spacing (resolveTruth defaultTheme userTruth) =
  JsObject.spread2 (baseline spacing userTruth) (spacing (extend userTruth)).
Proof.
  unfold resolveTruth, baseline. simpl.
  destruct (spacing (override userTruth)); reflexivity.
Qed.

Lemma wf_baseline_colors userTruth :
  wf_truth userTruth = true -> wf_families defaultTheme = true ->
  JsObject.wf (baseline colors userTruth) = true.
Proof.
  unfold wf_truth, wf_families, baseline. intros Ht Hd.
  apply andb_true_iff in Ht as [_ Ht].
  apply andb_true_iff in Ht as [Ht _].
  apply andb_true_iff in Hd as [Hd _].
  destruct (colors (override userTruth)); assumption.
Qed.

Lemma wf_baseline_spacing userTruth :
  wf_truth userTruth = true -> wf_families defaultTheme = true ->
  JsObject.wf (baseline spacing userTruth) = true.
Proof.
  unfold wf_truth, wf_families, baseline. intros Ht Hd.
  apply andb_true_iff in Ht as [_ Ht].
  apply andb_true_iff in Ht as [_ Ht].
  apply andb_true_iff in Hd as [_ Hd].
  destruct (spacing (override userTruth)); assumption.
Qed.

(** C1. [resolveTruth] resolves colors and spacing each from its own
    buckets: the baseline of a family is its override bucket when that
    has a key and the built-in default set otherwise; a key of the extend
    bucket resolves to the extend value, whatever the baseline holds for
    it, and every other key resolves as in the baseline. *)
Theorem resolveTruth_merge_law (userTruth : ExtractedTruth) :
  wf_truth userTruth = true ->
  wf_families defaultTheme = true ->
  let resolved := resolveTruth defaultTheme userTruth in
  let base_colors :=
    match colors (override userTruth) with
    | [] => colors defaultTheme
    | _ :: _ => colors (override userTruth)
    end in
  let base_spacing :=
    match spacing (override userTruth) with
    | [] => spacing defaultTheme
    | _ :: _ => spacing (override userTruth)
    end in
  colors resolved = JsObject.spread2 base_colors (colors (extend userTruth)) /\
  spacing resolved = JsObject.spread2 base_spacing (spacing (extend userTruth)) /\
  (forall k,
      JsObject.get_own (colors resolved) k =
      match JsObject.get_own (colors (extend userTruth)) k with
      | Some v => Some v
      | None => JsObject.get_own base_colors k
      end) /\
  (forall k,
      JsObject.get_own (spacing resolved) k =
      match JsObject.get_own (spacing (extend userTruth)) k with
      | Some v => Some v
      | None => JsObject.get_own base_spacing k
      end) /\
  (forall k v w,
      JsObject.get_own base_colors k = Some w ->
      JsObject.get_own (colors (extend userTruth)) k = Some v ->
      JsObject.get_own (colors resolved) k = Some v) /\
  (forall k v w,
      JsObject.get_own base_spacing k = Some w ->
      JsObject.get_own (spacing (extend userTruth)) k = Some v ->
      JsObject.get_own (spacing resolved) k = Some v).
Proof.
  intros Ht Hd resolved base_colors base_spacing.
  assert (Hbc := wf_baseline_colors _ Ht Hd).
  assert (Hbs := wf_baseline_spacing _ Ht Hd).
  assert (Hec : JsObject.wf (colors (extend userTruth)) = true).
  { unfold wf_truth, wf_families in Ht.
    apply andb_true_iff in Ht as [Ht _]. apply andb_true_iff in Ht as [Ht _]. exact Ht. }
  assert (Hes : JsObject.wf (spacing (extend userTruth)) = true).
  { unfold wf_truth, wf_families in Ht.
    apply andb_true_iff in Ht as [Ht _]. apply andb_true_iff in Ht as [_ Ht]. exact Ht. }
  assert (Hc : forall k,
      JsObject.get_own (colors resolved) k =
      match JsObject.get_own (colors (extend userTruth)) k with
      | Some v => Some v
      | None => JsObject.get_own base_colors k
      end).
  { intros k. unfold resolved. rewrite resolveTruth_colors.
    apply get_own_spread2; assumption. }
  assert (Hs : forall k,
      JsObject.get_own (spacing resolved) k =
      match JsObject.get_own (spacing (extend userTruth)) k with
      | Some v => Some v
      | None => JsObject.get_own base_spacing k
      end).
  { intros k. unfold resolved. rewrite resolveTruth_spacing.
    apply get_own_spread2; assumption. }
  split; [apply resolveTruth_colors|]. split; [apply resolveTruth_spacing|].
  split; [exact Hc|]. split; [exact Hs|]. split.
  - intros k v w _ He. rewrite Hc, He. reflexivity.
  - intros k v w _ He. rewrite Hs, He. reflexivity.
Qed.

(** Each family is resolved from its own buckets alone. *)
Lemma resolveTruth_independent t t' :
  (colors (extend t) = colors (extend t') ->
   colors (override t) = colors (override t') ->
   colors (resolveTruth defaultTheme t) = colors (resolveTruth defaultTheme t')) /\
  (spacing (extend t) = spacing (extend t') ->
   spacing (override t) = spacing (override t') ->
   spacing (resolveTruth defaultTheme t) = spacing (resolveTruth defaultTheme t')).
Proof.
  split; intros He Ho; unfold resolveTruth; simpl; rewrite He, Ho; reflexivity.
Qed.

(** C9. With every override and extend bucket empty, [resolveTruth]
    returns the built-in default colors and spacing as they are. *)
Theorem resolveTruth_empty_gives_defaults :
  wf_families defaultTheme = true ->
  resolveTruth defaultTheme emptyTruth = defaultTheme.
Proof.
  intros Hd. unfold wf_families in Hd. apply andb_true_iff in Hd as [Hc Hs].
  unfold resolveTruth, emptyTruth. simpl.
  rewrite (spread2_empty_r _ Hc), (spread2_empty_r _ Hs).
  destruct defaultTheme; reflexivity.
Qed.

End ResolverFacts.

Lemma resolveTruth_merge_law_witness :
  wf_truth sampleTruth = true /\
  wf_families sampleDefaults = true /\
  JsObject.get_own (colors (resolveTruth sampleDefaults sampleTruth)) "black"
  = Some "#111".
Proof.
  split; [reflexivity|]. split; [reflexivity|].
  destruct (resolveTruth_merge_law sampleDefaults sampleTruth eq_refl eq_refl)
    as (_ & _ & _ & _ & H & _).
  apply (H "black" "#111" "#000"); reflexivity.
Defined.

Lemma resolveTruth_empty_gives_defaults_witness :
  wf_families sampleDefaults = true /\
  resolveTruth sampleDefaults emptyTruth = sampleDefaults.
Proof.
  split; [reflexivity|].
  apply (resolveTruth_empty_gives_defaults sampleDefaults). reflexivity.
Defined.

(** ** Flattening *)

Lemma parse_digits_dash p : forall k acc,
  JsObject.parse_digits (p ++ "-" ++ k) acc = None.
Proof.
  induction p as [|c p IH]; intros k acc; simpl.
  - reflexivity.
  - destruct (JsObject.digit_of c); [apply IH|reflexivity].
Qed.

(** A dash-joined key is never an array index. *)
Lemma array_index_dash p k : JsObject.array_index (p ++ "-" ++ k) = None.
Proof.
  destruct p as [|c p]; [reflexivity|].
  unfold JsObject.array_index.
  change (String c p ++ "-" ++ k) with (String c (p ++ "-" ++ k)).
  cbv iota beta.
  destruct (Ascii.eqb c "0").
  - destruct p; reflexivity.
  - change (String c (p ++ "-" ++ k)) with (String c p ++ "-" ++ k).
    rewrite parse_digits_dash. reflexivity.
Qed.

Lemma append_inj_l p : forall s t, p ++ s = p ++ t -> s = t.
Proof.
  induction p as [|c p IH]; simpl; intros s t H; [exact H|].
  injection H as H. apply IH, H.
Qed.

Lemma precedes_dash p k1 k2 :
  JsObject.precedes k1 k2 = true ->
  JsObject.precedes (p ++ "-" ++ k1) (p ++ "-" ++ k2) = true.
Proof.
  intros H. apply precedes_neq in H.
  unfold JsObject.precedes. rewrite array_index_dash, andb_true_r.
  apply negb_true_iff, String.eqb_neq. intros E.
  apply append_inj_l in E. simpl in E. injection E as E.
  apply String.eqb_neq in H. contradiction.
Qed.

Lemma ordered_dash p ks :
  JsObject.ordered ks = true ->
  JsObject.ordered (map (fun k => p ++ "-" ++ k) ks) = true.
Proof.
  induction ks as [|k ks IH]; simpl; [reflexivity|].
  intros H. apply andb_true_iff in H as [H1 H2].
  apply andb_true_iff. split; [|apply IH, H2].
  rewrite forallb_forall in *. intros k' Hin.
  apply in_map_iff in Hin as [k0 [<- Hin]].
  apply precedes_dash, H1, Hin.
Qed.

Lemma wf_dash (V : Type) p (group : JsObject.obj V) :
  JsObject.wf group = true ->
  JsObject.wf (map (fun kv => (p ++ "-" ++ fst kv, snd kv)) group) = true.
Proof.
  unfold JsObject.wf. intros H.
  replace (JsObject.keys (map (fun kv => (p ++ "-" ++ fst kv, snd kv)) group))
    with (map (fun k => p ++ "-" ++ k) (JsObject.keys group)).
  - apply ordered_dash, H.
  - unfold JsObject.keys. rewrite !map_map. reflexivity.
Qed.

Lemma length_append s t :
  String.length (s ++ t) = String.length s + String.length t.
Proof. induction s as [|c s IH]; simpl; [reflexivity|]. rewrite IH. reflexivity. Qed.

Lemma eqb_append_l p s t : String.eqb (p ++ s) (p ++ t) = String.eqb s t.
Proof.
  destruct (String.eqb s t) eqn:E.
  - apply String.eqb_eq in E. subst. apply String.eqb_refl.
  - apply String.eqb_neq. intros H. apply append_inj_l in H.
    apply String.eqb_neq in E. contradiction.
Qed.

Lemma get_own_dash (V : Type) p (group : JsObject.obj V) k :
  JsObject.get_own (map (fun kv => (p ++ "-" ++ fst kv, snd kv)) group) (p ++ "-" ++ k)
  = JsObject.get_own group k.
Proof.
  induction group as [|[k0 v0] group IH]; cbn [map fst snd JsObject.get_own].
  - reflexivity.
  - rewrite !eqb_append_l, IH. reflexivity.
Qed.

Lemma get_own_dash_parent (V : Type) p (group : JsObject.obj V) :
  JsObject.get_own (map (fun kv => (p ++ "-" ++ fst kv, snd kv)) group) p = None.
Proof.
  induction group as [|[k0 v0] group IH]; cbn [map fst snd JsObject.get_own].
  - reflexivity.
  - rewrite IH.
    destruct (String.eqb (p ++ "-" ++ k0) p) eqn:E; [|reflexivity].
    apply String.eqb_eq in E. exfalso.
    assert (L : String.length (p ++ "-" ++ k0) = String.length p)
      by (rewrite E; reflexivity).
    rewrite !length_append in L. simpl in L. lia.
Qed.

(** *** Assignments that may run the setter of [__proto__] *)

Lemma includes_dash p k : includes (p ++ "-" ++ k) "-" = true.
Proof.
  induction p as [|c p IH]; [reflexivity|].
  change (String c p ++ "-" ++ k) with (String c (p ++ "-" ++ k)).
  cbn [includes]. rewrite IH. apply orb_true_r.
Qed.

(** A dash-joined key is never [__proto__]. *)
Lemma dash_not_proto p k : String.eqb (p ++ "-" ++ k) "__proto__" = false.
Proof.
  destruct (String.eqb (p ++ "-" ++ k) "__proto__") eqn:E; [|reflexivity].
  apply String.eqb_eq in E. pose proof (includes_dash p k) as H.
  rewrite E in H. discriminate H.
Qed.

Lemma put_set result key value :
  String.eqb key "__proto__" = false -> put result key value = JsObject.set result key value.
Proof. unfold put. intros ->. reflexivity. Qed.

Lemma put_proto result value :
  JsObject.get_own result "__proto__" = None -> put result "__proto__" value = result.
Proof. unfold put, JsObject.has_own. intros ->. reflexivity. Qed.

Lemma get_own_put result key value k :
  JsObject.get_own result "__proto__" = None ->
  JsObject.get_own (put result key value) k =
  if String.eqb key "__proto__" then JsObject.get_own result k
  else if String.eqb key k then Some value else JsObject.get_own result k.
Proof.
  intros H. destruct (String.eqb key "__proto__") eqn:E.
  - apply String.eqb_eq in E. subst key. rewrite (put_proto _ _ H). reflexivity.
  - rewrite (put_set _ _ _ E). apply get_own_set.
Qed.

Lemma no_proto_put result key value :
  JsObject.get_own result "__proto__" = None ->
  JsObject.get_own (put result key value) "__proto__" = None.
Proof.
  intros H. rewrite (get_own_put _ _ _ _ H).
  destruct (String.eqb key "__proto__"); exact H.
Qed.

Lemma wf_put result key value :
  JsObject.wf result = true -> JsObject.wf (put result key value) = true.
Proof.
  intros H. unfold put.
  destruct (String.eqb key "__proto__" && negb (JsObject.has_own result key));
    [exact H|apply wf_set, H].
Qed.

Lemma fold_left_invariant (A B : Type) (P : A -> Prop) (f : A -> B -> A) (l : list B) :
  (forall a b, P a -> P (f a b)) -> forall a, P a -> P (fold_left f l a).
Proof.
  intros H. induction l as [|b l IH]; intros a Pa; [exact Pa|].
  cbn [fold_left]. apply IH, H, Pa.
Qed.

Lemma for_items_invariant (A : Type) (P : A -> Prop) (body : string -> jsval -> A -> A)
                          (items : list jsval) :
  (forall k v a, P a -> P (body k v a)) ->
  forall i a, P a -> P (for_items body i items a).
Proof.
  intros H. induction items as [|v items IH]; intros i a Pa; [exact Pa|].
  cbn [for_items]. apply IH, H, Pa.
Qed.

Lemma wf_put_all src result :
  JsObject.wf result = true -> JsObject.wf (put_all result src) = true.
Proof.
  unfold put_all.
  apply (fold_left_invariant _ _ (fun r => JsObject.wf r = true)).
  intros a b. apply wf_put.
Qed.

Lemma no_proto_put_all src result :
  JsObject.get_own result "__proto__" = None ->
  JsObject.get_own (put_all result src) "__proto__" = None.
Proof.
  unfold put_all.
  apply (fold_left_invariant _ _ (fun r => JsObject.get_own r "__proto__" = None)).
  intros a b. apply no_proto_put.
Qed.

(** Where no key is [__proto__], assigning is copying. *)
Lemma put_all_assign src : forall result,
  (forall kv, In kv src -> String.eqb (fst kv) "__proto__" = false) ->
  put_all result src = JsObject.assign result src.
Proof.
  unfold put_all, JsObject.assign.
  induction src as [|[k v] src IH]; intros result H; [reflexivity|].
  cbn [fold_left fst snd]. rewrite put_set by exact (H (k, v) (or_introl eq_refl)).
  apply IH. intros kv Hin. apply H. right. exact Hin.
Qed.

(** Whatever holds of the empty object and survives an assignment holds
    of every flattened object. *)
Section FlattenInvariant.
Variable P : JsObject.obj string -> Prop.
Hypothesis P_put : forall result key value, P result -> P (put result key value).
Hypothesis P_put_all : forall result src, P result -> P (put_all result src).

Lemma flattenObject_inherited_invariant proto : forall prefix visited result,
  P result -> P (flattenObject_inherited proto prefix visited result).
Proof.
  induction proto as [| |props proto IH|items]; intros prefix visited result Pr;
    cbn [flattenObject_inherited]; [exact Pr|exact Pr| |].
  - apply IH. revert Pr. apply fold_left_invariant.
    intros a [k v] Pa. cbn [fst snd].
    destruct (string_in k visited); [exact Pa|].
    destruct v; [apply P_put|apply P_put_all| |]; exact Pa.
  - revert Pr. apply for_items_invariant.
    intros k v a Pa. destruct (string_in k visited); [exact Pa|].
    destruct v; [apply P_put|apply P_put_all| |]; exact Pa.
Qed.

Lemma flattenObject_invariant obj prefix :
  P JsObject.empty -> P (flattenObject obj prefix).
Proof.
  intros P0. destruct obj as [s|props proto|items|]; cbn [flattenObject].
  - revert P0. apply fold_left_invariant. intros a b. apply P_put.
  - apply flattenObject_inherited_invariant. revert P0. apply fold_left_invariant.
    intros a [k v] Pa. cbn [fst snd].
    destruct v; [apply P_put|apply P_put_all| |]; exact Pa.
  - revert P0. apply for_items_invariant.
    intros k v a Pa. destruct v; [apply P_put|apply P_put_all| |]; exact Pa.
  - exact P0.
Qed.

End FlattenInvariant.

(** Whatever is flattened, the result is a plain object. *)
Lemma wf_flattenObject obj prefix : JsObject.wf (flattenObject obj prefix) = true.
Proof.
  apply (flattenObject_invariant (fun r => JsObject.wf r = true)).
  - intros result key value. apply wf_put.
  - intros result src. apply wf_put_all.
  - reflexivity.
Qed.

(** It has no own property [__proto__]. *)
Lemma no_proto_flattenObject obj prefix :
  JsObject.get_own (flattenObject obj prefix) "__proto__" = None.
Proof.
  apply (flattenObject_invariant (fun r => JsObject.get_own r "__proto__" = None)).
  - intros result key value. apply no_proto_put.
  - intros result src. apply no_proto_put_all.
  - reflexivity.
Qed.

(** The loop of [flattenObject] over the properties of an object literal. *)
Lemma flattenObject_JObj props prefix :
  flattenObject (JObj props ObjectPrototype) prefix =
  fold_left (fun result kv =>
               let newKey := if truthy prefix then prefix ++ "-" ++ fst kv else fst kv in
               match snd kv with
               | JObj _ _ => put_all result (flattenObject (snd kv) newKey)
               | JStr s => put result newKey s
               | JArr _ | JNull => result
               end) props JsObject.empty.
Proof. reflexivity. Qed.

(** Over string values the loop assigns each under its new key. *)
Lemma flattenObject_strings (prefix : string) (flat : JsObject.obj string) :
  flattenObject (as_object flat) prefix =
  put_all JsObject.empty
          (map (fun kv => (if truthy prefix then prefix ++ "-" ++ fst kv else fst kv,
                           snd kv)) flat).
Proof.
  unfold as_object. rewrite flattenObject_JObj. unfold put_all.
  generalize (@JsObject.empty string).
  induction flat as [|[k v] flat IH]; intros result; [reflexivity|].
  cbn [map fold_left fst snd]. apply IH.
Qed.

(** What [flattenObject] makes of a group of string values under the
    non-empty key [parent]. *)
Lemma flattenObject_flat_group (parent : string) (group : JsObject.obj string) :
  truthy parent = true ->
  JsObject.wf group = true ->
  flattenObject (as_object group) parent =
  map (fun kv => (parent ++ "-" ++ fst kv, snd kv)) group.
Proof.
  intros Hp Hg. rewrite flattenObject_strings, Hp.
  rewrite put_all_assign.
  - apply assign_empty, wf_dash, Hg.
  - intros kv Hin. apply in_map_iff in Hin as [[k v] [<- _]]. apply dash_not_proto.
Qed.

Lemma set_empty (V : Type) k (v : V) : JsObject.set JsObject.empty k v = [(k, v)].
Proof.
  unfold JsObject.set. simpl. destruct (JsObject.array_index k); reflexivity.
Qed.

(** A group nested under a key flattens, from the top, as the group does
    under that key. *)
Lemma flattenObject_nested_group (parent : string) (group : JsObject.obj string) :
  flattenObject (JObj [(parent, as_object group)] ObjectPrototype) EmptyString =
  put_all JsObject.empty (flattenObject (as_object group) parent).
Proof. reflexivity. Qed.

(** Flattening joins every child key of a nested group to the parent key
    with a dash, a child named DEFAULT like any other: the group under
    [parent] with a DEFAULT entry yields the flat key parent-[DEFAULT],
    and no flat key [parent]. *)
Lemma flattenObject_joins_every_child (parent : string) (group : JsObject.obj string) :
  truthy parent = true ->
  JsObject.wf group = true ->
  let nested := JObj [(parent, as_object group)] ObjectPrototype in
  flattenObject nested EmptyString =
    map (fun kv => (parent ++ "-" ++ fst kv, snd kv)) group /\
  (forall v, JsObject.get_own group "DEFAULT" = Some v ->
     JsObject.get_own (flattenObject nested EmptyString) (parent ++ "-DEFAULT") = Some v /\
     JsObject.get_own (flattenObject nested EmptyString) parent = None).
Proof.
  intros Hp Hg nested.
  assert (E : flattenObject nested EmptyString =
              map (fun kv => (parent ++ "-" ++ fst kv, snd kv)) group).
  { unfold nested. rewrite flattenObject_nested_group.
    rewrite (flattenObject_flat_group _ _ Hp Hg).
    rewrite put_all_assign.
    - apply assign_empty, wf_dash, Hg.
    - intros kv Hin. apply in_map_iff in Hin as [[k v] [<- _]]. apply dash_not_proto. }
  split; [exact E|].
  intros v Hv. rewrite E. split.
  - change (parent ++ "-DEFAULT") with (parent ++ "-" ++ "DEFAULT").
    rewrite get_own_dash. exact Hv.
  - apply get_own_dash_parent.
Qed.

(** C2 does not hold of the code. The configuration
    [export default { theme: { extend: { colors:
    { primary: { DEFAULT: '#000', light: '#fff' } } } } }] is extracted
    with the colors [primary-DEFAULT] and [primary-light]:
    [flattenObject] joins the child DEFAULT to its parent like any other
    child and gives no flat key [primary], where C2 asks for [primary]
    and no [primary-DEFAULT]. [flattenColors], which flattens
    the defaults these colors are merged with, gives [primary] and
    [primary-light] on the same mapping. Against the truth resolved from
    this configuration the class [bg-primary] is rejected and
    [bg-primary-DEFAULT] is accepted. *)
Theorem flattenObject_DEFAULT_not_collapsed :
  let nested :=
    JObj [("primary", JObj [("DEFAULT", JStr "#000"); ("light", JStr "#fff")]
                           ObjectPrototype)] ObjectPrototype in
  extractObjectFromNode defaultShadeColors = nested /\
  flattenObject nested EmptyString
    = [("primary-DEFAULT", "#000"); ("primary-light", "#fff")] /\
  JsObject.get_own (flattenObject nested EmptyString) "primary" = None /\
  JsObject.get_own (flattenObject nested EmptyString) "primary-DEFAULT" = Some "#000" /\
  extractTruth hostWithDefaultShade "/app"
    = Return {| extend := {| colors := [("primary-DEFAULT", "#000");
                                        ("primary-light", "#fff")];
                             spacing := [] |};
                override := {| colors := []; spacing := [] |} |} /\
  flattenColors nested EmptyString
    = Return [("primary", "#000"); ("primary-light", "#fff")] /\
  (let resolved :=
     resolveTruth sampleDefaults
       {| extend := {| colors := flattenObject nested EmptyString; spacing := [] |};
          override := {| colors := []; spacing := [] |} |} in
   accepted resolved "bg-primary" = false /\
   accepted resolved "bg-primary-DEFAULT" = true).
Proof. repeat split. Qed.

(** Every extracted truth is made of plain objects. *)
Lemma wf_extractTruth (Ast : Type) (host : Host Ast) projectRoot userTruth :
  extractTruth host projectRoot = Return userTruth -> wf_truth userTruth = true.
Proof.
  unfold extractTruth.
  destruct (findConfig host projectRoot); [|discriminate].
  destruct (readFileSync host s); [discriminate|].
  destruct (parse host s0); [discriminate|].
  destruct (traverse host a); [discriminate|].
  intros H.
  apply (f_equal (fun r => match r with
                           | Return t => wf_truth t
                           | Throw _ => true
                           end)) in H.
  rewrite <- H. unfold wf_truth, wf_families.
  cbn [extend override colors spacing].
  rewrite !wf_flattenObject. reflexivity.
Qed.

(** So is every resolved truth. *)
Lemma wf_resolveTruth defaultTheme userTruth :
  wf_families (resolveTruth defaultTheme userTruth) = true.
Proof.
  unfold wf_families, resolveTruth. simpl.
  destruct (0 <? _)%nat, (0 <? _)%nat; rewrite !wf_spread2; reflexivity.
Qed.

(** ** Extraction failures *)

(** C8, as the code has it. Extraction fails exactly when the
    configuration is unavailable or malformed, never both, and every
    failure is reported as the one error kind [ConfigParseError]: the
    kind does not tell the two conditions apart. *)
Theorem extractTruth_failure_kind (Ast : Type) (host : Host Ast) (projectRoot : string) :
  ((exists e, extractTruth host projectRoot = Throw e) <->
   (config_unavailable host projectRoot \/ config_malformed host projectRoot)) /\
  ~ (config_unavailable host projectRoot /\ config_malformed host projectRoot) /\
  (forall e, extractTruth host projectRoot = Throw e -> name e = "ConfigParseError").
Proof.
  unfold config_unavailable, config_malformed, extractTruth.
  destruct (findConfig host projectRoot) as [configPath|].
  2:{ repeat split.
      - intros _. left. left. reflexivity.
      - intros _. eexists. reflexivity.
      - intros [_ (p & c & H & _)]. discriminate.
      - intros e H. injection H as <-. reflexivity. }
  destruct (readFileSync host configPath) as [error|code] eqn:Er.
  { repeat split.
    - intros _. left. right. exists configPath, error. split; [reflexivity|exact Er].
    - intros _. eexists. reflexivity.
    - intros [_ (p & c & H & H' & _)]. injection H as <-. congruence.
    - intros e H. injection H as <-. reflexivity. }
  assert (Hun : ~ (Some configPath = None \/
                   exists p error, Some configPath = Some p /\ readFileSync host p = inl error)).
  { intros [H|(p & error & H & H')]; [discriminate|]. injection H as <-. congruence. }
  destruct (parse host code) as [error|ast] eqn:Ep.
  { repeat split.
    - intros _. right. exists configPath, code. repeat split; try assumption.
      left. exists error. exact Ep.
    - intros _. eexists. reflexivity.
    - intros [H _]. exact (Hun H).
    - intros e H. injection H as <-. reflexivity. }
  destruct (traverse host ast) as [error|paths] eqn:Et.
  { repeat split.
    - intros _. right. exists configPath, code. repeat split; try assumption.
      right. exists ast, error. split; assumption.
    - intros _. eexists. reflexivity.
    - intros [H _]. exact (Hun H).
    - intros e H. injection H as <-. reflexivity. }
  repeat split.
  - intros [e H]. discriminate.
  - intros [H|(p & c & H & Hr & Hc)]; [destruct (Hun H)|].
    injection H as <-. rewrite Er in Hr. injection Hr as <-.
    destruct Hc as [[error H]|(ast' & error & H & H')]; [congruence|].
    rewrite Ep in H. injection H as <-. congruence.
  - intros [H _]. exact (Hun H).
  - intros e H. discriminate.
Qed.

(** C8 as stated fails: a missing configuration and an unparsable one are
    reported with errors of the same kind. *)
Lemma extractTruth_same_kind_for_both_conditions :
  config_unavailable hostWithoutConfig "/app" /\
  config_malformed hostWithBrokenConfig "/app" /\
  extractTruth hostWithoutConfig "/app"
    = Throw (ConfigParseError "No tailwind config file found") /\
  extractTruth hostWithBrokenConfig "/app"
    = Throw (ConfigParseError
               "Failed to parse config file: SyntaxError: Unexpected token (1:18)") /\
  name (ConfigParseError "No tailwind config file found")
    = name (ConfigParseError
              "Failed to parse config file: SyntaxError: Unexpected token (1:18)").
Proof.
  split; [left; reflexivity|].
  split; [|repeat split].
  exists "/app/tailwind.config.js", "module.exports = {".
  repeat split. left. eexists. reflexivity.
Qed.

(** ** Longest-prefix matching *)

Section LongestMatch.
Variable className : string.

Lemma match_step_matches category st prefix :
  match_step className category st prefix =
  if prefix_matches className prefix && (snd st <? String.length prefix)%nat
  then (Some (category, prefix), String.length prefix)
  else st.
Proof.
  unfold match_step, prefix_matches. destruct st as [best len]. simpl.
  destruct (endsWith prefix "-"); reflexivity.
Qed.

Lemma match_step_no_match category st prefix :
  prefix_matches className prefix = false ->
  match_step className category st prefix = st.
Proof. intros H. rewrite match_step_matches, H. reflexivity. Qed.

(** The nested loops run over the pairs of the table in order. *)
Lemma fold_prefix_entries table : forall st,
  fold_left (fun st entry =>
               fold_left (match_step className (fst entry)) (snd entry) st)
            table st =
  fold_left (fun st cp => match_step className (fst cp) st (snd cp))
            (prefix_entries table) st.
Proof.
  induction table as [|[c ps] table IH]; intros st; simpl; [reflexivity|].
  rewrite fold_left_app, IH. f_equal.
  clear IH. revert st. induction ps as [|p ps IHp]; intros st; simpl; [reflexivity|].
  apply IHp.
Qed.

Lemma nth_error_snoc (A : Type) (l : list A) (x : A) j e :
  nth_error (l ++ [x])%list j = Some e ->
  (j < List.length l /\ nth_error l j = Some e) \/ (j = List.length l /\ e = x).
Proof.
  intros H. destruct (Nat.lt_ge_cases j (List.length l)) as [Hlt|Hge].
  - left. rewrite nth_error_app1 in H by exact Hlt. split; assumption.
  - right. rewrite nth_error_app2 in H by exact Hge.
    destruct (j - List.length l) as [|n] eqn:E; simpl in H.
    + injection H as <-. split; [lia|reflexivity].
    + destruct n; discriminate.
Qed.

Lemma best_so_far_step seen st c p :
  best_so_far className seen st ->
  best_so_far className (seen ++ [(c, p)])%list (match_step className c st p).
Proof.
  intros Inv. rewrite match_step_matches.
  destruct st as [[[c0 p0]|] len]; unfold best_so_far in *; simpl in *.
  - destruct Inv as (-> & Hpos & i & Hi & Hm & Hmax).
    assert (Hilt : i < List.length seen) by (apply nth_error_Some; congruence).
    destruct (prefix_matches className p) eqn:Mp; simpl.
    + destruct (Nat.ltb_spec (String.length p0) (String.length p)); simpl.
      * split; [reflexivity|]. split; [lia|].
        exists (List.length seen). split.
        { rewrite nth_error_app2 by lia. rewrite Nat.sub_diag. reflexivity. }
        split; [exact Mp|].
        intros j e Hj Me. apply nth_error_snoc in Hj as [[Hlt Hj]|[-> ->]].
        { destruct (Hmax j e Hj Me). lia. }
        { simpl. lia. }
      * split; [reflexivity|]. split; [exact Hpos|].
        exists i. split; [rewrite nth_error_app1 by exact Hilt; exact Hi|].
        split; [exact Hm|].
        intros j e Hj Me. apply nth_error_snoc in Hj as [[Hlt Hj]|[-> ->]].
        { exact (Hmax j e Hj Me). }
        { simpl. lia. }
    + split; [reflexivity|]. split; [exact Hpos|].
      exists i. split; [rewrite nth_error_app1 by exact Hilt; exact Hi|].
      split; [exact Hm|].
      intros j e Hj Me. apply nth_error_snoc in Hj as [[Hlt Hj]|[-> ->]].
      { exact (Hmax j e Hj Me). }
      { simpl in Me. congruence. }
  - destruct Inv as (-> & Hnone).
    destruct (prefix_matches className p) eqn:Mp; simpl.
    + destruct (Nat.ltb_spec 0 (String.length p)); simpl.
      * split; [reflexivity|]. split; [assumption|].
        exists (List.length seen). split.
        { rewrite nth_error_app2 by lia. rewrite Nat.sub_diag. reflexivity. }
        split; [exact Mp|].
        intros j e Hj Me. apply nth_error_snoc in Hj as [[Hlt Hj]|[-> ->]].
        { specialize (Hnone j e Hj Me). lia. }
        { simpl. lia. }
      * split; [reflexivity|].
        intros j e Hj Me. apply nth_error_snoc in Hj as [[Hlt Hj]|[-> ->]].
        { exact (Hnone j e Hj Me). }
        { simpl. lia. }
    + split; [reflexivity|].
      intros j e Hj Me. apply nth_error_snoc in Hj as [[Hlt Hj]|[-> ->]].
      { exact (Hnone j e Hj Me). }
      { simpl in Me. congruence. }
Qed.

Lemma best_so_far_fold pending : forall seen st,
  best_so_far className seen st ->
  best_so_far className (seen ++ pending)%list
    (fold_left (fun st cp => match_step className (fst cp) st (snd cp)) pending st).
Proof.
  induction pending as [|[c p] pending IH]; intros seen st Inv; simpl.
  - rewrite app_nil_r. exact Inv.
  - replace (seen ++ (c, p) :: pending)%list with ((seen ++ [(c, p)]) ++ pending)%list
      by (rewrite <- app_assoc; reflexivity).
    apply IH, best_so_far_step, Inv.
Qed.

Lemma findLongestMatch_in_best table :
  best_so_far className (prefix_entries table)
    (fold_left (fun st entry =>
                  fold_left (match_step className (fst entry)) (snd entry) st)
               table (None, 0)).
Proof.
  rewrite fold_prefix_entries.
  apply (best_so_far_fold (prefix_entries table) [] (None, 0)).
  split; [reflexivity|]. intros [|j] e H; discriminate.
Qed.

End LongestMatch.

Lemma SCOPED_PREFIXES_nonempty c p :
  In (c, p) (prefix_entries SCOPED_PREFIXES) -> 0 < String.length p.
Proof.
  intros H.
  assert (F : forallb (fun e => (0 <? String.length (snd e))%nat)
                      (prefix_entries SCOPED_PREFIXES) = true) by reflexivity.
  rewrite forallb_forall in F. apply Nat.ltb_lt. exact (F _ H).
Qed.

(** C6. Among the pairs of the prefix table that match a class (by
    equality for a prefix without trailing separator, by [startsWith]
    for a separator-terminated one), [findLongestMatch] returns the one
    with the longest prefix, and of several longest the first
    registered; it returns nothing only when no pair matches. For
    [border-blue-500] that is the colors prefix [border-], with
    remainder [blue-500]. *)
Theorem findLongestMatch_longest_then_first :
  (forall className,
     match findLongestMatch className with
     | None =>
         forall c p, In (c, p) (prefix_entries SCOPED_PREFIXES) ->
                     prefix_matches className p = false
     | Some (c, p) =>
         exists i,
           nth_error (prefix_entries SCOPED_PREFIXES) i = Some (c, p) /\
           prefix_matches className p = true /\
           forall j c' p',
             nth_error (prefix_entries SCOPED_PREFIXES) j = Some (c', p') ->
             prefix_matches className p' = true ->
             String.length p' <= String.length p /\
             (String.length p' = String.length p -> i <= j)
     end) /\
  findLongestMatch "border-blue-500" = Some (Colors, "border-") /\
  extractToken "border-blue-500" "border-" = "blue-500".
Proof.
  split; [|split; reflexivity].
  intros className.
  pose proof (findLongestMatch_in_best className SCOPED_PREFIXES) as Inv.
  unfold findLongestMatch, findLongestMatch_in.
  destruct (fold_left _ SCOPED_PREFIXES (None, 0)) as [[[c p]|] len];
    unfold best_so_far in Inv; cbn [fst snd] in Inv |- *.
  - destruct Inv as (_ & _ & i & Hi & Hm & Hmax).
    exists i. split; [exact Hi|]. split; [exact Hm|].
    intros j c' p' Hj Hm'. exact (Hmax j (c', p') Hj Hm').
  - destruct Inv as (_ & Hnone). intros c p Hin.
    destruct (prefix_matches className p) eqn:Mp; [|reflexivity].
    apply In_nth_error in Hin as [j Hj].
    pose proof (Hnone j (c, p) Hj Mp) as Hz. simpl in Hz.
    pose proof (SCOPED_PREFIXES_nonempty c p (nth_error_In _ _ Hj)). lia.
Qed.

(** ** Validation *)

Section Validation.
Variable resolvedTruth : ResolvedTruth.

(** The loop body either pushes the class or pushes one message, and
    which of the two does not depend on the state it runs in. *)
Lemma validate_class_verdict st className :
  validate_class resolvedTruth st className =
  match verdict resolvedTruth className with
  | None => accept st className
  | Some msg => reject st msg
  end.
Proof.
  unfold verdict, validate_class, strict_check.
  destruct (includes className "[" && includes className "]"); [reflexivity|].
  destruct (findLongestMatch className) as [[category prefix]|]; [|reflexivity].
  destruct category;
    repeat match goal with
           | |- context [if ?b then _ else _] => destruct b
           end; reflexivity.
Qed.

Lemma validate_classes_fold classes : forall st,
  fold_left (validate_class resolvedTruth) classes st =
  {| validClasses :=
       (validClasses st ++ filter (accepted resolvedTruth) classes)%list;
     errorList := (errorList st ++ rejections resolvedTruth classes)%list;
     stillValid := stillValid st && forallb (accepted resolvedTruth) classes |}.
Proof.
  induction classes as [|c classes IH]; intros st.
  - simpl. rewrite !app_nil_r, andb_true_r. destruct st; reflexivity.
  - cbn [fold_left]. rewrite IH, validate_class_verdict.
    assert (Hr : rejections resolvedTruth (c :: classes) =
                 match verdict resolvedTruth c with
                 | Some msg => msg :: rejections resolvedTruth classes
                 | None => rejections resolvedTruth classes
                 end).
    { unfold rejections. simpl. destruct (verdict resolvedTruth c); reflexivity. }
    assert (A : accepted resolvedTruth c =
                match verdict resolvedTruth c with
                | None => true
                | Some _ => false
                end) by reflexivity.
    rewrite Hr. cbn [filter forallb]. rewrite A.
    destruct (verdict resolvedTruth c) as [msg|]; unfold accept, reject; simpl;
      rewrite <- app_assoc; [rewrite andb_false_r|]; reflexivity.
Qed.

Lemma validateCode_accumulates code :
  validateCode code resolvedTruth =
  {| isValid := forallb (accepted resolvedTruth) (extractClasses code);
     code := join " " (filter (accepted resolvedTruth) (extractClasses code));
     errors := rejections resolvedTruth (extractClasses code) |}.
Proof.
  unfold validateCode, validate_classes. rewrite validate_classes_fold. reflexivity.
Qed.

Lemma rejections_length classes :
  List.length (rejections resolvedTruth classes) =
  List.length (filter (fun c => negb (accepted resolvedTruth c)) classes).
Proof.
  induction classes as [|c classes IH]; simpl; [reflexivity|].
  unfold accepted at 1. destruct (verdict resolvedTruth c); simpl; rewrite IH; reflexivity.
Qed.

(** A class matched in a strictly validated category with an empty
    remainder, or with a remainder the family reads as truthy, is pushed. *)
Lemma strict_check_accepts st className prefix token family :
  truthy token = false \/ truthy_get family token = true ->
  strict_check st className prefix token family = accept st className.
Proof.
  unfold strict_check. intros [H|H]; rewrite H; simpl; [reflexivity|].
  rewrite andb_false_r. reflexivity.
Qed.

Lemma strict_check_rejects st className prefix token family :
  truthy token = true -> truthy_get family token = false ->
  strict_check st className prefix token family =
  reject st (suggestion_message className prefix token (JsObject.keys family)).
Proof. unfold strict_check. intros -> ->. reflexivity. Qed.

End Validation.

Lemma accepted_of_accept truth className :
  (forall st, validate_class truth st className = accept st className) ->
  accepted truth className = true.
Proof. intros H. unfold accepted, verdict. rewrite H. reflexivity. Qed.

Lemma rejected_of_reject truth className msg :
  (forall st, validate_class truth st className = reject st msg) ->
  verdict truth className = Some msg.
Proof. intros H. unfold verdict. rewrite H. reflexivity. Qed.

(** C3, as the code has it. [validateCode] runs the loop over every
    extracted class: the result is valid iff no class was rejected, it has
    one error per rejected class, and its code is the accepted and
    passed-through classes joined by spaces in their original order. The
    classes are those of the [class] and [className] attributes of the
    markup: validating [<div class='bg-red text-giant p-4'></div>], or
    the same with [className], against a truth with color [red], spacing
    [4] and no color [giant] gives an invalid result with one error and
    the code [bg-red p-4]. *)
Theorem validateCode_accumulation :
  (forall markup truth,
     let classes := extractClasses markup in
     let result := validateCode markup truth in
     (isValid result = true <-> forall c, In c classes -> accepted truth c = true) /\
     (isValid result = true <-> errors result = []) /\
     errors result = rejections truth classes /\
     List.length (errors result) =
       List.length (filter (fun c => negb (accepted truth c)) classes) /\
     code result = join " " (filter (accepted truth) classes)) /\
  (forall markup truth,
     In markup ["<div class='bg-red text-giant p-4'></div>";
                "<div className='bg-red text-giant p-4'></div>"] ->
     truthy_get (colors truth) "red" = true ->
     truthy_get (spacing truth) "4" = true ->
     truthy_get (colors truth) "giant" = false ->
     let result := validateCode markup truth in
     string_in "giant" TEXT_SIZES = false /\
     isValid result = false /\
     List.length (errors result) = 1 /\
     code result = "bg-red p-4").
Proof.
  split.
  - intros code0 truth classes result. unfold result, classes.
    rewrite validateCode_accumulates. simpl.
    split; [apply forallb_forall|]. split; [|split; [reflexivity|split]].
    + induction (extractClasses code0) as [|c l IH]; simpl; [tauto|].
      unfold accepted at 1. destruct (verdict truth c); simpl.
      * split; discriminate.
      * exact IH.
    + apply rejections_length.
    + reflexivity.
  - intros code0 truth Hin Hred H4 Hgiant result. unfold result.
    split; [reflexivity|].
    assert (Hx : extractClasses code0 = ["bg-red"; "text-giant"; "p-4"])
      by (destruct Hin as [<-|[<-|[]]]; reflexivity).
    rewrite validateCode_accumulates, Hx.
    assert (A1 : accepted truth "bg-red" = true).
    { apply accepted_of_accept. intros st. unfold validate_class.
      change (findLongestMatch "bg-red") with (Some (Colors, "bg-")).
      apply strict_check_accepts. right. exact Hred. }
    assert (A2 : accepted truth "text-giant" = false).
    { unfold accepted. erewrite rejected_of_reject; [reflexivity|].
      intros st. unfold validate_class.
      change (findLongestMatch "text-giant") with (Some (Colors, "text-")).
      apply strict_check_rejects; [reflexivity|exact Hgiant]. }
    assert (A3 : accepted truth "p-4" = true).
    { apply accepted_of_accept. intros st. unfold validate_class.
      change (findLongestMatch "p-4") with (Some (Spacing, "p-")).
      apply strict_check_accepts. right. exact H4. }
    cbn [isValid errors code forallb filter].
    rewrite rejections_length. cbn [filter]. rewrite A1, A2, A3.
    repeat split.
Qed.

Lemma validateCode_accumulation_witness :
  truthy_get (colors sampleResolved) "red" = true /\
  truthy_get (spacing sampleResolved) "4" = true /\
  truthy_get (colors sampleResolved) "giant" = false /\
  let result := validateCode "<div class='bg-red text-giant p-4'></div>" sampleResolved in
  string_in "giant" TEXT_SIZES = false /\
  isValid result = false /\ List.length (errors result) = 1 /\
  code result = "bg-red p-4".
Proof.
  repeat (split; [reflexivity|]).
  apply (proj2 validateCode_accumulation
           "<div class='bg-red text-giant p-4'></div>" sampleResolved);
    [left; reflexivity|reflexivity..].
Defined.

(** C3 as stated fails: the text [bg-red text-giant p-4] has no [class]
    attribute, so no class is extracted from it, and its validation is
    valid, with no error and an empty code, against every truth. *)
Lemma validateCode_bare_class_list :
  truthy_get (colors sampleResolved) "red" = true /\
  truthy_get (spacing sampleResolved) "4" = true /\
  truthy_get (colors sampleResolved) "giant" = false /\
  string_in "giant" TEXT_SIZES = false /\
  extractClasses "bg-red text-giant p-4" = [] /\
  forall truth,
    validateCode "bg-red text-giant p-4" truth
    = {| isValid := true; code := EmptyString; errors := [] |}.
Proof. repeat (split; [reflexivity|]). intros truth. reflexivity. Qed.

(** ** Classes and the reconstructed string *)

Lemma append_empty_r s : s ++ EmptyString = s.
Proof. induction s as [|c s IH]; simpl; [reflexivity|]. rewrite IH. reflexivity. Qed.

Lemma append_assoc s t u : (s ++ t) ++ u = s ++ (t ++ u).
Proof. induction s as [|c s IH]; simpl; [reflexivity|]. rewrite IH. reflexivity. Qed.

Lemma no_space_append s t :
  no_space (s ++ t) = no_space s && no_space t.
Proof.
  induction s as [|c s IH]; simpl; [reflexivity|].
  rewrite IH, andb_assoc. reflexivity.
Qed.

(** The pieces of a split hold no white space. *)
Lemma split_loop_no_space s : forall piece in_run c,
  no_space piece = true ->
  In c (split_loop s piece in_run) -> no_space c = true.
Proof.
  induction s as [|ch s IH]; simpl; intros piece in_run c Hp Hin.
  - destruct Hin as [<-|[]]. exact Hp.
  - destruct (is_space ch) eqn:E.
    + destruct in_run.
      * exact (IH _ _ _ Hp Hin).
      * destruct Hin as [<-|Hin]; [exact Hp|].
        exact (IH EmptyString true c eq_refl Hin).
    + apply (IH _ _ _) in Hin; [exact Hin|].
      rewrite no_space_append, Hp. simpl. rewrite E. reflexivity.
Qed.

(** Every extracted class is non-empty and free of white space. *)
Lemma extractClasses_tokens markup c :
  In c (extractClasses markup) -> truthy c = true /\ no_space c = true.
Proof.
  unfold extractClasses. intros H.
  apply in_flat_map in H as [classString [_ H]].
  apply filter_In in H as [H Ht]. split; [exact Ht|].
  exact (split_loop_no_space classString EmptyString false c eq_refl H).
Qed.

Lemma split_loop_token t : forall s piece in_run,
  no_space t = true ->
  split_loop (t ++ s) piece in_run =
  split_loop s (piece ++ t) (match t with EmptyString => in_run | _ => false end).
Proof.
  induction t as [|c t IH]; intros s piece in_run H.
  - simpl. rewrite append_empty_r. reflexivity.
  - simpl in H. apply andb_true_iff in H as [Hc Ht].
    apply negb_true_iff in Hc.
    change (String c t ++ s) with (String c (t ++ s)).
    cbn [split_loop]. rewrite Hc, (IH _ _ _ Ht).
    rewrite append_assoc. simpl. destruct t; reflexivity.
Qed.

(** Splitting the space-joined classes gives the classes back. *)
Lemma split_join tokens : forall in_run,
  tokens <> [] ->
  (forall t, In t tokens -> truthy t = true /\ no_space t = true) ->
  split_loop (join " " tokens) EmptyString in_run = tokens.
Proof.
  induction tokens as [|t tokens IH]; intros in_run Hne Htok; [congruence|].
  destruct (Htok t (or_introl eq_refl)) as [Ht Hs].
  destruct tokens as [|t2 tokens].
  - simpl. rewrite <- (append_empty_r t) at 1.
    rewrite (split_loop_token _ _ _ _ Hs). reflexivity.
  - change (join " " (t :: t2 :: tokens)) with (t ++ " " ++ join " " (t2 :: tokens)).
    rewrite (split_loop_token _ _ _ _ Hs).
    destruct t as [|c t]; [discriminate|].
    change (" " ++ join " " (t2 :: tokens)) with (String " " (join " " (t2 :: tokens))).
    cbn [split_loop]. change (is_space " ") with true. cbv iota.
    cbn [append]. f_equal.
    apply IH; [discriminate|]. intros t' H'. apply Htok. right. exact H'.
Qed.

(** A class is a piece of the reconstructed string exactly when it was
    extracted and accepted. *)
Lemma code_pieces markup truth c :
  truthy c = true ->
  (In c (split_spaces (code (validateCode markup truth))) <->
   In c (extractClasses markup) /\ accepted truth c = true).
Proof.
  intros Hc. rewrite validateCode_accumulates. cbn [code].
  rewrite <- filter_In. unfold split_spaces.
  destruct (filter (accepted truth) (extractClasses markup)) as [|t l] eqn:E.
  - simpl. split; [|tauto]. intros [<-|[]]. discriminate.
  - rewrite split_join; [tauto|discriminate|].
    intros t' H'. apply (extractClasses_tokens markup).
    rewrite <- E in H'. apply filter_In in H'. tauto.
Qed.

(** C4. A class that contains both [[] and []] is rejected by the first
    test of the loop body, whatever the resolved truth holds and whatever
    prefix it would match: it is never accepted, it makes the result
    invalid with its own message, and it is no piece of the
    reconstructed string. *)
Theorem arbitrary_value_veto (markup : string) (truth : ResolvedTruth) (className : string) :
  In className (extractClasses markup) ->
  includes className "[" = true ->
  includes className "]" = true ->
  (forall st, validate_class truth st className
              = reject st (arbitrary_message className)) /\
  accepted truth className = false /\
  isValid (validateCode markup truth) = false /\
  In (arbitrary_message className) (errors (validateCode markup truth)) /\
  ~ In className (split_spaces (code (validateCode markup truth))).
Proof.
  intros Hin Hl Hr.
  assert (Hstep : forall st, validate_class truth st className
                             = reject st (arbitrary_message className)).
  { intros st. unfold validate_class. rewrite Hl, Hr. reflexivity. }
  assert (Hv : verdict truth className = Some (arbitrary_message className))
    by (apply rejected_of_reject, Hstep).
  assert (Ha : accepted truth className = false)
    by (unfold accepted; rewrite Hv; reflexivity).
  split; [exact Hstep|]. split; [exact Ha|].
  rewrite validateCode_accumulates at 1 2. cbn [isValid errors].
  split; [|split].
  - apply not_true_is_false. intros F. rewrite forallb_forall in F.
    rewrite (F _ Hin) in Ha. discriminate.
  - unfold rejections. apply in_flat_map. exists className.
    split; [exact Hin|]. rewrite Hv. left. reflexivity.
  - intros H. apply code_pieces in H.
    + destruct H as [_ H]. congruence.
    + exact (proj1 (extractClasses_tokens _ _ Hin)).
Qed.

Lemma arbitrary_value_veto_witness :
  In "w-[50px]" (extractClasses "<div className='p-4 w-[50px]'>") /\
  includes "w-[50px]" "[" = true /\
  includes "w-[50px]" "]" = true /\
  accepted sampleResolved "w-[50px]" = false /\
  ~ In "w-[50px]"
       (split_spaces (code (validateCode "<div className='p-4 w-[50px]'>" sampleResolved))).
Proof.
  assert (Hin : In "w-[50px]" (extractClasses "<div className='p-4 w-[50px]'>"))
    by (right; left; reflexivity).
  split; [exact Hin|]. split; [reflexivity|]. split; [reflexivity|].
  destruct (arbitrary_value_veto "<div className='p-4 w-[50px]'>" sampleResolved
              "w-[50px]" Hin eq_refl eq_refl) as (_ & Ha & _ & _ & Hc).
  split; [exact Ha|exact Hc].
Defined.

(** ** Overloaded prefixes *)

(** C5 does not hold of the code. For a class matched with [text-] or
    [border-] the validator does look the remainder up in
    the fixed text sizes or border widths first, and in the resolved
    colors only otherwise; but the second check is none against the color
    keys. The validator tests whether reading the remainder in the
    resolved colors gives a truthy value, and for a name the colors do
    not own the read goes on to [Object.prototype]. With the colors [red]
    and [blue-500], [text-constructor] and [border-constructor] are
    accepted although [constructor] is no text size, no border width and
    no color key, where [text-giant] and [border-giant] are rejected; and
    a remainder that is a color key of empty value is rejected, unless it
    is in the fixed set, which is looked at first. *)
Theorem overloaded_prefix_accepts_inherited_names :
  JsObject.keys (colors sampleResolved) = ["red"; "blue-500"] /\
  string_in "constructor" TEXT_SIZES = false /\
  string_in "constructor" BORDER_WIDTHS = false /\
  findLongestMatch "text-constructor" = Some (Colors, "text-") /\
  findLongestMatch "border-constructor" = Some (Colors, "border-") /\
  accepted sampleResolved "text-constructor" = true /\
  accepted sampleResolved "border-constructor" = true /\
  validateCode "<p class='text-constructor border-constructor'></p>" sampleResolved
  = {| isValid := true; code := "text-constructor border-constructor"; errors := [] |} /\
  accepted sampleResolved "text-giant" = false /\
  accepted sampleResolved "border-giant" = false /\
  accepted sampleResolved "text-red" = true /\
  accepted sampleResolved "border-red" = true /\
  accepted sampleResolved "text-xl" = true /\
  accepted sampleResolved "border-4" = true /\
  JsObject.get_own (colors ghostResolved) "ghost" = Some EmptyString /\
  accepted ghostResolved "text-ghost" = false /\
  accepted ghostResolved "border-ghost" = false /\
  (let emptyValued :=
     {| colors := [("xl", EmptyString); ("4", EmptyString)]; spacing := [] |} in
   accepted emptyValued "text-xl" = true /\
   accepted emptyValued "border-4" = true /\
   accepted emptyValued "bg-xl" = false /\
   accepted emptyValued "text-4" = false /\
   accepted emptyValued "border-xl" = false).
Proof. repeat split. Qed.

(** A prefix that matches a class beginning with [q] is comparable with
    [q]: one of the two begins with the other. *)
Lemma prefix_append_cases p : forall q rest,
  String.prefix p (q ++ rest) = true ->
  String.prefix p q = true \/ String.prefix q p = true.
Proof.
  induction p as [|c p IH]; intros q rest H.
  - left. destruct q; reflexivity.
  - destruct q as [|d q]; [right; reflexivity|].
    change (String d q ++ rest) with (String d (q ++ rest)) in H.
    cbn [String.prefix] in H |- *.
    destruct (ascii_dec c d) as [->|Hne]; [|discriminate].
    destruct (ascii_dec d d) as [_|F]; [|congruence].
    exact (IH q rest H).
Qed.

Lemma eqb_append_prefix q : forall rest p,
  String.eqb (q ++ rest) p = true -> String.prefix q p = true.
Proof.
  induction q as [|d q IH]; intros rest p H.
  - destruct p; reflexivity.
  - destruct p as [|c p]; [discriminate|].
    change (String d q ++ rest) with (String d (q ++ rest)) in H.
    cbn [String.eqb String.prefix] in H |- *.
    destruct (Ascii.eqb_spec d c) as [->|Hne]; [|discriminate].
    destruct (ascii_dec c c) as [_|F]; [|congruence].
    exact (IH rest p H).
Qed.

Lemma prefix_matches_comparable q rest p :
  prefix_matches (q ++ rest) p = true -> comparable q p = true.
Proof.
  unfold prefix_matches, comparable, startsWith. intros H. apply orb_true_iff.
  destruct (endsWith p "-").
  - exact (prefix_append_cases p q rest H).
  - right. exact (eqb_append_prefix q rest p H).
Qed.

(** Only the pairs comparable with [q] take part in matching a class
    that begins with [q]. *)
Lemma fold_comparable q rest entries : forall st,
  fold_left (fun st cp => match_step (q ++ rest) (fst cp) st (snd cp)) entries st =
  fold_left (fun st cp => match_step (q ++ rest) (fst cp) st (snd cp))
            (filter (fun cp => comparable q (snd cp)) entries) st.
Proof.
  induction entries as [|[c p] entries IH]; intros st; [reflexivity|].
  cbn [fold_left filter snd fst].
  destruct (comparable q p) eqn:E.
  - cbn [fold_left fst snd]. apply IH.
  - rewrite match_step_matches.
    destruct (prefix_matches (q ++ rest) p) eqn:M.
    + apply prefix_matches_comparable in M. congruence.
    + simpl. apply IH.
Qed.

(** Which classes the [text-] prefix of the colors category takes: all
    that start with it, but the three alignment classes. *)
Lemma findLongestMatch_text rest :
  string_in rest ["center"; "left"; "right"] = false ->
  findLongestMatch ("text-" ++ rest) = Some (Colors, "text-").
Proof.
  intros H. unfold string_in in H. cbn [existsb] in H.
  apply orb_false_iff in H as [Hc H]. apply orb_false_iff in H as [Hl H].
  apply orb_false_iff in H as [Hr _].
  unfold findLongestMatch, findLongestMatch_in.
  rewrite fold_prefix_entries, fold_comparable.
  change (filter (fun cp => comparable "text-" (snd cp)) (prefix_entries SCOPED_PREFIXES))
    with [(Colors, "text-"); (Typography, "text-"); (Typography, "text-center");
          (Typography, "text-left"); (Typography, "text-right")].
  cbn [fold_left fst snd]. rewrite !match_step_matches. unfold prefix_matches.
  change (endsWith "text-" "-") with true.
  change (endsWith "text-center" "-") with false.
  change (endsWith "text-left" "-") with false.
  change (endsWith "text-right" "-") with false.
  assert (S1 : startsWith ("text-" ++ rest) "text-" = true)
    by (destruct rest; reflexivity).
  assert (E1 : String.eqb ("text-" ++ rest) "text-center" = false).
  { change (String.eqb ("text-" ++ rest) "text-center") with (String.eqb rest "center"). exact Hc. }
  assert (E2 : String.eqb ("text-" ++ rest) "text-left" = false).
  { change (String.eqb ("text-" ++ rest) "text-left") with (String.eqb rest "left"). exact Hl. }
  assert (E3 : String.eqb ("text-" ++ rest) "text-right" = false).
  { change (String.eqb ("text-" ++ rest) "text-right") with (String.eqb rest "right"). exact Hr. }
  rewrite S1. cbn [fst snd andb String.length Nat.ltb Nat.leb].
  rewrite E1, E2, E3. reflexivity.
Qed.

(** Which classes the [border-] prefix of the colors category takes: all
    that start with it, but those of a directional border. *)
Lemma findLongestMatch_border rest :
  existsb (startsWith rest) ["t-"; "b-"; "l-"; "r-"; "x-"; "y-"] = false ->
  string_in rest ["t"; "b"; "l"; "r"] = false ->
  findLongestMatch ("border-" ++ rest) = Some (Colors, "border-").
Proof.
  intros Hs He. unfold string_in in He. cbn [existsb] in Hs, He.
  repeat (apply orb_false_iff in Hs as [? Hs]).
  repeat (apply orb_false_iff in He as [? He]).
  assert (M0 : prefix_matches ("border-" ++ rest) "border-" = true)
    by (destruct rest; reflexivity).
  assert (St : prefix_matches ("border-" ++ rest) "border-t-" = false)
    by (change (startsWith rest "t-" = false); assumption).
  assert (Sb : prefix_matches ("border-" ++ rest) "border-b-" = false)
    by (change (startsWith rest "b-" = false); assumption).
  assert (Sl : prefix_matches ("border-" ++ rest) "border-l-" = false)
    by (change (startsWith rest "l-" = false); assumption).
  assert (Sr : prefix_matches ("border-" ++ rest) "border-r-" = false)
    by (change (startsWith rest "r-" = false); assumption).
  assert (Sx : prefix_matches ("border-" ++ rest) "border-x-" = false)
    by (change (startsWith rest "x-" = false); assumption).
  assert (Sy : prefix_matches ("border-" ++ rest) "border-y-" = false)
    by (change (startsWith rest "y-" = false); assumption).
  assert (Et : prefix_matches ("border-" ++ rest) "border-t" = false)
    by (change (String.eqb rest "t" = false); assumption).
  assert (Eb : prefix_matches ("border-" ++ rest) "border-b" = false)
    by (change (String.eqb rest "b" = false); assumption).
  assert (El : prefix_matches ("border-" ++ rest) "border-l" = false)
    by (change (String.eqb rest "l" = false); assumption).
  assert (Er : prefix_matches ("border-" ++ rest) "border-r" = false)
    by (change (String.eqb rest "r" = false); assumption).
  unfold findLongestMatch, findLongestMatch_in.
  rewrite fold_prefix_entries, fold_comparable.
  change (filter (fun cp => comparable "border-" (snd cp)) (prefix_entries SCOPED_PREFIXES))
    with [(Colors, "border-"); (Layout, "border-t-"); (Layout, "border-b-");
          (Layout, "border-l-"); (Layout, "border-r-"); (Layout, "border-x-");
          (Layout, "border-y-"); (Decoration, "border-t"); (Decoration, "border-b");
          (Decoration, "border-l"); (Decoration, "border-r")].
  cbn [fold_left fst snd].
  rewrite !match_step_no_match by assumption.
  rewrite match_step_matches, M0. reflexivity.
Qed.

(** ** Bare strict prefixes *)

Lemma strict_prefix_facts p :
  In p STRICT_PREFIXES ->
  includes p "[" && includes p "]" = false /\
  extractToken p p = EmptyString /\
  (findLongestMatch p = Some (Colors, p) \/ findLongestMatch p = Some (Spacing, p)).
Proof.
  intros H.
  assert (F : forallb
    (fun p => negb (includes p "[" && includes p "]") &&
              String.eqb (extractToken p p) EmptyString &&
              match findLongestMatch p with
              | Some (Colors, q) => String.eqb q p
              | Some (Spacing, q) => String.eqb q p
              | _ => false
              end) STRICT_PREFIXES = true) by (vm_compute; reflexivity).
  rewrite forallb_forall in F. specialize (F p H).
  apply andb_true_iff in F as [F F3]. apply andb_true_iff in F as [F1 F2].
  apply negb_true_iff in F1. apply String.eqb_eq in F2.
  split; [exact F1|]. split; [exact F2|].
  destruct (findLongestMatch p) as [[[] q]|]; try discriminate;
    apply String.eqb_eq in F3; subst q; [left|right]; reflexivity.
Qed.

(** C10. A class that is exactly one of the separator-terminated
    prefixes of the colors or spacing category has an empty remainder
    and is accepted for every resolved truth, the empty string being a
    key of it or not: the membership test is guarded by the remainder
    being non-empty. The class is a piece of the reconstructed string. *)
Theorem bare_strict_prefix_accepted
  (truth : ResolvedTruth) (markup : string) (className : string) :
  In className STRICT_PREFIXES ->
  In className (extractClasses markup) ->
  extractToken className className = EmptyString /\
  (forall st, validate_class truth st className = accept st className) /\
  accepted truth className = true /\
  In className (split_spaces (code (validateCode markup truth))).
Proof.
  intros Hp Hin.
  destruct (strict_prefix_facts className Hp) as (Hb & Ht & Hm).
  assert (Hstep : forall st, validate_class truth st className = accept st className).
  { intros st. unfold validate_class. rewrite Hb.
    destruct Hm as [-> | ->]; rewrite Ht.
    - destruct (String.eqb className "text-"); [reflexivity|].
      destruct (String.eqb className "border-"); reflexivity.
    - reflexivity. }
  assert (Ha : accepted truth className = true) by (apply accepted_of_accept, Hstep).
  split; [exact Ht|]. split; [exact Hstep|]. split; [exact Ha|].
  apply code_pieces; [|split; assumption].
  exact (proj1 (extractClasses_tokens _ _ Hin)).
Qed.

Lemma bare_strict_prefix_accepted_witness :
  In "bg-" STRICT_PREFIXES /\
  In "bg-" (extractClasses "<p class='bg- p-'>") /\
  JsObject.get_own (colors sampleResolved) EmptyString = None /\
  accepted sampleResolved "bg-" = true /\
  validateCode "<p class='bg- p-'>" sampleResolved
    = {| isValid := true; code := "bg- p-"; errors := [] |}.
Proof.
  assert (Hp : In "bg-" STRICT_PREFIXES) by (left; reflexivity).
  assert (Hin : In "bg-" (extractClasses "<p class='bg- p-'>")) by (left; reflexivity).
  split; [exact Hp|]. split; [exact Hin|]. split; [reflexivity|].
  split; [|reflexivity].
  exact (proj1 (proj2 (proj2
           (bare_strict_prefix_accepted sampleResolved "<p class='bg- p-'>" "bg-" Hp Hin)))).
Defined.

(** ** Edit distance *)

Lemma lev_cons x s y t :
  lev (x :: s) (y :: t) =
  if Ascii.eqb x y then lev s t
  else S (Nat.min (lev s t) (Nat.min (lev s (y :: t)) (lev (x :: s) t))).
Proof. reflexivity. Qed.

Lemma lev_nil_r s : lev s [] = List.length s.
Proof. destruct s; reflexivity. Qed.

Lemma lev_nil_l t : lev [] t = List.length t.
Proof. reflexivity. Qed.

Lemma lev_sym s : forall t, lev s t = lev t s.
Proof.
  induction s as [|x s IHs]; intros t.
  - rewrite lev_nil_r. reflexivity.
  - induction t as [|y t IHt].
    + reflexivity.
    + rewrite !lev_cons, Ascii.eqb_sym, (IHs t), (IHs (y :: t)), IHt.
      destruct (Ascii.eqb y x); [reflexivity|]. f_equal. lia.
Qed.

Lemma lev_refl s : lev s s = 0.
Proof.
  induction s as [|x s IH]; [reflexivity|].
  rewrite lev_cons, Ascii.eqb_refl. exact IH.
Qed.

(** Dropping or adding a first character changes the recurrence by at
    most one. *)
Lemma lev_head_bounds n : forall r t c,
  List.length r + List.length t = n ->
  lev r t <= S (lev (c :: r) t) /\ lev (c :: r) t <= S (lev r t).
Proof.
  induction n as [n IH] using lt_wf_ind. intros r t c Hn.
  assert (Q1 : forall t' b, List.length r + List.length t' < n ->
                            lev r t' <= S (lev r (b :: t'))).
  { intros t' b Hlt. rewrite (lev_sym r t'), (lev_sym r (b :: t')).
    apply (IH (List.length t' + List.length r)); lia. }
  assert (Q2 : forall t' b, List.length r + List.length t' < n ->
                            lev r (b :: t') <= S (lev r t')).
  { intros t' b Hlt. rewrite (lev_sym r t'), (lev_sym r (b :: t')).
    apply (IH (List.length t' + List.length r)); lia. }
  destruct t as [|b t'].
  - rewrite !lev_nil_r. simpl. lia.
  - simpl in Hn.
    assert (Hlt : List.length r + List.length t' < n) by lia.
    destruct (IH _ Hlt r t' c eq_refl) as [P1 P2].
    pose proof (Q1 t' b Hlt). pose proof (Q2 t' b Hlt).
    rewrite lev_cons. destruct (Ascii.eqb c b); lia.
Qed.

Lemma lev_drop_head c r t : lev r t <= S (lev (c :: r) t).
Proof. exact (proj1 (lev_head_bounds _ r t c eq_refl)). Qed.

Lemma lev_add_head c r t : lev (c :: r) t <= S (lev r t).
Proof. exact (proj2 (lev_head_bounds _ r t c eq_refl)). Qed.

Lemma lev_drop_head_r c r t : lev r t <= S (lev r (c :: t)).
Proof. rewrite (lev_sym r t), (lev_sym r (c :: t)). apply lev_drop_head. Qed.

Lemma lev_change_head c d r t : lev (c :: r) t <= S (lev (d :: r) t).
Proof.
  induction t as [|b t IH].
  - rewrite !lev_nil_r. simpl. lia.
  - rewrite !lev_cons.
    pose proof (lev_drop_head_r b r t). pose proof (lev_drop_head d r t).
    destruct (Ascii.eqb c b), (Ascii.eqb d b); lia.
Qed.

(** The same bounds under a common beginning. *)
Lemma lev_under_cons a s u :
  (forall t, lev s t <= S (lev u t)) ->
  forall t, lev (a :: s) t <= S (lev (a :: u) t).
Proof.
  intros H t. induction t as [|b t IH].
  - rewrite !lev_nil_r. specialize (H []). rewrite !lev_nil_r in H. simpl. lia.
  - rewrite !lev_cons. pose proof (H t). pose proof (H (b :: t)).
    destruct (Ascii.eqb a b); lia.
Qed.

(** One edit of the first text changes the recurrence by at most one. *)
Lemma lev_edit_step s u :
  edit_step s u -> forall t, lev s t <= S (lev u t).
Proof.
  intros [l c r|l c r|l c d r]; induction l as [|a l IH]; simpl.
  - intros t. apply lev_drop_head.
  - apply lev_under_cons, IH.
  - intros t. apply lev_add_head.
  - apply lev_under_cons, IH.
  - intros t. apply lev_change_head.
  - apply lev_under_cons, IH.
Qed.

(** No sequence of edits is shorter than the recurrence. *)
Lemma lev_lower_bound n s t : edits n s t -> lev s t <= n.
Proof.
  induction 1 as [s|n s t u Hstep _ IH].
  - rewrite lev_refl. lia.
  - pose proof (lev_edit_step _ _ Hstep u). lia.
Qed.

Lemma edit_step_cons c s t : edit_step s t -> edit_step (c :: s) (c :: t).
Proof.
  intros [l x r|l x r|l x y r].
  - exact (edit_insert (c :: l) x r).
  - exact (edit_delete (c :: l) x r).
  - exact (edit_substitute (c :: l) x y r).
Qed.

Lemma edits_cons c n s t : edits n s t -> edits n (c :: s) (c :: t).
Proof.
  induction 1 as [s|n s t u Hstep _ IH].
  - apply edits_none.
  - exact (edits_more (edit_step_cons c _ _ Hstep) IH).
Qed.

Lemma edits_insert_all t : edits (List.length t) [] t.
Proof.
  induction t as [|y t IH]; [apply edits_none|].
  exact (edits_more (edit_insert [] y []) (edits_cons y _ _ _ IH)).
Qed.

Lemma edits_delete_all s : edits (List.length s) s [].
Proof.
  induction s as [|x s IH]; [apply edits_none|].
  exact (edits_more (edit_delete [] x s) IH).
Qed.

(** The recurrence is reached by a sequence of edits. *)
Lemma lev_reached s : forall t, edits (lev s t) s t.
Proof.
  induction s as [|x s IHs]; intros t.
  - apply edits_insert_all.
  - induction t as [|y t IHt].
    + rewrite lev_nil_r. apply edits_delete_all.
    + rewrite lev_cons. destruct (Ascii.eqb_spec x y) as [->|Hne].
      * apply edits_cons, IHs.
      * destruct (Nat.min_spec (lev s t) (Nat.min (lev s (y :: t)) (lev (x :: s) t)))
          as [[_ ->]|[_ ->]].
        { exact (edits_more (edit_substitute [] x y s) (edits_cons y _ _ _ (IHs t))). }
        destruct (Nat.min_spec (lev s (y :: t)) (lev (x :: s) t)) as [[_ ->]|[_ ->]].
        { exact (edits_more (edit_delete [] x s) (IHs (y :: t))). }
        { exact (edits_more (edit_insert [] y (x :: s)) (edits_cons y _ _ _ IHt)). }
Qed.

Lemma lev_is_edit_distance s t : edit_distance s t (lev s t).
Proof. split; [apply lev_reached|]. intros n. apply lev_lower_bound. Qed.

Lemma edit_step_sym s t : edit_step s t -> edit_step t s.
Proof.
  intros [l c r|l c r|l c d r];
    [apply edit_delete|apply edit_insert|apply edit_substitute].
Qed.

Lemma edit_step_rev s t : edit_step s t -> edit_step (rev s) (rev t).
Proof.
  intros [l c r|l c r|l c d r]; rewrite !rev_app_distr; simpl;
    rewrite <- ?app_assoc; simpl.
  - apply edit_insert.
  - apply edit_delete.
  - apply edit_substitute.
Qed.

Lemma edits_last n s t u : edits n s t -> edit_step t u -> edits (S n) s u.
Proof.
  induction 1 as [s|n s t' t Hstep _ IH]; intros Hlast.
  - exact (edits_more Hlast (edits_none u)).
  - exact (edits_more Hstep (IH Hlast)).
Qed.

Lemma edits_sym n s t : edits n s t -> edits n t s.
Proof.
  induction 1 as [s|n s t u Hstep _ IH].
  - apply edits_none.
  - exact (edits_last _ _ _ _ IH (edit_step_sym _ _ Hstep)).
Qed.

Lemma edits_rev n s t : edits n s t -> edits n (rev s) (rev t).
Proof.
  induction 1 as [s|n s t u Hstep _ IH].
  - apply edits_none.
  - exact (edits_more (edit_step_rev _ _ Hstep) IH).
Qed.

(** The distance between two texts is that between the reversed texts
    taken the other way round. *)
Lemma edit_distance_rev_sym s t d :
  edit_distance (rev t) (rev s) d -> edit_distance s t d.
Proof.
  intros [Hd Hmin]. split.
  - apply edits_sym. rewrite <- (rev_involutive s), <- (rev_involutive t).
    apply edits_rev, Hd.
  - intros n Hn. apply Hmin, edits_rev, edits_sym, Hn.
Qed.

(** ** The matrix of [levenshtein] *)

Lemma length_chars s : List.length (chars s) = String.length s.
Proof. induction s as [|c s IH]; simpl; [reflexivity|]. rewrite IH. reflexivity. Qed.

Lemma charAt_chars s : forall i,
  i < String.length s ->
  charAt s i = String (nth i (chars s) Ascii.zero) EmptyString.
Proof.
  unfold charAt. induction s as [|c s IH]; intros i Hi; simpl in Hi; [lia|].
  destruct i as [|i]; simpl; [reflexivity|]. apply IH. lia.
Qed.

Lemma eqb_single x y :
  String.eqb (String x EmptyString) (String y EmptyString) = Ascii.eqb x y.
Proof. simpl. destruct (Ascii.eqb x y); reflexivity. Qed.

Lemma range_from_0 n : range 0 n = seq 0 (S n).
Proof. reflexivity. Qed.

Lemma range_from_1 n : range 1 n = seq 1 n.
Proof. unfold range. simpl. rewrite Nat.sub_0_r. reflexivity. Qed.

Lemma array_set_end (A : Type) (hole : A) (arr : list A) (v : A) :
  array_set hole arr (List.length arr) v = (arr ++ [v])%list.
Proof.
  unfold array_set. rewrite Nat.ltb_irrefl, Nat.sub_diag. reflexivity.
Qed.

Lemma array_set_middle (A : Type) (hole : A) (pre post : list A) (x v : A) :
  array_set hole (pre ++ x :: post)%list (List.length pre) v = (pre ++ v :: post)%list.
Proof.
  unfold array_set.
  assert (H : (List.length pre <? List.length (pre ++ x :: post)%list)%nat = true).
  { apply Nat.ltb_lt. rewrite length_app. simpl. lia. }
  rewrite H. clear H.
  induction pre as [|y pre IH]; simpl; [reflexivity|].
  f_equal. exact IH.
Qed.

Section Matrix.
Variables a b : string.

Let A := chars a.
Let B := chars b.
Let la := String.length a.
Let lb := String.length b.

(** The distance between the first [i] characters of [b] and the first
    [j] of [a], by the recurrence on the reversed beginnings. *)
Let D (i j : nat) : nat := lev (rev (firstn i B)) (rev (firstn j A)).

Let full (i : nat) : list nat := map (D i) (seq 0 (S la)).
Let stub (i : nat) : list nat := [i].

Lemma firstn_snoc (l : list ascii) i :
  i < List.length l ->
  firstn (S i) l = (firstn i l ++ [nth i l Ascii.zero])%list.
Proof.
  revert i. induction l as [|x l IH]; intros i Hi; simpl in Hi; [lia|].
  destruct i as [|i]; [reflexivity|].
  change (firstn (S (S i)) (x :: l)) with (x :: firstn (S i) l).
  rewrite IH by lia. reflexivity.
Qed.

Lemma D_row_0 j : j <= la -> D 0 j = j.
Proof.
  intros H. unfold D. simpl. rewrite length_rev, length_firstn.
  unfold A. rewrite length_chars. fold la. lia.
Qed.

Lemma D_col_0 i : i <= lb -> D i 0 = i.
Proof.
  intros H. unfold D. simpl. rewrite lev_nil_r, length_rev, length_firstn.
  unfold B. rewrite length_chars. fold lb. lia.
Qed.

Lemma D_step i j :
  i < lb -> j < la ->
  D (S i) (S j) =
  if String.eqb (charAt b i) (charAt a j) then D i j
  else Nat.min (D i j + 1) (Nat.min (D (S i) j + 1) (D i (S j) + 1)).
Proof.
  intros Hi Hj. unfold D.
  rewrite (firstn_snoc B i), (firstn_snoc A j)
    by (unfold A, B; rewrite length_chars; assumption).
  rewrite !rev_app_distr. simpl rev. cbn [app].
  rewrite lev_cons.
  rewrite (charAt_chars b i Hi), (charAt_chars a j Hj), eqb_single.
  fold A B. destruct (Ascii.eqb (nth i B Ascii.zero) (nth j A Ascii.zero)); [reflexivity|].
  lia.
Qed.

Lemma nth_full i j : j <= la -> nth j (full i) 0 = D i j.
Proof.
  intros H. unfold full.
  rewrite (nth_indep _ 0 (D i 0)) by (rewrite length_map, length_seq; lia).
  rewrite (map_nth (D i)), seq_nth by lia. reflexivity.
Qed.

Lemma full_0 : full 0 = seq 0 (S la).
Proof.
  unfold full. rewrite <- (map_id (seq 0 (S la))) at 2.
  apply map_ext_in. intros j Hj. apply in_seq in Hj. apply D_row_0. lia.
Qed.

(** The first loop lays down one row [[i]] per index. *)
Lemma first_loop n :
  fold_left (fun matrix i => array_set [] matrix i [i]) (seq 0 n) [] = map stub (seq 0 n).
Proof.
  induction n as [|n IH]; [reflexivity|].
  rewrite seq_S, fold_left_app, IH, map_app. simpl.
  rewrite <- (array_set_end _ [] (map stub (seq 0 n)) (stub n)).
  rewrite length_map, length_seq. reflexivity.
Qed.

(** The second loop fills row 0 with [0 .. a.length]. *)
Lemma second_loop rest k :
  fold_left (fun matrix j => set_cell matrix 0 j j) (seq 0 (S k)) ([0] :: rest)
  = seq 0 (S k) :: rest.
Proof.
  induction k as [|k IH]; [reflexivity|].
  rewrite seq_S, fold_left_app, IH. cbn [fold_left]. unfold set_cell.
  cbn [nth].
  assert (E : array_set 0 (seq 0 (S k)) (0 + S k) (0 + S k)
              = (seq 0 (S k) ++ [0 + S k])%list).
  { rewrite <- (array_set_end _ 0 (seq 0 (S k)) (0 + S k)), length_seq. reflexivity. }
  rewrite E. reflexivity.
Qed.

(** The inner loop completes row [S i] from row [i]. *)
Lemma inner_loop i (Hi : i < lb) pre post :
  List.length pre = S i ->
  nth i pre [] = full i ->
  forall k, k <= la ->
  fold_left
    (fun matrix j =>
       if String.eqb (charAt b (S i - 1)) (charAt a (j - 1)) then
         set_cell matrix (S i) j (cell matrix (S i - 1) (j - 1))
       else
         set_cell matrix (S i) j
           (Nat.min (cell matrix (S i - 1) (j - 1) + 1)
              (Nat.min (cell matrix (S i) (j - 1) + 1)
                       (cell matrix (S i - 1) j + 1))))
    (seq 1 k) (pre ++ stub (S i) :: post)%list
  = (pre ++ map (D (S i)) (seq 0 (S k)) :: post)%list.
Proof.
  intros Hpre Hprev k. induction k as [|k IH]; intros Hk.
  - simpl. unfold stub. rewrite D_col_0 by lia. reflexivity.
  - rewrite seq_S, fold_left_app, IH by lia. cbn [fold_left].
    replace (S i - 1) with i by lia. replace (1 + k - 1) with k by lia.
    set (row := map (D (S i)) (seq 0 (S k))).
    assert (Hrow : nth (S i) (pre ++ row :: post)%list [] = row)
      by (rewrite <- Hpre; apply nth_middle).
    assert (Hup : nth i (pre ++ row :: post)%list [] = full i)
      by (rewrite app_nth1 by lia; exact Hprev).
    assert (Hlen : List.length row = 1 + k)
      by (unfold row; rewrite length_map, length_seq; reflexivity).
    assert (C11 : cell (pre ++ row :: post)%list i k = D i k)
      by (unfold cell; rewrite Hup; apply nth_full; lia).
    assert (C01 : cell (pre ++ row :: post)%list i (1 + k) = D i (S k))
      by (unfold cell; rewrite Hup; apply nth_full; lia).
    assert (C10 : cell (pre ++ row :: post)%list (S i) k = D (S i) k).
    { unfold cell. rewrite Hrow. unfold row.
      rewrite (nth_indep _ 0 (D (S i) 0)) by (rewrite length_map, length_seq; lia).
      rewrite (map_nth (D (S i))), seq_nth by lia. reflexivity. }
    rewrite C11, C01, C10.
    assert (Hset : forall v,
      set_cell (pre ++ row :: post)%list (S i) (1 + k) v = (pre ++ (row ++ [v]) :: post)%list).
    { intros v. unfold set_cell. rewrite Hrow, <- Hlen, array_set_end, <- Hpre.
      apply array_set_middle. }
    rewrite !Hset.
    replace (map (D (S i)) (seq 0 (S (S k)))) with (row ++ [D (S i) (S k)])%list
      by (unfold row; rewrite (seq_S (S k) 0), map_app; reflexivity).
    rewrite (D_step i k) by lia.
    destruct (String.eqb (charAt b i) (charAt a k)); reflexivity.
Qed.

(** The outer loop completes the rows in turn. *)
Lemma outer_loop n :
  n <= lb ->
  fold_left
    (fun matrix i =>
       fold_left
         (fun matrix j =>
            if String.eqb (charAt b (i - 1)) (charAt a (j - 1)) then
              set_cell matrix i j (cell matrix (i - 1) (j - 1))
            else
              set_cell matrix i j
                (Nat.min (cell matrix (i - 1) (j - 1) + 1)
                   (Nat.min (cell matrix i (j - 1) + 1)
                            (cell matrix (i - 1) j + 1))))
         (range 1 la) matrix)
    (seq 1 n) (seq 0 (S la) :: map stub (seq 1 lb))
  = (map full (seq 0 (S n)) ++ map stub (seq (S n) (lb - n)))%list.
Proof.
  induction n as [|n IH]; intros Hn.
  - cbn [fold_left]. rewrite Nat.sub_0_r.
    change (seq 0 1) with [0]. cbn [map app]. rewrite full_0. reflexivity.
  - rewrite seq_S, fold_left_app, IH by lia. cbn [fold_left].
    replace (lb - n) with (S (lb - S n)) by lia.
    assert (E1 : map stub (seq (S n) (S (lb - S n))) =
                 stub (S n) :: map stub (seq (S (S n)) (lb - S n))) by reflexivity.
    assert (E2 : map full (seq 0 (S (S n))) =
                 (map full (seq 0 (S n)) ++ [full (S n)])%list)
      by (rewrite (seq_S (S n) 0), map_app; reflexivity).
    rewrite E1, E2, range_from_1.
    rewrite (inner_loop n Hn (map full (seq 0 (S n))) (map stub (seq (S (S n)) (lb - S n)))).
    + rewrite <- app_assoc. reflexivity.
    + rewrite length_map, length_seq. reflexivity.
    + rewrite (nth_indep _ [] (full 0)) by (rewrite length_map, length_seq; lia).
      rewrite (map_nth full), seq_nth by lia. reflexivity.
    + lia.
Qed.

(** The matrix computation returns the recurrence on the reversed texts. *)
Lemma levenshtein_lev : levenshtein a b = lev (rev B) (rev A).
Proof.
  unfold levenshtein. fold la lb.
  rewrite !range_from_0, first_loop.
  change (map stub (seq 0 (S lb))) with ([0] :: map stub (seq 1 lb)).
  rewrite second_loop.
  rewrite (range_from_1 lb), (outer_loop lb (le_n lb)).
  rewrite Nat.sub_diag, app_nil_r. unfold cell.
  rewrite (nth_indep _ [] (full 0)) by (rewrite length_map, length_seq; lia).
  rewrite (map_nth full), seq_nth by lia.
  rewrite nth_full by lia. unfold D.
  rewrite !firstn_all2 by (unfold A, B, la, lb; rewrite length_chars; lia).
  reflexivity.
Qed.

End Matrix.

(** [levenshtein] computes the edit distance between its arguments. *)
Lemma levenshtein_is_edit_distance a b :
  edit_distance (chars a) (chars b) (levenshtein a b).
Proof.
  rewrite levenshtein_lev. apply edit_distance_rev_sym, lev_is_edit_distance.
Qed.

(** ** Stable sorting and the three closest *)

Section SortFacts.
Variables (I A : Type) (f : I -> A).
Variables (cmpI : I -> I -> Z) (cmpA : A -> A -> Z).
Hypothesis cmp_f : forall x y, cmpA (f x) (f y) = cmpI x y.

(** Sorting does not look at more than the comparator does. *)
Lemma sort_insert_map x l :
  sort_insert cmpA (f x) (map f l) = map f (sort_insert cmpI x l).
Proof.
  induction l as [|y l IH]; simpl; [reflexivity|].
  rewrite cmp_f. destruct (cmpI x y <=? 0)%Z; simpl; [reflexivity|].
  rewrite IH. reflexivity.
Qed.

Lemma Array_sort_map l :
  Array_sort cmpA (map f l) = map f (Array_sort cmpI l).
Proof.
  induction l as [|x l IH]; simpl; [reflexivity|].
  rewrite IH. apply sort_insert_map.
Qed.

Lemma sort_insert_perm x l : Permutation (sort_insert cmpI x l) (x :: l).
Proof.
  induction l as [|y l IH]; simpl; [apply Permutation_refl|].
  destruct (cmpI x y <=? 0)%Z; [apply Permutation_refl|].
  apply (perm_trans (perm_skip y IH)). apply perm_swap.
Qed.

Lemma Array_sort_perm l : Permutation (Array_sort cmpI l) l.
Proof.
  induction l as [|x l IH]; simpl; [apply perm_nil|].
  apply (perm_trans (sort_insert_perm x _)). apply perm_skip, IH.
Qed.

End SortFacts.

Section ByDistance.
Variable dist : nat -> nat.

Let cmp (i k : nat) : Z := (Z.of_nat (dist i) - Z.of_nat (dist k))%Z.

Lemma sort_insert_ranked x s :
  StronglySorted (ranks_before dist) s ->
  Forall (fun y => x < y) s ->
  StronglySorted (ranks_before dist) (sort_insert cmp x s).
Proof.
  induction s as [|y s IH]; simpl; intros Hs Hx.
  - constructor; constructor.
  - apply StronglySorted_inv in Hs as [Hs Hy].
    apply Forall_cons_iff in Hx as [Hxy Hx].
    unfold cmp at 1. destruct (Z.leb_spec (Z.of_nat (dist x) - Z.of_nat (dist y)) 0) as [Hle|Hgt].
    + constructor; [constructor; assumption|].
      constructor.
      * unfold ranks_before. lia.
      * rewrite Forall_forall in *. intros z Hz.
        specialize (Hy z Hz). specialize (Hx z Hz). unfold ranks_before in *. lia.
    + constructor; [apply IH; assumption|].
      apply (Permutation_Forall (Permutation_sym (sort_insert_perm _ cmp x s))).
      constructor; [unfold ranks_before; lia|exact Hy].
Qed.

(** Sorting a pool by distance, places in increasing order, ranks it by
    distance and then by place. *)
Lemma Array_sort_ranked l :
  StronglySorted lt l ->
  StronglySorted (ranks_before dist) (Array_sort cmp l).
Proof.
  induction l as [|x l IH]; simpl; intros H; [constructor|].
  apply StronglySorted_inv in H as [Hl Hx].
  apply sort_insert_ranked; [apply IH, Hl|].
  exact (Permutation_Forall (Permutation_sym (Array_sort_perm _ cmp l)) Hx).
Qed.

End ByDistance.

Lemma seq_increasing len : forall start, StronglySorted lt (seq start len).
Proof.
  induction len as [|len IH]; intros start; simpl; constructor; [apply IH|].
  apply Forall_forall. intros y Hy. apply in_seq in Hy. lia.
Qed.

Lemma StronglySorted_app (A : Type) (R : A -> A -> Prop) (l1 l2 : list A) :
  StronglySorted R (l1 ++ l2)%list ->
  StronglySorted R l1 /\ forall x y, In x l1 -> In y l2 -> R x y.
Proof.
  induction l1 as [|a l1 IH]; simpl; intros H.
  - split; [constructor|]. intros x y [].
  - apply StronglySorted_inv in H as [H Ha]. destruct (IH H) as [IH1 IH2].
    rewrite Forall_forall in Ha. split.
    + constructor; [exact IH1|]. apply Forall_forall. intros y Hy.
      apply Ha, in_or_app. left. exact Hy.
    + intros x y [<-|Hx] Hy; [|exact (IH2 x y Hx Hy)].
      apply Ha, in_or_app. right. exact Hy.
Qed.

Lemma map_nth_seq (l : list string) :
  l = map (fun i => nth i l EmptyString) (seq 0 (List.length l)).
Proof.
  induction l as [|x l IH]; [reflexivity|].
  simpl. f_equal. rewrite <- seq_shift, map_map. exact IH.
Qed.

(** C7. [findClosest] returns the candidates at three places of the pool
    (all of them when the pool has fewer), in ascending order of their
    [levenshtein] distance to the target with candidates at the same
    distance in pool order, and every candidate left out ranks after
    each returned one. [levenshtein] is the least number of
    single-character insertions, deletions and substitutions between the
    strings as they are, a letter and its capital being different
    characters. For the pool [blue-500, blue-600, green-500] and the
    target [blue-50] the first suggestion is [blue-500], at distance 1,
    and [green-500] comes last. *)
Theorem findClosest_three_closest :
  (forall target options,
     let dist := fun i => levenshtein target (nth i options EmptyString) in
     exists picks : list nat,
       findClosest target options = map (fun i => nth i options EmptyString) picks /\
       List.length picks = Nat.min 3 (List.length options) /\
       (forall i, In i picks -> i < List.length options) /\
       StronglySorted (ranks_before dist) picks /\
       (forall i k, In i picks -> k < List.length options -> ~ In k picks ->
                    ranks_before dist i k)) /\
  (forall target option,
     edit_distance (chars target) (chars option) (levenshtein target option)) /\
  findClosest "blue-50" ["blue-500"; "blue-600"; "green-500"]
    = ["blue-500"; "blue-600"; "green-500"] /\
  levenshtein "blue-50" "blue-500" = 1 /\
  levenshtein "blue-50" "blue-600" = 2 /\
  levenshtein "blue-50" "green-500" = 5 /\
  levenshtein "Red" "red" = 1.
Proof.
  split; [|split; [exact levenshtein_is_edit_distance|repeat split]].
  intros target options dist.
  set (cmp := fun i k => (Z.of_nat (dist i) - Z.of_nat (dist k))%Z).
  set (sorted := Array_sort cmp (seq 0 (List.length options))).
  assert (Hperm : Permutation sorted (seq 0 (List.length options)))
    by apply Array_sort_perm.
  assert (Hsorted : StronglySorted (ranks_before dist) sorted)
    by apply Array_sort_ranked, seq_increasing.
  exists (firstn 3 sorted).
  rewrite <- (firstn_skipn 3 sorted) in Hsorted.
  apply StronglySorted_app in Hsorted as [Hfirst Hrest].
  split; [|split; [|split; [|split]]].
  - unfold findClosest.
    rewrite (map_nth_seq options) at 1. rewrite map_map.
    rewrite (Array_sort_map _ _
               (fun i => {| option_ := nth i options EmptyString; distance := dist i |})
               cmp
               (fun a b => (Z.of_nat (distance a) - Z.of_nat (distance b))%Z)
               (fun x y => eq_refl)).
    fold sorted. rewrite firstn_map, map_map. reflexivity.
  - rewrite length_firstn, (Permutation_length Hperm), length_seq. reflexivity.
  - intros i Hi.
    assert (Hin : In i sorted)
      by (rewrite <- (firstn_skipn 3 sorted); apply in_or_app; left; exact Hi).
    apply (Permutation_in _ Hperm), in_seq in Hin. lia.
  - exact Hfirst.
  - intros i k Hi Hk Hout. apply Hrest; [exact Hi|].
    assert (Hin : In k sorted).
    { apply (Permutation_in _ (Permutation_sym Hperm)), in_seq. lia. }
    rewrite <- (firstn_skipn 3 sorted) in Hin.
    apply in_app_or in Hin as [Hin|Hin]; [contradiction|exact Hin].
Qed.


(* ===================================================================== *)
(** * Further properties *)
(* ===================================================================== *)

(** ** What a match says of the class *)

Lemma prefix_length p : forall s,
  String.prefix p s = true -> String.length p <= String.length s.
Proof.
  induction p as [|c p IH]; intros s H; [simpl; lia|].
  destruct s as [|d s]; [discriminate|].
  cbn [String.prefix] in H. destruct (ascii_dec c d); [|discriminate].
  simpl. apply le_n_S, IH, H.
Qed.

Lemma prefix_same_length p : forall s,
  String.prefix p s = true -> String.length p = String.length s -> p = s.
Proof.
  induction p as [|c p IH]; intros s H L.
  - destruct s; [reflexivity|discriminate].
  - destruct s as [|d s]; [discriminate|].
    cbn [String.prefix] in H. destruct (ascii_dec c d) as [->|]; [|discriminate].
    simpl in L. f_equal. apply IH; [exact H|lia].
Qed.

Lemma prefix_append p rest : String.prefix p (p ++ rest) = true.
Proof.
  induction p as [|c p IH]; [destruct rest; reflexivity|].
  change (String c p ++ rest) with (String c (p ++ rest)).
  cbn [String.prefix]. destruct (ascii_dec c c); [exact IH|congruence].
Qed.

Lemma substring_from_append p rest :
  substring_from (String.length p) (p ++ rest) = rest.
Proof. induction p as [|c p IH]; [reflexivity|exact IH]. Qed.

(** A string is its prefix followed by what [substring] leaves. *)
Lemma prefix_split p : forall s,
  String.prefix p s = true -> s = p ++ substring_from (String.length p) s.
Proof.
  induction p as [|c p IH]; intros s H; [reflexivity|].
  destruct s as [|d s]; [discriminate|].
  cbn [String.prefix] in H. destruct (ascii_dec c d) as [->|]; [|discriminate].
  simpl. f_equal. apply IH, H.
Qed.

Lemma prefix_matches_split className prefix :
  prefix_matches className prefix = true ->
  className = prefix ++ extractToken className prefix.
Proof.
  unfold prefix_matches, extractToken, startsWith.
  destruct (endsWith prefix "-"); simpl; intros H.
  - apply prefix_split, H.
  - apply String.eqb_eq in H. rewrite append_empty_r. exact H.
Qed.

(** What [findLongestMatch] returns is a registered pair that matches. *)
Lemma findLongestMatch_in_sound table className category p :
  findLongestMatch_in table className = Some (category, p) ->
  In (category, p) (prefix_entries table) /\
  prefix_matches className p = true.
Proof.
  intros H.
  pose proof (findLongestMatch_in_best className table) as Inv.
  unfold best_so_far in Inv. unfold findLongestMatch_in in H.
  rewrite H in Inv.
  destruct Inv as (_ & _ & i & Hi & Hm & _).
  split; [exact (nth_error_In _ _ Hi)|exact Hm].
Qed.

Lemma findLongestMatch_sound className category p :
  findLongestMatch className = Some (category, p) ->
  In (category, p) (prefix_entries SCOPED_PREFIXES) /\
  prefix_matches className p = true.
Proof. exact (findLongestMatch_in_sound SCOPED_PREFIXES className category p). Qed.

(** X1. A class that [findLongestMatch] matches is the matched prefix
    followed by the token [extractToken] gives for it: prefix and token
    put together again give the class. The pair returned is one of the
    table. *)
Theorem matched_class_is_prefix_and_token (className : string)
                                          (category : Category) (prefix : string) :
  findLongestMatch className = Some (category, prefix) ->
  In prefix (prefixes_of category) /\
  className = prefix ++ extractToken className prefix /\
  (endsWith prefix "-" = false -> className = prefix).
Proof.
  intros H. destruct (findLongestMatch_sound _ _ _ H) as [Hin Hm].
  split; [|split].
  - unfold prefixes_of. unfold prefix_entries in Hin.
    apply in_flat_map in Hin as [entry [He Hp]].
    apply in_map_iff in Hp as [p [Hp Hin]]. injection Hp as <- <-.
    apply in_flat_map. exists entry. split; [exact He|].
    destruct (fst entry); exact Hin.
  - apply prefix_matches_split, Hm.
  - intros He. unfold prefix_matches in Hm. rewrite He in Hm.
    apply String.eqb_eq, Hm.
Qed.

Lemma matched_class_is_prefix_and_token_witness :
  findLongestMatch "gap-x-4" = Some (Spacing, "gap-x-") /\
  "gap-x-4" = "gap-x-" ++ extractToken "gap-x-4" "gap-x-".
Proof.
  split; [reflexivity|].
  exact (proj1 (proj2 (matched_class_is_prefix_and_token
                         "gap-x-4" Spacing "gap-x-" eq_refl))).
Defined.

(** ** Prefixes that nothing continues *)

Lemma find_first {A} (f : A -> bool) (l : list A) x :
  find f l = Some x ->
  exists j, nth_error l j = Some x /\ f x = true /\
            forall i e, nth_error l i = Some e -> f e = true -> j <= i.
Proof.
  induction l as [|a l IH]; simpl; [discriminate|].
  destruct (f a) eqn:E.
  - intros [= <-]. exists 0. split; [reflexivity|]. split; [exact E|].
    intros; lia.
  - intros H. destruct (IH H) as (j & Hj & Hf & Hmin).
    exists (S j). split; [exact Hj|]. split; [exact Hf|].
    intros [|i] e Hi He; simpl in Hi.
    + injection Hi as ->. congruence.
    + specialize (Hmin i e Hi He). lia.
Qed.

Lemma prefix_refl s : String.prefix s s = true.
Proof. rewrite <- (append_empty_r s) at 2. apply prefix_append. Qed.

(** Of two prefixes of one string the shorter is a prefix of the longer. *)
Lemma prefix_common p : forall q s,
  String.prefix p s = true -> String.prefix q s = true ->
  String.length q <= String.length p -> String.prefix q p = true.
Proof.
  induction p as [|c p IH]; intros q s Hp Hq L.
  - destruct q; [reflexivity|simpl in L; lia].
  - destruct q as [|d q]; [reflexivity|].
    destruct s as [|e s]; [discriminate|].
    cbn [String.prefix] in Hp, Hq |- *.
    destruct (ascii_dec c e) as [->|]; [|discriminate].
    destruct (ascii_dec d e) as [->|]; [|discriminate].
    destruct (ascii_dec e e); [|congruence].
    simpl in L. apply (IH q s Hp Hq). lia.
Qed.

Lemma endsWith_dash_length q : endsWith q "-" = true -> 0 < String.length q.
Proof.
  unfold endsWith. intros H. apply andb_true_iff in H as [H _].
  apply Nat.leb_le in H. simpl in H. lia.
Qed.

Lemma prefix_matches_prefix className p :
  prefix_matches className p = true -> String.prefix p className = true.
Proof.
  unfold prefix_matches, startsWith. destruct (endsWith p "-"); [tauto|].
  intros H. apply String.eqb_eq in H. subst. apply prefix_refl.
Qed.

Lemma category_eqb_eq a b : category_eqb a b = true -> a = b.
Proof. destruct a, b; simpl; congruence. Qed.

Lemma findLongestMatch_in_cases table className :
  match findLongestMatch_in table className with
  | None =>
      forall j e, nth_error (prefix_entries table) j = Some e ->
                  prefix_matches className (snd e) = true ->
                  String.length (snd e) = 0
  | Some (c, p) =>
      exists i, nth_error (prefix_entries table) i = Some (c, p) /\
                prefix_matches className p = true /\
                forall j e, nth_error (prefix_entries table) j = Some e ->
                            prefix_matches className (snd e) = true ->
                            String.length (snd e) <= String.length p /\
                            (String.length (snd e) = String.length p -> i <= j)
  end.
Proof.
  pose proof (findLongestMatch_in_best className table) as Inv.
  unfold best_so_far in Inv. unfold findLongestMatch_in.
  destruct (fst (fold_left _ table (None, 0))) as [[c p]|].
  - destruct Inv as (_ & _ & Inv). exact Inv.
  - destruct Inv as (_ & Inv). exact Inv.
Qed.

Lemma findLongestMatch_cases className :
  match findLongestMatch className with
  | None =>
      forall j e, nth_error (prefix_entries SCOPED_PREFIXES) j = Some e ->
                  prefix_matches className (snd e) = true ->
                  String.length (snd e) = 0
  | Some (c, p) =>
      exists i, nth_error (prefix_entries SCOPED_PREFIXES) i = Some (c, p) /\
                prefix_matches className p = true /\
                forall j e, nth_error (prefix_entries SCOPED_PREFIXES) j = Some e ->
                            prefix_matches className (snd e) = true ->
                            String.length (snd e) <= String.length p /\
                            (String.length (snd e) = String.length p -> i <= j)
  end.
Proof. exact (findLongestMatch_in_cases SCOPED_PREFIXES className). Qed.

(** A class that begins with a dominant prefix is matched with it, in
    the category of its first registration, whatever follows. *)
Lemma findLongestMatch_dominant q category rest :
  dominant q category = true ->
  findLongestMatch (q ++ rest) = Some (category, q).
Proof.
  unfold dominant, unextended, first_category. intros H.
  apply andb_true_iff in H as [H Hc]. apply andb_true_iff in H as [He Hall].
  destruct (find _ (prefix_entries SCOPED_PREFIXES)) as [[c0 q0]|] eqn:F;
    [|discriminate].
  simpl in Hc. apply category_eqb_eq in Hc. subst c0.
  apply find_first in F as (j & Hj & Hq & Hmin).
  simpl in Hq. apply String.eqb_eq in Hq. subst q0.
  assert (Mq : prefix_matches (q ++ rest) q = true).
  { unfold prefix_matches, startsWith. rewrite He. apply prefix_append. }
  pose proof (findLongestMatch_cases (q ++ rest)) as Inv.
  destruct (findLongestMatch (q ++ rest)) as [[c p]|].
  - destruct Inv as (i & Hi & Hm & Hmax).
    destruct (Hmax j (category, q) Hj Mq) as [Hlen Hfirst]. cbn [snd] in *.
    assert (Hqp : String.prefix q p = true).
    { apply (prefix_common p q (q ++ rest));
        [apply prefix_matches_prefix, Hm|apply prefix_append|exact Hlen]. }
    rewrite forallb_forall in Hall.
    pose proof (Hall (c, p) (nth_error_In _ _ Hi)) as Hp. cbn [snd] in Hp.
    rewrite Hqp in Hp. simpl in Hp. apply String.eqb_eq in Hp. subst p.
    assert (Hij : i = j).
    { specialize (Hfirst eq_refl).
      assert (j <= i) by (apply (Hmin i (c, q) Hi); apply String.eqb_refl). lia. }
    subst i. congruence.
  - pose proof (Inv j (category, q) Hj Mq) as Hz. cbn [snd] in Hz.
    pose proof (endsWith_dash_length q He). lia.
Qed.

Lemma dominant_endsWith q category :
  dominant q category = true -> endsWith q "-" = true.
Proof.
  unfold dominant, unextended. intros H.
  apply andb_true_iff in H as [H _]. apply andb_true_iff in H as [H _]. exact H.
Qed.

Lemma extractToken_append q rest :
  endsWith q "-" = true -> extractToken (q ++ rest) q = rest.
Proof.
  unfold extractToken. intros ->. simpl. apply substring_from_append.
Qed.

Lemma truthy_false s : truthy s = false <-> s = EmptyString.
Proof.
  unfold truthy. rewrite negb_false_iff. apply String.eqb_eq.
Qed.

Lemma accepted_if truth className (b : bool) msg :
  (forall st, validate_class truth st className =
              if b then reject st msg else accept st className) ->
  accepted truth className = negb b.
Proof.
  intros H. unfold accepted, verdict. rewrite H. destruct b; reflexivity.
Qed.

Lemma strict_check_if st className p token family :
  strict_check st className p token family =
  if truthy token && negb (truthy_get family token)
  then reject st (suggestion_message className p token (JsObject.keys family))
  else accept st className.
Proof. reflexivity. Qed.

(** The loop body on a class that begins with a dominant prefix. *)
Lemma validate_class_dominant truth st q category rest :
  dominant q category = true ->
  is_arbitrary (q ++ rest) = false ->
  validate_class truth st (q ++ rest) =
  match category with
  | Colors => strict_check st (q ++ rest) q rest (colors truth)
  | Spacing => strict_check st (q ++ rest) q rest (spacing truth)
  | Layout =>
      if is_sizing_prefix q then
        if truthy rest && negb (isStandardSizeKeyword rest)
           && negb (truthy_get (spacing truth) rest)
        then reject st (suggestion_message (q ++ rest) q rest
                          (STANDARD_SIZE_KEYWORDS ++ JsObject.keys (spacing truth))%list)
        else accept st (q ++ rest)
      else if is_directional_border_prefix q
      then strict_check st (q ++ rest) q rest (spacing truth)
      else accept st (q ++ rest)
  | Typography | Decoration => accept st (q ++ rest)
  end.
Proof.
  intros Hd Hb. unfold is_arbitrary in Hb. unfold validate_class.
  rewrite Hb, (findLongestMatch_dominant q category rest Hd).
  rewrite (extractToken_append q rest (dominant_endsWith q category Hd)).
  destruct category; try reflexivity.
  destruct (String.eqb q "text-") eqn:E1.
  { apply String.eqb_eq in E1. subst q. vm_compute in Hd. discriminate. }
  destruct (String.eqb q "border-") eqn:E2.
  { apply String.eqb_eq in E2. subst q. vm_compute in Hd. discriminate. }
  reflexivity.
Qed.

Lemma SIZING_PREFIXES_list :
  SIZING_PREFIXES = ["w-"; "h-"; "min-w-"; "max-w-"; "min-h-"; "max-h-"].
Proof. vm_compute. reflexivity. Qed.

Lemma DIRECTIONAL_BORDER_PREFIXES_list :
  DIRECTIONAL_BORDER_PREFIXES
  = ["border-t-"; "border-b-"; "border-l-"; "border-r-"; "border-x-"; "border-y-"].
Proof. vm_compute. reflexivity. Qed.

Lemma sizing_prefixes_facts :
  forallb (fun q => dominant q Layout && is_sizing_prefix q)
          ["w-"; "h-"; "min-w-"; "max-w-"; "min-h-"; "max-h-"] = true.
Proof. vm_compute. reflexivity. Qed.

Lemma directional_prefixes_facts :
  forallb (fun q => dominant q Layout
                    && (negb (is_sizing_prefix q) && is_directional_border_prefix q))
          ["border-t-"; "border-b-"; "border-l-"; "border-r-"; "border-x-"; "border-y-"]
  = true.
Proof. vm_compute. reflexivity. Qed.

Lemma spacing_prefixes_dominant :
  forallb (fun q => String.eqb q "gap-" || dominant q Spacing)
          (prefixes_of Spacing) = true.
Proof. vm_compute. reflexivity. Qed.

Lemma color_prefixes_dominant :
  forallb (fun q => dominant q Colors) ["bg-"; "ring-"; "divide-"] = true.
Proof. vm_compute. reflexivity. Qed.

(** The prefixes of the validated branches are among the governed ones. *)
Lemma strict_prefixes_governed category :
  category = Colors \/ category = Spacing ->
  forallb (fun p => string_in p GOVERNED_PREFIXES) (prefixes_of category) = true.
Proof. intros [->| ->]; vm_compute; reflexivity. Qed.

Lemma layout_prefixes_governed :
  forallb (fun p => negb (is_sizing_prefix p || is_directional_border_prefix p)
                    || string_in p GOVERNED_PREFIXES)
          (prefixes_of Layout) = true.
Proof. vm_compute. reflexivity. Qed.

Lemma string_in_In s l : string_in s l = true -> In s l.
Proof.
  unfold string_in. intros H. apply existsb_exists in H as [x [Hx E]].
  apply String.eqb_eq in E. subst. exact Hx.
Qed.

Lemma string_in_of_In s l : In s l -> string_in s l = true.
Proof.
  intros H. unfold string_in. apply existsb_exists.
  exists s. split; [exact H|apply String.eqb_refl].
Qed.

(** What a truthy read is. *)
Lemma truthy_get_reads (o : JsObject.obj string) k :
  truthy_get o k = true <-> reads_truthy o k.
Proof.
  unfold truthy_get, reads_truthy. destruct (JsObject.get_own o k) as [v|].
  - split.
    + intros H. left. exists v. split; [reflexivity|].
      intros ->. discriminate H.
    + intros [(w & [= <-] & Hw)|[H _]]; [|discriminate].
      destruct (truthy v) eqn:T; [reflexivity|]. apply truthy_false in T. contradiction.
  - split.
    + intros H. right. split; [reflexivity|apply string_in_In, H].
    + intros [(w & H & _)|[_ H]]; [discriminate|apply string_in_of_In, H].
Qed.

Lemma strict_condition token (known : bool) :
  negb (truthy token && negb known) = true <->
  token = EmptyString \/ known = true.
Proof.
  rewrite <- truthy_false.
  destruct (truthy token), known; simpl; intuition congruence.
Qed.

(** X2. Sizing classes. For the prefixes [w-], [h-], [min-w-], [max-w-],
    [min-h-] and [max-h-], a class without a pair of brackets is accepted
    exactly when what follows the prefix is empty, a standard size
    keyword or fraction, or reads as truthy in the resolved spacing
    scale: it is a key of the scale with a non-empty value, or no key of
    it and the name of a property inherited from [Object.prototype]. A
    key whose value is empty is rejected; [hasOwnProperty] is accepted. *)
Theorem sizing_class_rule (truth : ResolvedTruth) (q rest : string) :
  In q SIZING_PREFIXES ->
  is_arbitrary (q ++ rest) = false ->
  SIZING_PREFIXES = ["w-"; "h-"; "min-w-"; "max-w-"; "min-h-"; "max-h-"] /\
  (accepted truth (q ++ rest) = true <->
   rest = EmptyString \/ isStandardSizeKeyword rest = true
   \/ reads_truthy (spacing truth) rest).
Proof.
  intros Hin Hb. split; [exact SIZING_PREFIXES_list|].
  rewrite <- truthy_get_reads.
  rewrite SIZING_PREFIXES_list in Hin.
  pose proof (proj1 (forallb_forall _ _) sizing_prefixes_facts q Hin) as Hd.
  cbv beta in Hd. apply andb_true_iff in Hd as [Hd Hs].
  rewrite (accepted_if truth (q ++ rest)
             (truthy rest && negb (isStandardSizeKeyword rest)
              && negb (truthy_get (spacing truth) rest))
             (suggestion_message (q ++ rest) q rest
                (STANDARD_SIZE_KEYWORDS ++ JsObject.keys (spacing truth))%list)).
  - rewrite <- truthy_false.
    destruct (truthy rest), (isStandardSizeKeyword rest),
             (truthy_get (spacing truth) rest); simpl; intuition congruence.
  - intros st. rewrite (validate_class_dominant truth st q Layout rest Hd Hb).
    rewrite Hs. reflexivity.
Qed.

Lemma sizing_class_rule_witness :
  accepted sampleResolved "w-full" = true /\
  accepted sampleResolved "max-w-4" = true /\
  accepted sampleResolved "h-1/2" = true /\
  accepted ghostResolved "w-hasOwnProperty" = true /\
  JsObject.get_own (spacing ghostResolved) "zero" = Some EmptyString /\
  accepted ghostResolved "w-zero" = false /\
  accepted ghostResolved "w-8" = false.
Proof.
  split; [|split; [|split; [|split; [|split; [|split]]]]].
  - apply (proj2 (sizing_class_rule sampleResolved "w-" "full"
                    ltac:(vm_compute; tauto) eq_refl)).
    right. left. reflexivity.
  - apply (proj2 (sizing_class_rule sampleResolved "max-w-" "4"
                    ltac:(vm_compute; tauto) eq_refl)).
    right. right. left. exists "1rem". split; [reflexivity|discriminate].
  - reflexivity.
  - apply (proj2 (sizing_class_rule ghostResolved "w-" "hasOwnProperty"
                    ltac:(vm_compute; tauto) eq_refl)).
    right. right. right. split; [reflexivity|vm_compute; tauto].
  - reflexivity.
  - reflexivity.
  - reflexivity.
Defined.

(** X3. Directional border classes. For the prefixes [border-t-],
    [border-b-], [border-l-], [border-r-], [border-x-] and [border-y-], a
    class without a pair of brackets is accepted exactly when what follows
    the prefix is empty or reads as truthy in the resolved spacing scale:
    it is a key of the scale with a non-empty value, or no key of it and
    the name of a property inherited from [Object.prototype]. A color
    after a directional border prefix is judged by the spacing scale; a
    key whose value is empty is rejected; [valueOf] is accepted. *)
Theorem directional_border_class_rule (truth : ResolvedTruth) (q rest : string) :
  In q DIRECTIONAL_BORDER_PREFIXES ->
  is_arbitrary (q ++ rest) = false ->
  DIRECTIONAL_BORDER_PREFIXES
    = ["border-t-"; "border-b-"; "border-l-"; "border-r-"; "border-x-"; "border-y-"] /\
  (accepted truth (q ++ rest) = true <->
   rest = EmptyString \/ reads_truthy (spacing truth) rest).
Proof.
  intros Hin Hb. split; [exact DIRECTIONAL_BORDER_PREFIXES_list|].
  rewrite <- truthy_get_reads.
  rewrite DIRECTIONAL_BORDER_PREFIXES_list in Hin.
  pose proof (proj1 (forallb_forall _ _) directional_prefixes_facts q Hin) as Hd.
  cbv beta in Hd. apply andb_true_iff in Hd as [Hd Hs].
  apply andb_true_iff in Hs as [Hs Hdir].
  apply negb_true_iff in Hs.
  rewrite (accepted_if truth (q ++ rest)
             (truthy rest && negb (truthy_get (spacing truth) rest))
             (suggestion_message (q ++ rest) q rest (JsObject.keys (spacing truth)))).
  - apply strict_condition.
  - intros st. rewrite (validate_class_dominant truth st q Layout rest Hd Hb).
    rewrite Hs, Hdir. apply strict_check_if.
Qed.

Lemma directional_border_class_rule_witness :
  accepted sampleResolved "border-t-4" = true /\
  accepted sampleResolved "border-t-red" = false /\
  accepted ghostResolved "border-t-valueOf" = true /\
  JsObject.get_own (spacing ghostResolved) "zero" = Some EmptyString /\
  accepted ghostResolved "border-t-zero" = false.
Proof.
  split; [|split; [|split; [|split]]].
  - apply (proj2 (directional_border_class_rule sampleResolved "border-t-" "4"
                    ltac:(vm_compute; tauto) eq_refl)).
    right. left. exists "1rem". split; [reflexivity|discriminate].
  - reflexivity.
  - apply (proj2 (directional_border_class_rule ghostResolved "border-t-" "valueOf"
                    ltac:(vm_compute; tauto) eq_refl)).
    right. right. split; [reflexivity|vm_compute; tauto].
  - reflexivity.
  - reflexivity.
Defined.

(** X4. Strictly validated classes. After [bg-], [ring-] or [divide-] a
    class without a pair of brackets is accepted exactly when the rest is
    empty or reads as truthy in the resolved colors; after a spacing
    prefix other than [gap-] exactly when the rest is empty or reads as
    truthy in the resolved spacing scale. A rest reads as truthy when it
    is a key with a non-empty value, or no key and the name of a property
    inherited from [Object.prototype]: a key whose value is empty is
    rejected, and [constructor] is accepted. *)
Theorem strict_class_rule (truth : ResolvedTruth) (q rest : string) :
  is_arbitrary (q ++ rest) = false ->
  (In q ["bg-"; "ring-"; "divide-"] ->
   (accepted truth (q ++ rest) = true <->
    rest = EmptyString \/ reads_truthy (colors truth) rest)) /\
  (In q (prefixes_of Spacing) -> q <> "gap-" ->
   (accepted truth (q ++ rest) = true <->
    rest = EmptyString \/ reads_truthy (spacing truth) rest)).
Proof.
  intros Hb. rewrite <- !truthy_get_reads. split.
  - intros Hin.
    pose proof (proj1 (forallb_forall _ _) color_prefixes_dominant q Hin) as Hd.
    cbv beta in Hd.
    rewrite (accepted_if truth (q ++ rest)
               (truthy rest && negb (truthy_get (colors truth) rest))
               (suggestion_message (q ++ rest) q rest (JsObject.keys (colors truth)))).
    + apply strict_condition.
    + intros st. rewrite (validate_class_dominant truth st q Colors rest Hd Hb).
      apply strict_check_if.
  - intros Hin Hne.
    pose proof (proj1 (forallb_forall _ _) spacing_prefixes_dominant q Hin) as Hd.
    cbv beta in Hd. apply orb_true_iff in Hd as [Hd|Hd].
    { apply String.eqb_eq in Hd. contradiction. }
    rewrite (accepted_if truth (q ++ rest)
               (truthy rest && negb (truthy_get (spacing truth) rest))
               (suggestion_message (q ++ rest) q rest (JsObject.keys (spacing truth)))).
    + apply strict_condition.
    + intros st. rewrite (validate_class_dominant truth st q Spacing rest Hd Hb).
      apply strict_check_if.
Qed.

Lemma strict_class_rule_witness :
  accepted sampleResolved "ring-red" = true /\
  accepted sampleResolved "ring-2" = false /\
  accepted sampleResolved "space-x-8" = true /\
  accepted ghostResolved "bg-constructor" = true /\
  JsObject.get_own (colors ghostResolved) "ghost" = Some EmptyString /\
  accepted ghostResolved "bg-ghost" = false.
Proof.
  split; [|split; [|split; [|split; [|split]]]].
  - apply (proj2 (proj1 (strict_class_rule sampleResolved "ring-" "red" eq_refl)
                    (or_intror (or_introl eq_refl)))).
    right. left. exists "#f00". split; [reflexivity|discriminate].
  - reflexivity.
  - apply (proj2 (proj2 (strict_class_rule sampleResolved "space-x-" "8" eq_refl)
                    ltac:(vm_compute; tauto) ltac:(discriminate))).
    right. left. exists "2rem". split; [reflexivity|discriminate].
  - apply (proj2 (proj1 (strict_class_rule ghostResolved "bg-" "constructor" eq_refl)
                    (or_introl eq_refl))).
    right. right. split; [reflexivity|vm_compute; tauto].
  - reflexivity.
  - reflexivity.
Defined.

Lemma prefix_entries_prefixes_of category p :
  In (category, p) (prefix_entries SCOPED_PREFIXES) -> In p (prefixes_of category).
Proof.
  unfold prefixes_of, prefix_entries. intros Hin.
  apply in_flat_map in Hin as [entry [He Hp]].
  apply in_map_iff in Hp as [p' [Hp Hin]]. injection Hp as <- <-.
  apply in_flat_map. exists entry. split; [exact He|].
  destruct (fst entry); exact Hin.
Qed.

(** X5. Where a rejection can come from. A class is rejected either
    because it has an opening and a closing bracket, with the message for
    arbitrary values, or because it is one of the color, spacing, sizing
    or directional border prefixes followed by a non-empty rest, with a
    message of suggestions: every other class is put in the code. *)
Theorem rejection_origin (truth : ResolvedTruth) (className msg : string) :
  verdict truth className = Some msg ->
  (is_arbitrary className = true /\ msg = arbitrary_message className) \/
  (is_arbitrary className = false /\
   exists q rest options,
     In q GOVERNED_PREFIXES /\ className = q ++ rest /\ rest <> EmptyString /\
     msg = suggestion_message className q rest options).
Proof.
  unfold verdict, validate_class, is_arbitrary.
  destruct (includes className "[" && includes className "]").
  { cbn [errorList reject app]. intros [= <-]. left. split; reflexivity. }
  intros H. right. split; [reflexivity|].
  destruct (findLongestMatch className) as [[category p]|] eqn:M; [|discriminate].
  apply findLongestMatch_sound in M as [Hin Hm].
  apply prefix_entries_prefixes_of in Hin.
  apply prefix_matches_split in Hm.
  remember (extractToken className p) as token eqn:Et.
  assert (Strict : forall family,
            match errorList (strict_check
                    {| validClasses := []; errorList := []; stillValid := true |}
                    className p token family) with
            | [] => None
            | m :: _ => Some m
            end = Some msg ->
            token <> EmptyString /\
            msg = suggestion_message className p token (JsObject.keys family)).
  { intros family. unfold strict_check.
    destruct (truthy token) eqn:T; cbn [andb negb errorList accept app];
      [|discriminate].
    destruct (truthy_get family token); cbn [andb negb errorList accept reject app];
      [discriminate|].
    intros [= <-]. split; [|reflexivity].
    intros E. apply truthy_false in E. congruence. }
  assert (Gs : forall c, c = Colors \/ c = Spacing ->
                         In p (prefixes_of c) -> In p GOVERNED_PREFIXES).
  { intros c Hc Hp. apply string_in_In.
    exact (proj1 (forallb_forall _ _) (strict_prefixes_governed c Hc) p Hp). }
  assert (Gl : category = Layout ->
               is_sizing_prefix p || is_directional_border_prefix p = true ->
               In p GOVERNED_PREFIXES).
  { intros -> E. apply string_in_In.
    pose proof (proj1 (forallb_forall _ _) layout_prefixes_governed p Hin) as G.
    cbv beta in G. rewrite E in G.
    destruct (string_in p GOVERNED_PREFIXES); [reflexivity|discriminate G]. }
  destruct category.
  - assert (S : token <> EmptyString /\
                msg = suggestion_message className p token
                        (JsObject.keys (colors truth))).
    { destruct (String.eqb p "text-");
        [destruct (string_in token TEXT_SIZES); [discriminate|]|];
        [apply Strict, H|].
      destruct (String.eqb p "border-");
        [destruct (string_in token BORDER_WIDTHS); [discriminate|]|];
        apply Strict, H. }
    destruct S as [Hne ->]. exists p, token, (JsObject.keys (colors truth)).
    split; [exact (Gs Colors (or_introl eq_refl) Hin)|]. repeat split; assumption.
  - destruct (Strict _ H) as [Hne ->].
    exists p, token, (JsObject.keys (spacing truth)).
    split; [exact (Gs Spacing (or_intror eq_refl) Hin)|]. repeat split; assumption.
  - change (startsWith p "w-" || startsWith p "h-" || startsWith p "min-"
            || startsWith p "max-") with (is_sizing_prefix p) in H.
    change (startsWith p "border-t-" || startsWith p "border-b-"
            || startsWith p "border-l-" || startsWith p "border-r-"
            || startsWith p "border-x-" || startsWith p "border-y-")
      with (is_directional_border_prefix p) in H.
    destruct (is_sizing_prefix p) eqn:Es.
    + destruct (truthy token) eqn:T; cbn [andb errorList accept app] in H;
        [|discriminate].
      destruct (negb (isStandardSizeKeyword token)
                && negb (truthy_get (spacing truth) token)); [|discriminate].
      cbn [errorList reject app] in H. injection H as <-.
      exists p, token, (STANDARD_SIZE_KEYWORDS ++ JsObject.keys (spacing truth))%list.
      split; [exact (Gl eq_refl eq_refl)|].
      split; [exact Hm|]. split; [|reflexivity].
      intros E. apply truthy_false in E. congruence.
    + destruct (is_directional_border_prefix p) eqn:Ed; [|discriminate].
      destruct (Strict _ H) as [Hne ->].
      exists p, token, (JsObject.keys (spacing truth)).
      split; [exact (Gl eq_refl eq_refl)|].
      repeat split; assumption.
  - discriminate.
  - discriminate.
Qed.

Lemma rejection_origin_witness :
  exists q rest options,
    In q GOVERNED_PREFIXES /\ "p-giant" = q ++ rest /\ rest <> EmptyString /\
    "Invalid class 'p-giant'. Did you mean: 'p-4', 'p-8', 'p-px'?"
    = suggestion_message "p-giant" q rest options.
Proof.
  destruct (rejection_origin sampleResolved "p-giant"
              "Invalid class 'p-giant'. Did you mean: 'p-4', 'p-8', 'p-px'?"
              eq_refl) as [[H _]|[_ H]].
  - discriminate H.
  - exact H.
Defined.

(** ** The distance as a metric *)

Lemma lev_zero s : forall t, lev s t = 0 -> s = t.
Proof.
  induction s as [|x s IH]; intros t H.
  - rewrite lev_nil_l in H. destruct t; [reflexivity|discriminate].
  - destruct t as [|y t]; [discriminate|].
    rewrite lev_cons in H. destruct (Ascii.eqb x y) eqn:E; [|discriminate].
    apply Ascii.eqb_eq in E. subst y. f_equal. apply IH, H.
Qed.

Lemma lev_upper_bound s : forall t,
  lev s t <= Nat.max (List.length s) (List.length t).
Proof.
  induction s as [|x s IH]; intros t.
  - rewrite lev_nil_l. simpl. lia.
  - destruct t as [|y t]; [rewrite lev_nil_r; lia|].
    rewrite lev_cons. specialize (IH t). simpl List.length.
    destruct (Ascii.eqb x y); lia.
Qed.

Lemma edit_step_length s t :
  edit_step s t ->
  List.length t <= S (List.length s) /\ List.length s <= S (List.length t).
Proof.
  intros H. destruct H; rewrite !length_app; simpl; lia.
Qed.

Lemma edits_length n s t :
  edits n s t ->
  List.length t <= List.length s + n /\ List.length s <= List.length t + n.
Proof.
  induction 1 as [s|n s t u Hstep _ IH]; [lia|].
  apply edit_step_length in Hstep. lia.
Qed.

Lemma edits_trans n s t : edits n s t -> forall m u, edits m t u -> edits (n + m) s u.
Proof.
  induction 1 as [s|n s t v Hstep _ IH]; intros m u Hm; [exact Hm|].
  simpl. apply (edits_more Hstep). apply IH, Hm.
Qed.

Lemma chars_inj a b : chars a = chars b -> a = b.
Proof.
  unfold chars. intros H.
  rewrite <- (string_of_list_ascii_of_string a), <- (string_of_list_ascii_of_string b).
  rewrite H. reflexivity.
Qed.

(** X6. [levenshtein] is a metric on strings: it does not depend on the
    order of its arguments, it is zero exactly between equal strings, and
    it obeys the triangle inequality. It lies between the difference and
    the larger of the two lengths. *)
Theorem levenshtein_metric :
  (forall a b, levenshtein a b = levenshtein b a) /\
  (forall a b, levenshtein a b = 0 <-> a = b) /\
  (forall a b c, levenshtein a c <= levenshtein a b + levenshtein b c) /\
  (forall a b,
     String.length a - String.length b <= levenshtein a b /\
     String.length b - String.length a <= levenshtein a b /\
     levenshtein a b <= Nat.max (String.length a) (String.length b)).
Proof.
  split; [|split; [|split]].
  - intros a b. rewrite !levenshtein_lev. apply lev_sym.
  - intros a b. split.
    + rewrite levenshtein_lev. intros H. apply lev_zero in H.
      apply (f_equal (@rev ascii)) in H. rewrite !rev_involutive in H.
      symmetry. apply chars_inj, H.
    + intros ->. rewrite levenshtein_lev. apply lev_refl.
  - intros a b c.
    destruct (levenshtein_is_edit_distance a b) as [Hab _].
    destruct (levenshtein_is_edit_distance b c) as [Hbc _].
    destruct (levenshtein_is_edit_distance a c) as [_ Hmin].
    apply Hmin. exact (edits_trans _ _ _ Hab _ _ Hbc).
  - intros a b.
    destruct (levenshtein_is_edit_distance a b) as [Hab _].
    apply edits_length in Hab. rewrite !length_chars in Hab.
    split; [lia|]. split; [lia|].
    rewrite levenshtein_lev.
    pose proof (lev_upper_bound (rev (chars b)) (rev (chars a))) as U.
    rewrite !length_rev, !length_chars in U. lia.
Qed.

(** ** Class attributes *)

Lemma prefix_eat_literal lit : forall s,
  String.prefix lit s = match eat_literal lit s with Some _ => true | None => false end.
Proof.
  induction lit as [|c lit IH]; intros s; [destruct s; reflexivity|].
  destruct s as [|d s]; [reflexivity|].
  cbn [String.prefix eat_literal].
  destruct (ascii_dec c d) as [->|Hn].
  - rewrite Ascii.eqb_refl. apply IH.
  - apply Ascii.eqb_neq in Hn. rewrite Hn. reflexivity.
Qed.

Lemma eat_literal_append lit more : forall s,
  eat_literal (lit ++ more) s =
  match eat_literal lit s with
  | Some rest => eat_literal more rest
  | None => None
  end.
Proof.
  induction lit as [|c lit IH]; intros s; [reflexivity|].
  destruct s as [|d s]; [reflexivity|].
  change (String c lit ++ more) with (String c (lit ++ more)).
  cbn [eat_literal]. destruct (Ascii.eqb c d); [apply IH|reflexivity].
Qed.

Lemma eat_literal_self lit rest : eat_literal lit (lit ++ rest) = Some rest.
Proof.
  induction lit as [|c lit IH]; [reflexivity|].
  change (String c lit ++ rest) with (String c (lit ++ rest)).
  cbn [eat_literal]. rewrite Ascii.eqb_refl. exact IH.
Qed.

(** The regular expression matches only where the text [class] begins. *)
Lemma classRegex_here_class s :
  String.prefix "class" s = false -> classRegex_here s = None.
Proof.
  intros H. rewrite prefix_eat_literal in H.
  unfold classRegex_here, match_attribute.
  change "className" with ("class" ++ "Name"). rewrite eat_literal_append.
  destruct (eat_literal "class" s); [discriminate|reflexivity].
Qed.

Lemma classRegex_exec_all_no_class s : forall skip,
  occurs "class" s = false -> classRegex_exec_all s skip = [].
Proof.
  induction s as [|c s IH]; intros skip H; [reflexivity|].
  cbn [occurs] in H. apply orb_false_iff in H as [Hp Hs].
  cbn [classRegex_exec_all]. destruct skip as [|k]; [|apply IH, Hs].
  rewrite (classRegex_here_class _ Hp). apply IH, Hs.
Qed.

(** X7. Markup in which the text [class] does not occur has no classes:
    it validates as valid, with no errors and with the empty string as
    code, whatever the resolved truth. *)
Theorem validateCode_without_class_attribute (markup : string)
                                             (truth : ResolvedTruth) :
  occurs "class" markup = false ->
  extractClasses markup = [] /\
  validateCode markup truth = {| isValid := true; code := EmptyString; errors := [] |}.
Proof.
  intros H.
  assert (E : extractClasses markup = []).
  { unfold extractClasses. rewrite (classRegex_exec_all_no_class _ _ H). reflexivity. }
  split; [exact E|].
  unfold validateCode. rewrite E. reflexivity.
Qed.

Lemma validateCode_without_class_attribute_witness :
  validateCode "<button id='save'>Save</button>" sampleResolved
  = {| isValid := true; code := EmptyString; errors := [] |}.
Proof.
  exact (proj2 (validateCode_without_class_attribute
                  "<button id='save'>Save</button>" sampleResolved eq_refl)).
Defined.

Lemma without_append p s t : without p (s ++ t) = without p s && without p t.
Proof.
  induction s as [|c s IH]; simpl; [reflexivity|].
  rewrite IH, andb_assoc. reflexivity.
Qed.

Lemma without_weaken (p q : ascii -> bool) s :
  (forall c, q c = true -> p c = true) -> without p s = true -> without q s = true.
Proof.
  intros Hpq. induction s as [|c s IH]; simpl; [reflexivity|].
  intros H. apply andb_true_iff in H as [Hc Hs]. rewrite (IH Hs), andb_true_r.
  destruct (q c) eqn:E; [|reflexivity]. rewrite (Hpq c E) in Hc. discriminate.
Qed.

Lemma without_join p sep tokens :
  without p sep = true ->
  (forall t, In t tokens -> without p t = true) ->
  without p (join sep tokens) = true.
Proof.
  intros Hsep. induction tokens as [|t tokens IH]; intros H; [reflexivity|].
  destruct tokens as [|t2 tokens]; [apply H; left; reflexivity|].
  change (join sep (t :: t2 :: tokens)) with (t ++ sep ++ join sep (t2 :: tokens)).
  rewrite !without_append, Hsep, (H t (or_introl eq_refl)). simpl.
  apply IH. intros u Hu. apply H. right. exact Hu.
Qed.

(** A run of characters outside [p], up to the first one in [p]. *)
Lemma span_without p body : forall c tail,
  without p body = true -> p c = true ->
  span (fun x => negb (p x)) (body ++ String c tail) = (body, String c tail).
Proof.
  induction body as [|x body IH]; intros c tail Hb Hc.
  - simpl. rewrite Hc. reflexivity.
  - simpl in Hb. apply andb_true_iff in Hb as [Hx Hb].
    change (String x body ++ String c tail) with (String x (body ++ String c tail)).
    cbn [span]. rewrite Hx, (IH c tail Hb Hc). reflexivity.
Qed.

Lemma span_fst_without p s : without p (fst (span (fun x => negb (p x)) s)) = true.
Proof.
  induction s as [|c s IH]; [reflexivity|].
  cbn [span]. destruct (negb (p c)) eqn:E; [|reflexivity].
  destruct (span (fun x => negb (p x)) s) as [run rest]. cbn [fst] in *.
  simpl. rewrite E, IH. reflexivity.
Qed.

(** The attribute pattern on an attribute written without spaces, its
    value between two quotes and nothing after. *)
Lemma match_attribute_plain name braces (is_quote : ascii -> bool) q body :
  is_quote q = true -> is_space q = false -> Ascii.eqb q "{" = false ->
  without is_quote body = true -> truthy body = true ->
  match_attribute name braces is_quote
    (name ++ "=" ++ String q (body ++ String q EmptyString))
  = Some (body, EmptyString).
Proof.
  intros Hq Hs Hb Hbody Ht. unfold match_attribute.
  rewrite eat_literal_self.
  change ("=" ++ String q (body ++ String q EmptyString))
    with (String "=" (String q (body ++ String q EmptyString))).
  cbn [span is_space]. 
  change (is_space "=") with false. cbn [snd eat_char].
  change (Ascii.eqb "=" "=") with true. cbv iota.
  cbn [span]. rewrite Hs. cbn [snd].
  assert (E : (if braces
               then eat_optional "{" (String q (body ++ String q EmptyString))
               else String q (body ++ String q EmptyString))
              = String q (body ++ String q EmptyString)).
  { destruct braces; [|reflexivity]. cbn [eat_optional]. rewrite Hb. reflexivity. }
  rewrite E. cbn [eat_char]. rewrite Hq.
  rewrite (span_without is_quote body q EmptyString Hbody Hq), Ht.
  cbn [eat_char]. rewrite Hq. destruct braces; reflexivity.
Qed.

Lemma classRegex_exec_all_skip s : forall skip,
  String.length s <= skip -> classRegex_exec_all s skip = [].
Proof.
  induction s as [|c s IH]; intros skip H; [reflexivity|].
  simpl in H. destruct skip as [|k]; [lia|].
  cbn [classRegex_exec_all]. apply IH. lia.
Qed.

(** One attribute, matched at the start of the text and up to its end. *)
Lemma classRegex_exec_all_one s group :
  classRegex_here s = Some (group, EmptyString) ->
  classRegex_exec_all s 0 = [group].
Proof.
  intros H. destruct s as [|c s].
  - vm_compute in H. discriminate.
  - cbn [classRegex_exec_all]. rewrite H. f_equal.
    apply classRegex_exec_all_skip. simpl. lia.
Qed.

Lemma filter_truthy_all tokens :
  (forall t, In t tokens -> truthy t = true) -> filter truthy tokens = tokens.
Proof.
  induction tokens as [|t tokens IH]; intros H; [reflexivity|].
  simpl. rewrite (H t (or_introl eq_refl)). f_equal.
  apply IH. intros u Hu. apply H. right. exact Hu.
Qed.

Lemma truthy_append_l s t : truthy s = true -> truthy (s ++ t) = true.
Proof. destruct s; [discriminate|reflexivity]. Qed.

Lemma truthy_join sep tokens :
  tokens <> [] -> (forall t, In t tokens -> truthy t = true) ->
  truthy (join sep tokens) = true.
Proof.
  intros Hne H. destruct tokens as [|t tokens]; [congruence|].
  destruct tokens as [|t2 tokens]; [apply H; left; reflexivity|].
  change (join sep (t :: t2 :: tokens)) with (t ++ sep ++ join sep (t2 :: tokens)).
  apply truthy_append_l, H. left. reflexivity.
Qed.

(** The classes of one attribute whose value is the given classes
    separated by single spaces. *)
Lemma extractClasses_of_group s tokens :
  tokens <> [] ->
  (forall t, In t tokens -> truthy t = true /\ no_space t = true) ->
  classRegex_here s = Some (join " " tokens, EmptyString) ->
  extractClasses s = tokens.
Proof.
  intros Hne Htok H. unfold extractClasses.
  rewrite (classRegex_exec_all_one _ _ H). cbn [flat_map].
  rewrite app_nil_r. unfold split_spaces.
  rewrite (split_join tokens false Hne Htok).
  apply filter_truthy_all. intros t Ht. apply Htok, Ht.
Qed.

Lemma class_attribute_classes tokens :
  (forall t, In t tokens ->
             truthy t = true /\ no_space t = true /\ without is_quote2 t = true) ->
  extractClasses ("class='" ++ join " " tokens ++ "'") = tokens.
Proof.
  intros Htok. destruct tokens as [|t0 tokens0]; [reflexivity|].
  set (tokens := t0 :: tokens0) in *.
  apply extractClasses_of_group; [discriminate| |].
  - intros t Ht. destruct (Htok t Ht) as (H1 & H2 & _). split; assumption.
  - unfold classRegex_here.
    assert (N : match_attribute "className" true is_quote3
                  ("class='" ++ join " " tokens ++ "'") = None) by reflexivity.
    rewrite N.
    apply (match_attribute_plain "class" false is_quote2 "'" (join " " tokens));
      try reflexivity.
    + apply without_join; [reflexivity|]. intros t Ht. apply Htok, Ht.
    + apply truthy_join; [discriminate|]. intros t Ht. apply Htok, Ht.
Qed.

(** X8. Classes written in an attribute come back as they are: for
    non-empty classes without white space or quotes, the classes
    extracted from a [class] attribute in single quotes, and from a
    [className] attribute in double quotes, whose value is the classes
    separated by single spaces, are these classes in the same order. *)
Theorem extractClasses_round_trip (tokens : list string) :
  (forall t, In t tokens ->
             truthy t = true /\ no_space t = true /\ without is_quote3 t = true) ->
  extractClasses ("class='" ++ join " " tokens ++ "'") = tokens /\
  extractClasses ("className=" ++ String "034" (join " " tokens ++ String "034" EmptyString))
  = tokens.
Proof.
  intros Htok. split.
  - apply class_attribute_classes. intros t Ht.
    destruct (Htok t Ht) as (H1 & H2 & H3). split; [exact H1|]. split; [exact H2|].
    apply (without_weaken is_quote3 is_quote2); [|exact H3].
    intros c. unfold is_quote2, is_quote3. intros ->. reflexivity.
  - destruct tokens as [|t0 tokens0]; [reflexivity|].
    set (tokens := t0 :: tokens0) in *.
    apply extractClasses_of_group; [discriminate| |].
    + intros t Ht. destruct (Htok t Ht) as (H1 & H2 & _). split; assumption.
    + assert (M : match_attribute "className" true is_quote3
                    ("className=" ++
                     String "034" (join " " tokens ++ String "034" EmptyString))
                  = Some (join " " tokens, EmptyString)).
      { apply (match_attribute_plain "className" true is_quote3 "034"
                 (join " " tokens)); try reflexivity.
        - apply without_join; [reflexivity|]. intros t Ht. apply Htok, Ht.
        - apply truthy_join; [discriminate|]. intros t Ht. apply Htok, Ht. }
      unfold classRegex_here. rewrite M. reflexivity.
Qed.

Lemma extractClasses_round_trip_witness :
  extractClasses "class='flex p-4 bg-red'" = ["flex"; "p-4"; "bg-red"].
Proof.
  apply (proj1 (extractClasses_round_trip ["flex"; "p-4"; "bg-red"]
                  ltac:(intros t [<-|[<-|[<-|[]]]]; repeat split))).
Defined.

Lemma match_attribute_group name braces (is_quote : ascii -> bool) s group rest :
  match_attribute name braces is_quote s = Some (group, rest) ->
  without is_quote group = true.
Proof.
  unfold match_attribute.
  destruct (eat_literal name s) as [s1|]; [|discriminate].
  destruct (eat_char (Ascii.eqb "=") (snd (span is_space s1))) as [s2|]; [|discriminate].
  destruct (eat_char is_quote _) as [s3|]; [|discriminate].
  pose proof (span_fst_without is_quote s3) as W.
  destruct (span (fun c => negb (is_quote c)) s3) as [g s4]. cbn [fst] in W.
  destruct (truthy g); [|discriminate].
  destruct (eat_char is_quote s4); [|discriminate].
  intros [= <- _]. exact W.
Qed.

Lemma classRegex_here_group s group rest :
  classRegex_here s = Some (group, rest) -> without is_quote2 group = true.
Proof.
  unfold classRegex_here.
  destruct (match_attribute "className" true is_quote3 s) as [[g r]|] eqn:M.
  - intros [= <- _]. apply match_attribute_group in M.
    apply (without_weaken is_quote3 is_quote2); [|exact M].
    intros c. unfold is_quote2, is_quote3. intros ->. reflexivity.
  - apply match_attribute_group.
Qed.

Lemma classRegex_exec_all_groups s : forall skip group,
  In group (classRegex_exec_all s skip) -> without is_quote2 group = true.
Proof.
  induction s as [|c s IH]; intros skip group H; [destruct H|].
  cbn [classRegex_exec_all] in H. destruct skip as [|k]; [|exact (IH _ _ H)].
  destruct (classRegex_here (String c s)) as [[g r]|] eqn:M; [|exact (IH _ _ H)].
  destruct H as [<-|H]; [exact (classRegex_here_group _ _ _ M)|exact (IH _ _ H)].
Qed.

Lemma split_loop_without p s : forall piece in_run c,
  without p piece = true -> without p s = true ->
  In c (split_loop s piece in_run) -> without p c = true.
Proof.
  induction s as [|ch s IH]; intros piece in_run c Hp Hs Hin.
  - destruct Hin as [<-|[]]. exact Hp.
  - simpl in Hs. apply andb_true_iff in Hs as [Hch Hs].
    cbn [split_loop] in Hin. destruct (is_space ch).
    + destruct in_run.
      * exact (IH _ _ _ Hp Hs Hin).
      * destruct Hin as [<-|Hin]; [exact Hp|].
        exact (IH EmptyString true c eq_refl Hs Hin).
    + refine (IH _ _ _ _ Hs Hin).
      rewrite without_append, Hp. cbn [without andb]. rewrite Hch. reflexivity.
Qed.

(** No extracted class holds a single or a double quote. *)
Lemma extractClasses_quote_free markup c :
  In c (extractClasses markup) -> without is_quote2 c = true.
Proof.
  unfold extractClasses. intros H.
  apply in_flat_map in H as [classString [Hg H]].
  apply filter_In in H as [H _].
  apply classRegex_exec_all_groups in Hg.
  exact (split_loop_without is_quote2 classString EmptyString false c eq_refl Hg H).
Qed.

Lemma filter_idem (A : Type) (f : A -> bool) (l : list A) :
  filter f (filter f l) = filter f l.
Proof.
  induction l as [|x l IH]; [reflexivity|].
  simpl. destruct (f x) eqn:E; [|exact IH]. simpl. rewrite E, IH. reflexivity.
Qed.

Lemma forallb_filter_same (A : Type) (f : A -> bool) (l : list A) :
  forallb f (filter f l) = true.
Proof.
  induction l as [|x l IH]; [reflexivity|].
  simpl. destruct (f x) eqn:E; [|exact IH]. simpl. rewrite E, IH. reflexivity.
Qed.

Lemma rejections_accepted truth classes :
  forallb (accepted truth) classes = true -> rejections truth classes = [].
Proof.
  induction classes as [|c classes IH]; [reflexivity|].
  cbn [forallb]. intros H. apply andb_true_iff in H as [Hc H].
  unfold rejections. cbn [flat_map]. unfold accepted in Hc.
  destruct (verdict truth c); [discriminate|]. exact (IH H).
Qed.

(** X9. What [validateCode] returns as code is clean: put in a [class]
    attribute and validated again against the same truth, it is valid,
    has no errors and comes back unchanged. *)
Theorem validateCode_code_revalidates (markup : string) (truth : ResolvedTruth) :
  validateCode ("class='" ++ code (validateCode markup truth) ++ "'") truth
  = {| isValid := true; code := code (validateCode markup truth); errors := [] |}.
Proof.
  rewrite (validateCode_accumulates truth markup). cbn [code].
  set (kept := filter (accepted truth) (extractClasses markup)).
  assert (E : extractClasses ("class='" ++ join " " kept ++ "'") = kept).
  { apply class_attribute_classes. intros t Ht.
    apply filter_In in Ht as [Ht _].
    destruct (extractClasses_tokens markup t Ht) as [H1 H2].
    split; [exact H1|]. split; [exact H2|].
    exact (extractClasses_quote_free markup t Ht). }
  rewrite validateCode_accumulates, E. unfold kept.
  rewrite filter_idem, forallb_filter_same.
  rewrite (rejections_accepted truth _ (forallb_filter_same _ _ _)).
  reflexivity.
Qed.

(** ** From the configuration to the verdict *)

Lemma get_own_resolved_colors defaultTheme userTruth k :
  wf_truth userTruth = true -> wf_families defaultTheme = true ->
  JsObject.get_own (colors (resolveTruth defaultTheme userTruth)) k =
  match JsObject.get_own (colors (extend userTruth)) k with
  | Some v => Some v
  | None =>
      JsObject.get_own match colors (override userTruth) with
                       | [] => colors defaultTheme
                       | _ :: _ => colors (override userTruth)
                       end k
  end.
Proof.
  intros Ht Hd. rewrite resolveTruth_colors.
  apply get_own_spread2; [exact (wf_baseline_colors defaultTheme userTruth Ht Hd)|].
  unfold wf_truth, wf_families in Ht.
  apply andb_true_iff in Ht as [Ht _]. apply andb_true_iff in Ht as [Ht _]. exact Ht.
Qed.

Lemma get_own_resolved_spacing defaultTheme userTruth k :
  wf_truth userTruth = true -> wf_families defaultTheme = true ->
  JsObject.get_own (spacing (resolveTruth defaultTheme userTruth)) k =
  match JsObject.get_own (spacing (extend userTruth)) k with
  | Some v => Some v
  | None =>
      JsObject.get_own match spacing (override userTruth) with
                       | [] => spacing defaultTheme
                       | _ :: _ => spacing (override userTruth)
                       end k
  end.
Proof.
  intros Ht Hd. rewrite resolveTruth_spacing.
  apply get_own_spread2; [exact (wf_baseline_spacing defaultTheme userTruth Ht Hd)|].
  unfold wf_truth, wf_families in Ht.
  apply andb_true_iff in Ht as [Ht _]. apply andb_true_iff in Ht as [_ Ht]. exact Ht.
Qed.

(** The verdict on a class made of a dominant strict prefix and a rest. *)
Lemma accepted_dominant_colors truth q rest :
  dominant q Colors = true -> is_arbitrary (q ++ rest) = false ->
  accepted truth (q ++ rest) = negb (truthy rest && negb (truthy_get (colors truth) rest)).
Proof.
  intros Hd Hb.
  apply (accepted_if truth (q ++ rest) _
           (suggestion_message (q ++ rest) q rest (JsObject.keys (colors truth)))).
  intros st. rewrite (validate_class_dominant truth st q Colors rest Hd Hb).
  apply strict_check_if.
Qed.

Lemma accepted_dominant_spacing truth q rest :
  dominant q Spacing = true -> is_arbitrary (q ++ rest) = false ->
  accepted truth (q ++ rest) = negb (truthy rest && negb (truthy_get (spacing truth) rest)).
Proof.
  intros Hd Hb.
  apply (accepted_if truth (q ++ rest) _
           (suggestion_message (q ++ rest) q rest (JsObject.keys (spacing truth)))).
  intros st. rewrite (validate_class_dominant truth st q Spacing rest Hd Hb).
  apply strict_check_if.
Qed.

Lemma truthy_get_own (o : JsObject.obj string) k v :
  JsObject.get_own o k = Some v -> v <> EmptyString -> truthy_get o k = true.
Proof.
  unfold truthy_get. intros -> Hv.
  destruct (truthy v) eqn:T; [reflexivity|]. apply truthy_false in T. contradiction.
Qed.

(** X10. A token the configuration adds under [theme.extend] can be
    used at once: with a non-empty value for key [k] in the extend colors,
    the classes [bg-k], [ring-k] and [divide-k] are accepted against the
    resolved truth, and with such a key in the extend spacing every
    spacing class on [k] other than [gap-k] is, whatever the defaults and
    the overrides hold. *)
Theorem extend_token_is_accepted (defaultTheme : TokenFamilies)
                                 (userTruth : ExtractedTruth)
                                 (q k v : string) :
  wf_truth userTruth = true ->
  wf_families defaultTheme = true ->
  v <> EmptyString ->
  is_arbitrary (q ++ k) = false ->
  (In q ["bg-"; "ring-"; "divide-"] ->
   JsObject.get_own (colors (extend userTruth)) k = Some v ->
   accepted (resolveTruth defaultTheme userTruth) (q ++ k) = true) /\
  (In q (prefixes_of Spacing) -> q <> "gap-" ->
   JsObject.get_own (spacing (extend userTruth)) k = Some v ->
   accepted (resolveTruth defaultTheme userTruth) (q ++ k) = true).
Proof.
  intros Ht Hdef Hv Hb. split.
  - intros Hin Hk.
    pose proof (proj1 (forallb_forall _ _) color_prefixes_dominant q Hin) as Hd.
    cbv beta in Hd.
    rewrite (accepted_dominant_colors _ q k Hd Hb).
    rewrite (truthy_get_own _ k v); [rewrite andb_false_r; reflexivity| |exact Hv].
    rewrite (get_own_resolved_colors defaultTheme userTruth k Ht Hdef), Hk.
    reflexivity.
  - intros Hin Hne Hk.
    pose proof (proj1 (forallb_forall _ _) spacing_prefixes_dominant q Hin) as Hd.
    cbv beta in Hd. apply orb_true_iff in Hd as [Hd|Hd].
    { apply String.eqb_eq in Hd. contradiction. }
    rewrite (accepted_dominant_spacing _ q k Hd Hb).
    rewrite (truthy_get_own _ k v); [rewrite andb_false_r; reflexivity| |exact Hv].
    rewrite (get_own_resolved_spacing defaultTheme userTruth k Ht Hdef), Hk.
    reflexivity.
Qed.

Lemma extend_token_is_accepted_witness :
  JsObject.get_own (colors sampleDefaults) "brand" = None /\
  accepted (resolveTruth sampleDefaults sampleTruth) "bg-brand" = true.
Proof.
  split; [reflexivity|].
  apply (proj1 (extend_token_is_accepted sampleDefaults sampleTruth
                  "bg-" "brand" "#123456" eq_refl eq_refl
                  ltac:(discriminate) eq_refl));
    [left; reflexivity|reflexivity].
Defined.

(** X11. An override replaces the defaults of its family. As soon as
    the configuration sets one color under [theme.colors], a color key
    that neither the override nor the extension declares is rejected in
    [bg-], [ring-] and [divide-] classes, also when the built-in defaults
    have it; without any override color the same class is accepted when
    the defaults give the key a non-empty value. Names inherited from the
    object prototype are left aside. *)
Theorem override_replaces_defaults (defaultTheme : TokenFamilies)
                                   (userTruth : ExtractedTruth)
                                   (q k : string) :
  wf_truth userTruth = true ->
  wf_families defaultTheme = true ->
  In q ["bg-"; "ring-"; "divide-"] ->
  is_arbitrary (q ++ k) = false ->
  k <> EmptyString ->
  string_in k OBJECT_PROTOTYPE_KEYS = false ->
  JsObject.get_own (colors (extend userTruth)) k = None ->
  (colors (override userTruth) <> [] ->
   JsObject.get_own (colors (override userTruth)) k = None ->
   accepted (resolveTruth defaultTheme userTruth) (q ++ k) = false) /\
  (colors (override userTruth) = [] ->
   forall v, JsObject.get_own (colors defaultTheme) k = Some v -> v <> EmptyString ->
   accepted (resolveTruth defaultTheme userTruth) (q ++ k) = true).
Proof.
  intros Ht Hdef Hin Hb Hk Hproto He.
  pose proof (proj1 (forallb_forall _ _) color_prefixes_dominant q Hin) as Hd.
  cbv beta in Hd.
  rewrite (accepted_dominant_colors _ q k Hd Hb).
  assert (Tk : truthy k = true).
  { destruct (truthy k) eqn:T; [reflexivity|]. apply truthy_false in T. contradiction. }
  rewrite Tk. cbn [andb]. rewrite negb_involutive.
  unfold truthy_get.
  rewrite (get_own_resolved_colors defaultTheme userTruth k Ht Hdef), He.
  split.
  - intros Hne Ho. destruct (colors (override userTruth)) as [|kv o]; [congruence|].
    rewrite Ho. exact Hproto.
  - intros Ho v Hv Hnv. rewrite Ho, Hv.
    destruct (truthy v) eqn:T; [reflexivity|]. apply truthy_false in T. contradiction.
Qed.

Lemma override_replaces_defaults_witness :
  JsObject.get_own (colors sampleDefaults) "red-500" = Some "#ef4444" /\
  accepted (resolveTruth sampleDefaults
              {| extend := {| colors := []; spacing := [] |};
                 override := {| colors := [("brand", "#123456")]; spacing := [] |} |})
           "bg-red-500" = false /\
  accepted (resolveTruth sampleDefaults emptyTruth) "bg-red-500" = true.
Proof.
  split; [reflexivity|]. split.
  - apply (proj1 (override_replaces_defaults sampleDefaults
                    {| extend := {| colors := []; spacing := [] |};
                       override := {| colors := [("brand", "#123456")];
                                      spacing := [] |} |}
                    "bg-" "red-500" eq_refl eq_refl (or_introl eq_refl) eq_refl
                    ltac:(discriminate) eq_refl eq_refl));
      [discriminate|reflexivity].
  - reflexivity.
Defined.

(** ** Extraction from the syntax tree *)

Lemma extract_literal node s :
  string_of_literal node = Some s -> extractObjectFromNode node = JStr s.
Proof.
  destruct node as [ps|v|v|n quasis|]; try discriminate.
  - intros [= <-]. reflexivity.
  - intros [= <-]. reflexivity.
  - destruct n as [|n]; [|discriminate].
    destruct quasis as [|cooked [|q quasis]]; try discriminate.
    intros [= <-]. reflexivity.
Qed.

Lemma forallb_filter_sub (A : Type) (f g : A -> bool) (l : list A) :
  forallb f l = true -> forallb f (filter g l) = true.
Proof.
  induction l as [|x l IH]; [reflexivity|]. cbn [forallb filter].
  intros H. apply andb_true_iff in H as [Hx Hl].
  destruct (g x); [cbn [forallb]; rewrite Hx|]; apply IH, Hl.
Qed.

(** A plain object stays one when properties are left out. *)
Lemma wf_filter (V : Type) (f : string * V -> bool) (o : JsObject.obj V) :
  JsObject.wf o = true -> JsObject.wf (filter f o) = true.
Proof.
  unfold JsObject.wf. induction o as [|[k v] o IH]; [reflexivity|].
  cbn [JsObject.keys map fst JsObject.ordered filter]. intros H.
  apply andb_true_iff in H as [Hk Ho].
  assert (Hsub : forallb (JsObject.precedes k) (JsObject.keys (filter f o)) = true).
  { clear -Hk. induction o as [|[k' v'] o IH]; [reflexivity|].
    cbn [JsObject.keys map fst forallb filter] in *.
    apply andb_true_iff in Hk as [H1 H2].
    destruct (f (k', v')); [cbn [map fst forallb]; rewrite H1|]; apply IH, H2. }
  destruct (f (k, v)); [|apply IH, Ho].
  cbn [JsObject.keys map fst JsObject.ordered].
  change (map fst (filter f o)) with (JsObject.keys (filter f o)).
  rewrite Hsub. apply IH, Ho.
Qed.

Lemma without_proto_id (flat : JsObject.obj string) :
  JsObject.get_own flat "__proto__" = None -> without_proto flat = flat.
Proof.
  unfold without_proto. induction flat as [|[k v] flat IH]; [reflexivity|].
  cbn [JsObject.get_own filter fst]. destruct (String.eqb k "__proto__"); [discriminate|].
  intros H. cbn [negb]. rewrite (IH H). reflexivity.
Qed.

Lemma get_own_without_proto (flat : JsObject.obj string) k :
  JsObject.get_own (without_proto flat) k =
  if String.eqb k "__proto__" then None else JsObject.get_own flat k.
Proof.
  unfold without_proto. induction flat as [|[k0 v0] flat IH]; cbn [filter fst JsObject.get_own].
  - destruct (String.eqb k "__proto__"); reflexivity.
  - destruct (String.eqb k0 "__proto__") eqn:E0; cbn [negb].
    + rewrite IH. apply String.eqb_eq in E0. subst k0.
      destruct (String.eqb k "__proto__") eqn:Ek; [reflexivity|].
      rewrite String.eqb_sym, Ek. reflexivity.
    + cbn [JsObject.get_own]. rewrite IH.
      destruct (String.eqb k0 k) eqn:E; [|reflexivity].
      apply String.eqb_eq in E. subst k0. rewrite E0. reflexivity.
Qed.

(** Assigning the properties of a flat mapping is copying all of them but
    [__proto__]. *)
Lemma put_all_without_proto (flat : JsObject.obj string) : forall result,
  JsObject.get_own result "__proto__" = None ->
  put_all result flat = JsObject.assign result (without_proto flat).
Proof.
  unfold put_all, JsObject.assign, without_proto.
  induction flat as [|[k v] flat IH]; intros result H; [reflexivity|].
  cbn [fold_left filter fst snd].
  rewrite (IH _ (no_proto_put _ k v H)).
  destruct (String.eqb k "__proto__") eqn:E; cbn [negb].
  - apply String.eqb_eq in E. subst k. rewrite (put_proto _ _ H). reflexivity.
  - cbn [fold_left fst snd]. rewrite (put_set _ _ _ E). reflexivity.
Qed.

(** A mapping that is flat already is flattened to itself, the key
    [__proto__] apart. *)
Lemma flattenObject_flat flat :
  JsObject.wf flat = true -> flattenObject (as_object flat) EmptyString = without_proto flat.
Proof.
  intros Hwf. rewrite flattenObject_strings.
  change (truthy EmptyString) with false. cbv iota.
  replace (map (fun kv : string * string => (fst kv, snd kv)) flat) with flat.
  - rewrite put_all_without_proto by reflexivity.
    apply assign_empty, wf_filter, Hwf.
  - rewrite <- (map_id flat) at 1. apply map_ext. intros [k v]. reflexivity.
Qed.

(** X12. Flattening changes nothing in a mapping that is flat already:
    the flattened form of an object whose values are all strings is the
    object itself, but for an own key [__proto__], which the assignment
    to the result does not store; so flattening what [flattenObject]
    returned gives the same mapping again. *)
Theorem flattenObject_idempotent :
  (forall flat, JsObject.wf flat = true ->
                flattenObject (as_object flat) EmptyString = without_proto flat) /\
  (forall flat, JsObject.wf flat = true ->
                JsObject.get_own flat "__proto__" = None ->
                flattenObject (as_object flat) EmptyString = flat) /\
  (forall obj prefix,
     flattenObject (as_object (flattenObject obj prefix)) EmptyString
     = flattenObject obj prefix).
Proof.
  split; [exact flattenObject_flat|]. split.
  - intros flat Hwf Hno. rewrite (flattenObject_flat _ Hwf). apply without_proto_id, Hno.
  - intros obj prefix. rewrite (flattenObject_flat _ (wf_flattenObject obj prefix)).
    apply without_proto_id, no_proto_flattenObject.
Qed.

Lemma flattenObject_idempotent_witness :
  JsObject.wf [("primary-light", "#fff"); ("brand", "#123")] = true /\
  JsObject.get_own [("primary-light", "#fff"); ("brand", "#123")] "__proto__" = None /\
  flattenObject (JObj [("primary-light", JStr "#fff"); ("brand", JStr "#123")]
                      ObjectPrototype)
                EmptyString
  = [("primary-light", "#fff"); ("brand", "#123")] /\
  JsObject.wf [("brand", "#123"); ("__proto__", "#456")] = true /\
  flattenObject (as_object [("brand", "#123"); ("__proto__", "#456")]) EmptyString
  = [("brand", "#123")].
Proof.
  split; [reflexivity|]. split; [reflexivity|]. split; [|split; [reflexivity|]].
  - exact (proj1 (proj2 flattenObject_idempotent)
                 [("primary-light", "#fff"); ("brand", "#123")] eq_refl eq_refl).
  - exact (proj1 flattenObject_idempotent
                 [("brand", "#123"); ("__proto__", "#456")] eq_refl).
Defined.

(** The loop of [extractObjectFromNode] over the properties. *)
Lemma extractObjectFromNode_ObjectExpression properties :
  extractObjectFromNode (ObjectExpression properties) =
  object_value
    (fold_left (fun obj prop =>
                  match prop with
                  | ObjectProperty key value =>
                      assign_property obj (property_name key)
                                      (extractObjectFromNode value)
                  | SpreadElement | ObjectMethod => obj
                  end) properties new_object).
Proof. reflexivity. Qed.

(** Reading a key other than [__proto__] after an assignment. *)
Lemma get_own_assign_property o key value k :
  k <> "__proto__" ->
  JsObject.get_own (fst (assign_property o key value)) k =
  if String.eqb key k then Some value else JsObject.get_own (fst o) k.
Proof.
  intros Hk. unfold assign_property.
  destruct (String.eqb key "__proto__") eqn:E; cbn [andb].
  - apply String.eqb_eq in E. subst key.
    assert (N : String.eqb "__proto__" k = false)
      by (apply String.eqb_neq; intros H; apply Hk; symmetry; exact H).
    destruct (negb (JsObject.has_own (fst o) "__proto__") && setter_in_reach (snd o)).
    + rewrite N. destruct value; reflexivity.
    + cbn [fst]. rewrite get_own_set, N. reflexivity.
  - cbn [fst]. apply get_own_set.
Qed.

(** An assignment that is not one of an object, an array or [null] to
    [__proto__] leaves an object literal without own [__proto__] as one. *)
Lemma assign_property_literal props key value :
  JsObject.get_own props "__proto__" = None ->
  (String.eqb key "__proto__" = true -> exists s, value = JStr s) ->
  assign_property (props, ObjectPrototype) key value =
  (if String.eqb key "__proto__" then props else JsObject.set props key value,
   ObjectPrototype).
Proof.
  intros Hno Hv. unfold assign_property, JsObject.has_own. cbn [fst snd setter_in_reach].
  destruct (String.eqb key "__proto__") eqn:E; [|reflexivity].
  apply String.eqb_eq in E. subst key. rewrite Hno. cbn [negb andb].
  destruct (Hv eq_refl) as [s ->]. reflexivity.
Qed.

(** Reading the object the loop builds: the last property with the name
    decides. *)
Lemma get_own_extracted properties k : k <> "__proto__" -> forall obj found,
  JsObject.get_own (fst obj) k = option_map extractObjectFromNode found ->
  JsObject.get_own
    (fst (fold_left (fun obj prop =>
                       match prop with
                       | ObjectProperty key value =>
                           assign_property obj (property_name key)
                                           (extractObjectFromNode value)
                       | SpreadElement | ObjectMethod => obj
                       end) properties obj)) k =
  option_map extractObjectFromNode
    (fold_left (fun found prop =>
                  match prop with
                  | ObjectProperty key value =>
                      if String.eqb (property_name key) k
                      then Some value else found
                  | SpreadElement | ObjectMethod => found
                  end) properties found).
Proof.
  intros Hk.
  induction properties as [|prop properties IH]; intros obj found H; [exact H|].
  cbn [fold_left]. apply IH. destruct prop as [key value| |]; [|exact H|exact H].
  rewrite (get_own_assign_property _ _ _ _ Hk).
  destruct (String.eqb (property_name key) k); [reflexivity|exact H].
Qed.

(** With string values only for [__proto__], the loop never leaves the
    object literals without own [__proto__]. *)
Lemma extracted_literal_object properties : forall props : list (string * jsval),
  proto_literals properties = true ->
  JsObject.get_own props "__proto__" = None ->
  exists props',
    fold_left (fun (obj : object) prop =>
                 match prop with
                 | ObjectProperty key value =>
                     assign_property obj (property_name key)
                                     (extractObjectFromNode value)
                 | SpreadElement | ObjectMethod => obj
                 end) properties ((props, ObjectPrototype) : object)
    = (props', ObjectPrototype) /\
    JsObject.get_own props' "__proto__" = None.
Proof.
  induction properties as [|prop properties IH]; intros props Hlit Hno.
  - exists props. split; [reflexivity|exact Hno].
  - cbn [proto_literals forallb] in Hlit. apply andb_true_iff in Hlit as [Hp Hlit].
    cbn [fold_left]. destruct prop as [key value| |]; [|apply IH; assumption..].
    rewrite assign_property_literal.
    + apply IH; [exact Hlit|].
      destruct (String.eqb (property_name key) "__proto__") eqn:E; [exact Hno|].
      rewrite get_own_set, E. exact Hno.
    + exact Hno.
    + intros E. rewrite E in Hp. cbn [negb orb] in Hp.
      destruct (string_of_literal value) as [s|] eqn:L; [|discriminate].
      exists s. apply extract_literal, L.
Qed.

(** X13. The object extracted from an object expression maps each
    name other than [__proto__] to the extraction of the last property
    written with that name; spread elements and methods add nothing, and
    such a name no property has is not a key of the object. A property
    [__proto__] goes through the setter of the prototype: when each one
    written has a literal text for value, the object has no own key
    [__proto__] and keeps the prototype of an object literal. *)
Theorem extractObjectFromNode_last_property_wins (properties : list Property) :
  exists props proto,
    extractObjectFromNode (ObjectExpression properties) = JObj props proto /\
    (forall k, k <> "__proto__" ->
       JsObject.get_own props k =
       option_map extractObjectFromNode (last_property properties k)) /\
    (proto_literals properties = true ->
     proto = ObjectPrototype /\ JsObject.get_own props "__proto__" = None).
Proof.
  rewrite extractObjectFromNode_ObjectExpression.
  set (built := fold_left _ properties new_object).
  exists (fst built), (snd built). split; [reflexivity|]. split.
  - intros k Hk. unfold last_property, built. apply (get_own_extracted _ _ Hk). reflexivity.
  - intros Hlit.
    destruct (extracted_literal_object properties [] Hlit eq_refl) as (props' & E & Hno).
    assert (B : built = (props', ObjectPrototype)) by exact E.
    rewrite B. split; [reflexivity|exact Hno].
Qed.

Lemma extractObjectFromNode_last_property_wins_witness :
  extractObjectFromNode
    (ObjectExpression [ObjectProperty (Identifier "__proto__") (StringLiteral "1rem");
                       ObjectProperty (Identifier "gutter") (StringLiteral "2rem");
                       SpreadElement;
                       ObjectProperty (KeyLiteral "gutter") (TemplateLiteral 0 ["3rem"])])
  = JObj [("gutter", JStr "3rem")] ObjectPrototype /\
  exists props proto,
    extractObjectFromNode
      (ObjectExpression [ObjectProperty (Identifier "__proto__") (StringLiteral "1rem");
                         ObjectProperty (Identifier "gutter") (StringLiteral "2rem");
                         SpreadElement;
                         ObjectProperty (KeyLiteral "gutter") (TemplateLiteral 0 ["3rem"])])
    = JObj props proto /\
    JsObject.get_own props "gutter" = Some (JStr "3rem") /\
    proto = ObjectPrototype /\ JsObject.get_own props "__proto__" = None.
Proof.
  split; [reflexivity|].
  destruct (extractObjectFromNode_last_property_wins
              [ObjectProperty (Identifier "__proto__") (StringLiteral "1rem");
               ObjectProperty (Identifier "gutter") (StringLiteral "2rem");
               SpreadElement;
               ObjectProperty (KeyLiteral "gutter") (TemplateLiteral 0 ["3rem"])])
    as (props & proto & E & Hget & Hproto).
  exists props, proto. split; [exact E|]. split.
  - exact (Hget "gutter" ltac:(discriminate)).
  - exact (Hproto eq_refl).
Defined.

(** ** The generation loop *)

Section GenerationLoop.
Variable config : Generator.Config.
Variable exchange : list Generator.Request -> Generator.Request -> Result string.
Variable resolvedTruth : ResolvedTruth.

Lemma callLLM_without_key messages sent :
  usable_key config = None ->
  Generator.callLLM config exchange messages sent = (Throw missing_key_error, sent).
Proof.
  unfold usable_key, Generator.callLLM.
  destruct (Generator.apiKey config) as [k|]; [|reflexivity].
  destruct (truthy k); [discriminate|reflexivity].
Qed.

Lemma callLLM_with_key k messages sent :
  usable_key config = Some k ->
  Generator.callLLM config exchange messages sent =
  (match exchange sent (request_for config k messages) with
   | Throw e => Throw e
   | Return content => Return (Generator.strip_markdown content)
   end, (sent ++ [request_for config k messages])%list).
Proof.
  unfold usable_key, Generator.callLLM.
  destruct (Generator.apiKey config) as [k'|]; [|discriminate].
  destruct (truthy k'); [|discriminate].
  intros [= ->]. reflexivity.
Qed.

(** One iteration of the loop. *)
Lemma attempts_without_key remaining attempt messages sent :
  usable_key config = None ->
  Generator.attempts config exchange resolvedTruth (S remaining) attempt messages sent =
  {| Generator.settled := Throw missing_key_error;
     Generator.warnings := []; Generator.requests := sent |}.
Proof.
  intros K. cbn [Generator.attempts]. rewrite (callLLM_without_key _ _ K). reflexivity.
Qed.

Lemma attempts_with_key k remaining attempt messages sent :
  usable_key config = Some k ->
  Generator.attempts config exchange resolvedTruth (S remaining) attempt messages sent =
  let request := request_for config k messages in
  match exchange sent request with
  | Throw e =>
      {| Generator.settled := Throw e; Generator.warnings := [];
         Generator.requests := (sent ++ [request])%list |}
  | Return reply =>
      let validationResult := validated resolvedTruth reply in
      if isValid validationResult then
        {| Generator.settled := Return (code validationResult);
           Generator.warnings := [];
           Generator.requests := (sent ++ [request])%list |}
      else if (attempt =? Generator.maxAttempts)%nat then
        {| Generator.settled := Return (code validationResult);
           Generator.warnings := [Generator.warningMessage (errors validationResult)];
           Generator.requests := (sent ++ [request])%list |}
      else
        Generator.attempts config exchange resolvedTruth remaining (S attempt)
          (messages ++ [feedback_message resolvedTruth reply])%list
          (sent ++ [request])%list
  end.
Proof.
  intros K. cbn [Generator.attempts]. rewrite (callLLM_with_key k _ _ K).
  cbv zeta. destruct (exchange sent (request_for config k messages)); reflexivity.
Qed.

(** The requests of a run of the loop: each one carries the messages of
    the one before and the report on its reply. *)
Lemma attempts_requests remaining : forall attempt messages sent,
  exists new,
    Generator.requests
      (Generator.attempts config exchange resolvedTruth remaining attempt messages sent)
    = (sent ++ new)%list /\
    List.length new <= remaining /\
    (forall r, nth_error new 0 = Some r ->
               Generator.payload_messages (Generator.payload r) = messages) /\
    (forall i r r', nth_error new i = Some r -> nth_error new (S i) = Some r' ->
       exists reply,
         exchange (sent ++ firstn i new)%list r = Return reply /\
         isValid (validated resolvedTruth reply) = false /\
         Generator.payload_messages (Generator.payload r') =
         (Generator.payload_messages (Generator.payload r)
          ++ [feedback_message resolvedTruth reply])%list).
Proof.
  induction remaining as [|remaining IH]; intros attempt messages sent.
  { exists []. cbn [Generator.attempts Generator.requests].
    rewrite app_nil_r. split; [reflexivity|]. split; [simpl; lia|].
    split; [intros r H; discriminate|]. intros [|i] r r' H; discriminate. }
  assert (One : forall r : Generator.Request,
            Generator.payload_messages (Generator.payload r) = messages ->
            (forall r0, nth_error [r] 0 = Some r0 ->
                        Generator.payload_messages (Generator.payload r0) = messages) /\
            (forall i r0 r', nth_error [r] i = Some r0 ->
                             nth_error [r] (S i) = Some r' ->
               exists reply,
                 exchange (sent ++ firstn i [r])%list r0 = Return reply /\
                 isValid (validated resolvedTruth reply) = false /\
                 Generator.payload_messages (Generator.payload r') =
                 (Generator.payload_messages (Generator.payload r0)
                  ++ [feedback_message resolvedTruth reply])%list)).
  { intros r Hr. split.
    - intros r0 [= <-]. exact Hr.
    - intros i r0 r' _ H. destruct i; discriminate. }
  destruct (usable_key config) as [k|] eqn:K.
  2:{ rewrite (attempts_without_key _ _ _ _ K). exists [].
      cbn [Generator.requests]. rewrite app_nil_r.
      split; [reflexivity|]. split; [simpl; lia|].
      split; [intros r H; discriminate|]. intros [|i] r r' H; discriminate. }
  rewrite (attempts_with_key k _ _ _ _ K). cbv zeta.
  set (request := request_for config k messages).
  destruct (exchange sent request) as [e|reply] eqn:X.
  { exists [request]. split; [reflexivity|]. split; [simpl; lia|].
    apply One. reflexivity. }
  destruct (isValid (validated resolvedTruth reply)) eqn:V.
  { exists [request]. split; [reflexivity|]. split; [simpl; lia|].
    apply One. reflexivity. }
  destruct (attempt =? Generator.maxAttempts)%nat.
  { exists [request]. split; [reflexivity|]. split; [simpl; lia|].
    apply One. reflexivity. }
  destruct (IH (S attempt) (messages ++ [feedback_message resolvedTruth reply])%list
               (sent ++ [request])%list) as (new & Hreq & Hlen & Hfirst & Hnext).
  exists (request :: new). split; [|split; [|split]].
  - rewrite Hreq, <- app_assoc. reflexivity.
  - simpl. lia.
  - intros r [= <-]. reflexivity.
  - intros [|i] r r' Hr Hr'.
    + injection Hr as <-. cbn [nth_error] in Hr'.
      exists reply. cbn [firstn]. rewrite app_nil_r.
      split; [exact X|]. split; [exact V|].
      rewrite (Hfirst r' Hr'). reflexivity.
    + cbn [nth_error] in Hr, Hr'.
      destruct (Hnext i r r' Hr Hr') as (reply' & Hx & Hv & Hm).
      exists reply'. cbn [firstn].
      rewrite <- app_assoc in Hx. split; [exact Hx|]. split; [exact Hv|exact Hm].
Qed.

(** How a run of the loop settles, for the iterations the source runs:
    [attempt] is one more than the requests sent, and the iterations left
    reach [maxAttempts]. *)
Lemma attempts_settled remaining : forall attempt messages sent,
  1 <= remaining -> attempt + remaining = S Generator.maxAttempts ->
  List.length sent + 1 = attempt ->
  let o := Generator.attempts config exchange resolvedTruth remaining attempt
                              messages sent in
  match Generator.settled o with
  | Return text =>
      exists prior r reply,
        Generator.requests o = (prior ++ [r])%list /\
        exchange prior r = Return reply /\
        text = code (validated resolvedTruth reply) /\
        ((isValid (validated resolvedTruth reply) = true /\ Generator.warnings o = []) \/
         (isValid (validated resolvedTruth reply) = false /\
          Generator.warnings o
          = [Generator.warningMessage (errors (validated resolvedTruth reply))] /\
          List.length (Generator.requests o) = Generator.maxAttempts))
  | Throw e =>
      Generator.warnings o = [] /\
      ((usable_key config = None /\ Generator.requests o = sent /\ e = missing_key_error) \/
       (exists prior r, Generator.requests o = (prior ++ [r])%list /\
                        exchange prior r = Throw e))
  end.
Proof.
  induction remaining as [|remaining IH]; intros attempt messages sent Hr Ha Hs; [lia|].
  destruct (usable_key config) as [k|] eqn:K.
  2:{ cbv zeta. rewrite (attempts_without_key _ _ _ _ K).
      cbn [Generator.settled Generator.warnings Generator.requests].
      split; [reflexivity|]. left. repeat split; reflexivity. }
  cbv zeta. rewrite (attempts_with_key k _ _ _ _ K). cbv zeta.
  set (request := request_for config k messages).
  destruct (exchange sent request) as [e|reply] eqn:X.
  { cbn [Generator.settled Generator.warnings Generator.requests].
    split; [reflexivity|]. right. exists sent, request. split; [reflexivity|exact X]. }
  destruct (isValid (validated resolvedTruth reply)) eqn:V.
  { cbn [Generator.settled Generator.warnings Generator.requests].
    exists sent, request, reply. split; [reflexivity|]. split; [exact X|].
    split; [reflexivity|]. left. split; [exact V|reflexivity]. }
  destruct (attempt =? Generator.maxAttempts)%nat eqn:A.
  { cbn [Generator.settled Generator.warnings Generator.requests].
    exists sent, request, reply. split; [reflexivity|]. split; [exact X|].
    split; [reflexivity|]. right. split; [exact V|]. split; [reflexivity|].
    apply Nat.eqb_eq in A. rewrite length_app. simpl. lia. }
  apply Nat.eqb_neq in A. unfold Generator.maxAttempts in Ha, A.
  assert (Ha' : S attempt + remaining = S Generator.maxAttempts)
    by (unfold Generator.maxAttempts; lia).
  assert (Hl : List.length (sent ++ [request]) + 1 = S attempt)
    by (rewrite length_app; simpl; lia).
  pose proof (IH (S attempt) (messages ++ [feedback_message resolvedTruth reply])%list
                 (sent ++ [request])%list ltac:(lia) Ha' Hl) as Rec.
  cbv zeta in Rec.
  destruct (Generator.settled
              (Generator.attempts config exchange resolvedTruth remaining (S attempt)
                 (messages ++ [feedback_message resolvedTruth reply])
                 (sent ++ [request]))) as [e|text].
  - destruct Rec as [W [[Hk _]|H]]; [discriminate|].
    split; [exact W|]. right. exact H.
  - exact Rec.
Qed.

End GenerationLoop.

Lemma attempts_requests_form config exchange resolvedTruth remaining :
  forall attempt messages sent r,
    In r (Generator.requests
            (Generator.attempts config exchange resolvedTruth remaining attempt
                                messages sent)) ->
    In r sent \/
    exists k msgs, usable_key config = Some k /\ r = request_for config k msgs.
Proof.
  induction remaining as [|remaining IH]; intros attempt messages sent r H.
  { left. exact H. }
  destruct (usable_key config) as [k|] eqn:K.
  2:{ rewrite (attempts_without_key _ _ _ _ _ _ _ K) in H. left. exact H. }
  rewrite (attempts_with_key _ _ _ k _ _ _ _ K) in H. cbv zeta in H.
  assert (Last : In r (sent ++ [request_for config k messages]) ->
                 In r sent \/
                 exists k0 msgs, Some k = Some k0 /\ r = request_for config k0 msgs).
  { intros Hin. apply in_app_or in Hin as [Hin|[<-|[]]]; [left; exact Hin|].
    right. exists k, messages. split; reflexivity. }
  destruct (exchange sent (request_for config k messages)) as [e|reply];
    [exact (Last H)|].
  destruct (isValid (validated resolvedTruth reply)); [exact (Last H)|].
  destruct (attempt =? Generator.maxAttempts)%nat; [exact (Last H)|].
  apply IH in H as [H|H]; [exact (Last H)|].
  right. exact H.
Qed.

(** X14. The conversation of a generation. [generateCompliantUI] sends
    at most three requests. The first carries the system prompt and the
    user's prompt; each later one is sent only after the reply to the one
    before failed validation, and carries the messages of the one before
    followed by one user message that lists the errors of that reply.
    Every request goes out with the configured key, to the one address
    built from the configured base URL, for the one configured model. *)
Theorem generateCompliantUI_conversation
        (config : Generator.Config)
        (exchange : list Generator.Request -> Generator.Request -> Result string)
        (resolvedTruth : ResolvedTruth) (context : Generator.CodeContext)
        (userPrompt : string) :
  let o := Generator.generateCompliantUI config exchange resolvedTruth context
                                         userPrompt in
  List.length (Generator.requests o) <= 3 /\
  (forall r, nth_error (Generator.requests o) 0 = Some r ->
     Generator.payload_messages (Generator.payload r)
     = initial_messages resolvedTruth context userPrompt) /\
  (forall i r r',
     nth_error (Generator.requests o) i = Some r ->
     nth_error (Generator.requests o) (S i) = Some r' ->
     exists reply,
       exchange (firstn i (Generator.requests o)) r = Return reply /\
       isValid (validated resolvedTruth reply) = false /\
       Generator.payload_messages (Generator.payload r') =
       (Generator.payload_messages (Generator.payload r)
        ++ [feedback_message resolvedTruth reply])%list) /\
  (forall r, In r (Generator.requests o) ->
     exists k, usable_key config = Some k /\
               r = request_for config k (Generator.payload_messages (Generator.payload r))).
Proof.
  intros o.
  assert (Eo : o = Generator.attempts config exchange resolvedTruth
                     Generator.maxAttempts 1
                     (initial_messages resolvedTruth context userPrompt) [])
    by reflexivity.
  clearbody o. subst o.
  destruct (attempts_requests config exchange resolvedTruth Generator.maxAttempts 1
              (initial_messages resolvedTruth context userPrompt) [])
    as (new & Hreq & Hlen & Hfirst & Hnext).
  cbn [app] in Hreq, Hnext. rewrite Hreq.
  split; [exact Hlen|]. split; [exact Hfirst|]. split; [exact Hnext|].
  intros r Hin. rewrite <- Hreq in Hin.
  apply attempts_requests_form in Hin as [[]|(k & msgs & K & ->)].
  exists k. split; [exact K|reflexivity].
Qed.

(** X15. What a generation returns. When [generateCompliantUI] resolves,
    its text is the code of the validation of the last reply, after the
    markdown fences are stripped: the classes of that reply that were
    accepted, joined by spaces, and never a rejected class. No warning is
    shown when that reply was valid; otherwise it was the reply to the
    third request, and one warning gives the number of its errors. *)
Theorem generateCompliantUI_returns_validated_code
        (config : Generator.Config)
        (exchange : list Generator.Request -> Generator.Request -> Result string)
        (resolvedTruth : ResolvedTruth) (context : Generator.CodeContext)
        (userPrompt text : string) :
  let o := Generator.generateCompliantUI config exchange resolvedTruth context
                                         userPrompt in
  Generator.settled o = Return text ->
  exists prior r reply,
    Generator.requests o = (prior ++ [r])%list /\
    exchange prior r = Return reply /\
    text = join " " (filter (accepted resolvedTruth)
                            (extractClasses (Generator.strip_markdown reply))) /\
    (forall c, truthy c = true -> In c (split_spaces text) ->
               accepted resolvedTruth c = true) /\
    ((isValid (validated resolvedTruth reply) = true /\ Generator.warnings o = []) \/
     (isValid (validated resolvedTruth reply) = false /\
      List.length (Generator.requests o) = 3 /\
      Generator.warnings o
      = [Generator.warningMessage (errors (validated resolvedTruth reply))])).
Proof.
  intros o.
  assert (Eo : o = Generator.attempts config exchange resolvedTruth
                     Generator.maxAttempts 1
                     (initial_messages resolvedTruth context userPrompt) [])
    by reflexivity.
  clearbody o. subst o.
  intros Hs.
  pose proof (attempts_settled config exchange resolvedTruth Generator.maxAttempts 1
                (initial_messages resolvedTruth context userPrompt) []
                ltac:(unfold Generator.maxAttempts; lia) eq_refl eq_refl) as H.
  cbv zeta in H. rewrite Hs in H.
  destruct H as (prior & r & reply & Hreq & Hx & Ht & Hw).
  exists prior, r, reply. split; [exact Hreq|]. split; [exact Hx|].
  assert (Hcode : text = join " " (filter (accepted resolvedTruth)
                            (extractClasses (Generator.strip_markdown reply)))).
  { rewrite Ht. unfold validated. rewrite validateCode_accumulates. reflexivity. }
  split; [exact Hcode|]. split.
  - intros c Hc Hin. rewrite Ht in Hin. unfold validated in Hin.
    apply (code_pieces _ resolvedTruth c Hc) in Hin. apply Hin.
  - destruct Hw as [Hw|(Hv & Hw & Hl)]; [left; exact Hw|].
    right. split; [exact Hv|]. split; [exact Hl|exact Hw].
Qed.

Lemma generateCompliantUI_returns_validated_code_witness :
  Generator.settled
    (Generator.generateCompliantUI sampleConfig compliantService sampleResolved
                                   sampleContext "a card")
  = Return "p-4 bg-red" /\
  exists prior r reply,
    Generator.requests
      (Generator.generateCompliantUI sampleConfig compliantService sampleResolved
                                     sampleContext "a card")
    = (prior ++ [r])%list /\
    compliantService prior r = Return reply /\
    "p-4 bg-red" = join " " (filter (accepted sampleResolved)
                               (extractClasses (Generator.strip_markdown reply))).
Proof.
  assert (E : Generator.settled
                (Generator.generateCompliantUI sampleConfig compliantService
                   sampleResolved sampleContext "a card")
              = Return "p-4 bg-red") by (vm_compute; reflexivity).
  split; [exact E|].
  destruct (generateCompliantUI_returns_validated_code
              sampleConfig compliantService sampleResolved sampleContext
              "a card" "p-4 bg-red" E) as (prior & r & reply & H1 & H2 & H3 & _).
  exists prior, r, reply. split; [exact H1|]. split; [exact H2|exact H3].
Defined.

(** X16. How a generation fails. [generateCompliantUI] rejects only
    with an error of [callLLM], and then at once: without a usable API
    key with the error that names the setting, before any request is
    sent; otherwise with the error met on the last request sent, which is
    not sent again. No warning is shown, and the fallback error after the
    loop is never its own. *)
Theorem generateCompliantUI_failure
        (config : Generator.Config)
        (exchange : list Generator.Request -> Generator.Request -> Result string)
        (resolvedTruth : ResolvedTruth) (context : Generator.CodeContext)
        (userPrompt : string) (e : JsError) :
  let o := Generator.generateCompliantUI config exchange resolvedTruth context
                                         userPrompt in
  Generator.settled o = Throw e ->
  Generator.warnings o = [] /\
  ((usable_key config = None /\ Generator.requests o = [] /\ e = missing_key_error) \/
   (exists prior r, Generator.requests o = (prior ++ [r])%list /\
                    exchange prior r = Throw e)).
Proof.
  intros o.
  assert (Eo : o = Generator.attempts config exchange resolvedTruth
                     Generator.maxAttempts 1
                     (initial_messages resolvedTruth context userPrompt) [])
    by reflexivity.
  clearbody o. subst o.
  intros Hs.
  pose proof (attempts_settled config exchange resolvedTruth Generator.maxAttempts 1
                (initial_messages resolvedTruth context userPrompt) []
                ltac:(unfold Generator.maxAttempts; lia) eq_refl eq_refl) as H.
  cbv zeta in H. rewrite Hs in H. exact H.
Qed.

Lemma generateCompliantUI_failure_witness :
  let o := Generator.generateCompliantUI
             {| Generator.apiKey := Some EmptyString;
                Generator.baseUrl := None; Generator.model := None |}
             compliantService sampleResolved sampleContext "a card" in
  Generator.requests o = [] /\ Generator.warnings o = [].
Proof.
  destruct (generateCompliantUI_failure
              {| Generator.apiKey := Some EmptyString;
                 Generator.baseUrl := None; Generator.model := None |}
              compliantService sampleResolved sampleContext "a card"
              missing_key_error eq_refl) as [W [(_ & R & _)|(prior & r & R & X)]].
  - split; [exact R|exact W].
  - discriminate X.
Defined.

Lemma stubborn_generation_warns :
  let o := Generator.generateCompliantUI sampleConfig stubbornService sampleResolved
                                         sampleContext "a card" in
  Generator.settled o = Return "p-4" /\
  List.length (Generator.requests o) = 3 /\
  Generator.warnings o
  = ["LazyUI: Generated code had violations. Returning sanitized version. Issues: 1"].
Proof. vm_compute. repeat split. Qed.

(** ** The text of a reply *)

Lemma eat_optional_length c s :
  String.length (eat_optional c s) <= String.length s.
Proof.
  destruct s as [|d s]; [simpl; lia|].
  cbn [eat_optional]. destruct (Ascii.eqb d c); simpl; lia.
Qed.

Lemma span_snd_length p s : String.length (snd (span p s)) <= String.length s.
Proof.
  induction s as [|c s IH]; [simpl; lia|].
  cbn [span]. destruct (p c); [|simpl; lia].
  destruct (span p s) as [run rest]. cbn [snd] in *. simpl. lia.
Qed.

Lemma eat_literal_length lit : forall s rest,
  eat_literal lit s = Some rest ->
  String.length s = String.length lit + String.length rest.
Proof.
  induction lit as [|c lit IH]; intros s rest H.
  - injection H as <-. reflexivity.
  - destruct s as [|d s]; [discriminate|].
    cbn [eat_literal] in H. destruct (Ascii.eqb c d); [|discriminate].
    simpl. rewrite (IH _ _ H). reflexivity.
Qed.

(** One step of the scan that removes the fences. *)
Lemma replace_fences_keep fuel c s :
  String.prefix "```" (String c s) = false ->
  Generator.replace_fences (S fuel) (String c s)
  = String c (Generator.replace_fences fuel s).
Proof.
  intros H. rewrite prefix_eat_literal in H. cbn [Generator.replace_fences].
  destruct (eat_literal "```" (String c s)); [discriminate|reflexivity].
Qed.

Lemma replace_fences_empty fuel : Generator.replace_fences fuel EmptyString = EmptyString.
Proof. destruct fuel; reflexivity. Qed.

Lemma replace_fences_drop fuel s rest :
  eat_literal "```" s = Some rest ->
  Generator.replace_fences (S fuel) s
  = Generator.replace_fences fuel
      (eat_optional "010" (snd (span Generator.is_word rest))).
Proof. intros H. cbn [Generator.replace_fences]. rewrite H. reflexivity. Qed.

(** A text without a fence is left as it is. *)
Lemma replace_fences_plain fuel : forall s,
  occurs "```" s = false -> Generator.replace_fences fuel s = s.
Proof.
  induction fuel as [|fuel IH]; intros s H; [reflexivity|].
  destruct s as [|c s]; [reflexivity|].
  cbn [occurs] in H. apply orb_false_iff in H as [Hp Hs].
  rewrite (replace_fences_keep _ _ _ Hp), (IH _ Hs). reflexivity.
Qed.

Lemma backquote_prefix_1 c s :
  String.prefix "`" (String c s) = Ascii.eqb "`" c.
Proof.
  cbn [String.prefix]. destruct (ascii_dec "`" c) as [<-|N].
  - destruct s; reflexivity.
  - apply Ascii.eqb_neq in N. rewrite N. reflexivity.
Qed.

Lemma backquote_prefix_S p c s :
  String.prefix (String "`" p) (String c s) = Ascii.eqb "`" c && String.prefix p s.
Proof.
  cbn [String.prefix]. destruct (ascii_dec "`" c) as [<-|N].
  - reflexivity.
  - apply Ascii.eqb_neq in N. rewrite N. reflexivity.
Qed.

Lemma prefix_empty s : String.prefix EmptyString s = true.
Proof. destruct s; reflexivity. Qed.

(** What was not the start of a fence does not become one. *)
Lemma replace_fences_head1 fuel s :
  String.length s <= fuel ->
  String.prefix "`" s = false ->
  String.prefix "`" (Generator.replace_fences fuel s) = false.
Proof.
  intros L H. destruct s as [|c s]; [rewrite replace_fences_empty; reflexivity|].
  destruct fuel as [|fuel]; [simpl in L; lia|].
  rewrite replace_fences_keep.
  - rewrite backquote_prefix_S, prefix_empty, andb_true_r in H |- *. exact H.
  - rewrite backquote_prefix_S in H |- *. rewrite prefix_empty, andb_true_r in H.
    rewrite H. reflexivity.
Qed.

Lemma replace_fences_head2 fuel s :
  String.length s <= fuel ->
  String.prefix "``" s = false ->
  String.prefix "``" (Generator.replace_fences fuel s) = false.
Proof.
  intros L H. destruct s as [|c s]; [rewrite replace_fences_empty; reflexivity|].
  destruct fuel as [|fuel]; [simpl in L; lia|].
  simpl in L. rewrite backquote_prefix_S in H.
  rewrite replace_fences_keep.
  - rewrite backquote_prefix_S. destruct (Ascii.eqb "`" c); [|reflexivity].
    cbn [andb] in H |- *. apply replace_fences_head1; [lia|exact H].
  - rewrite backquote_prefix_S. destruct (Ascii.eqb "`" c); [|reflexivity].
    cbn [andb] in H |- *. destruct s as [|d s]; [reflexivity|].
    rewrite backquote_prefix_S in H |- *. rewrite prefix_empty, andb_true_r in H.
    rewrite H. reflexivity.
Qed.

Lemma replace_fences_no_fence fuel : forall s,
  String.length s <= fuel ->
  occurs "```" (Generator.replace_fences fuel s) = false.
Proof.
  induction fuel as [|fuel IH]; intros s L.
  { destruct s; [reflexivity|simpl in L; lia]. }
  destruct (eat_literal "```" s) as [rest|] eqn:E.
  - rewrite (replace_fences_drop _ _ _ E). apply IH.
    apply eat_literal_length in E. simpl in E.
    pose proof (eat_optional_length "010" (snd (span Generator.is_word rest))).
    pose proof (span_snd_length Generator.is_word rest). lia.
  - destruct s as [|c s]; [reflexivity|]. simpl in L.
    assert (P : String.prefix "```" (String c s) = false)
      by (rewrite prefix_eat_literal, E; reflexivity).
    rewrite (replace_fences_keep _ _ _ P).
    cbn [occurs]. rewrite (IH s ltac:(lia)), orb_false_r.
    rewrite backquote_prefix_S in P |- *.
    destruct (Ascii.eqb "`" c); [|reflexivity].
    cbn [andb] in P |- *. apply replace_fences_head2; [lia|exact P].
Qed.

(** Fuel beyond the length of the text changes nothing. *)
Lemma replace_fences_fuel fuel : forall more s,
  String.length s <= fuel -> String.length s <= more ->
  Generator.replace_fences fuel s = Generator.replace_fences more s.
Proof.
  induction fuel as [|fuel IH]; intros more s L M.
  { destruct s; [rewrite !replace_fences_empty; reflexivity|simpl in L; lia]. }
  destruct s as [|c s]; [rewrite !replace_fences_empty; reflexivity|].
  destruct more as [|more]; [simpl in M; lia|]. simpl in L, M.
  destruct (eat_literal "```" (String c s)) as [rest|] eqn:E.
  - rewrite !(replace_fences_drop _ _ _ E).
    apply eat_literal_length in E. simpl in E.
    pose proof (eat_optional_length "010" (snd (span Generator.is_word rest))).
    pose proof (span_snd_length Generator.is_word rest).
    apply IH; lia.
  - assert (P : String.prefix "```" (String c s) = false)
      by (rewrite prefix_eat_literal, E; reflexivity).
    rewrite !(replace_fences_keep _ _ _ P). f_equal. apply IH; lia.
Qed.

(** *** Trimming *)

Lemma span_snd_head p s c rest :
  snd (span p s) = String c rest -> p c = false.
Proof.
  induction s as [|d s IH]; [discriminate|].
  cbn [span]. destruct (p d) eqn:E.
  - destruct (span p s) as [run r]. cbn [snd] in *. exact IH.
  - cbn [snd]. intros [= <- _]. exact E.
Qed.

Lemma trimEnd_head c s :
  is_space c = false ->
  exists kept, Generator.trimEnd (String c s) = String c kept.
Proof.
  intros H. cbn [Generator.trimEnd].
  destruct (Generator.trimEnd s) as [|d kept].
  - rewrite H. exists EmptyString. reflexivity.
  - exists (String d kept). reflexivity.
Qed.

Lemma trimEnd_last s : forall front c,
  Generator.trimEnd s = front ++ String c EmptyString -> is_space c = false.
Proof.
  induction s as [|a s IH]; intros front c H.
  - destruct front; discriminate.
  - cbn [Generator.trimEnd] in H.
    destruct (Generator.trimEnd s) as [|d kept].
    + destruct (is_space a) eqn:E; [destruct front; discriminate|].
      destruct front as [|x front].
      * injection H as <-. exact E.
      * destruct front; discriminate.
    + destruct front as [|x front]; [discriminate|].
      injection H as _ H. exact (IH front c H).
Qed.

(** What is trimmed off the end. *)
Lemma trimEnd_prefix s : exists tail, s = Generator.trimEnd s ++ tail.
Proof.
  induction s as [|a s [tail IH]]; [exists EmptyString; reflexivity|].
  cbn [Generator.trimEnd].
  destruct (Generator.trimEnd s) as [|d kept].
  - destruct (is_space a).
    + exists (String a s). reflexivity.
    + exists tail. simpl. f_equal. exact IH.
  - exists tail. simpl. f_equal. exact IH.
Qed.

Lemma prefix_app_r p : forall s tail,
  String.prefix p s = true -> String.prefix p (s ++ tail) = true.
Proof.
  induction p as [|c p IH]; intros s tail H; [apply prefix_empty|].
  destruct s as [|d s]; [discriminate|].
  change (String d s ++ tail) with (String d (s ++ tail)).
  cbn [String.prefix] in H |- *. destruct (ascii_dec c d); [|discriminate].
  apply IH, H.
Qed.

Lemma occurs_app_r p s tail :
  occurs p s = true -> occurs p (s ++ tail) = true.
Proof.
  induction s as [|c s IH]; intros H.
  - cbn [occurs] in H. rewrite orb_false_r in H.
    destruct p; [|discriminate].
    destruct tail; reflexivity.
  - change (String c s ++ tail) with (String c (s ++ tail)).
    cbn [occurs] in H |- *. apply orb_true_iff in H as [H|H].
    + pose proof (prefix_app_r _ (String c s) tail H) as Hp.
      change (String c s ++ tail) with (String c (s ++ tail)) in Hp.
      rewrite Hp. reflexivity.
    + rewrite (IH H). apply orb_true_r.
Qed.

Lemma occurs_span_snd p q s :
  occurs p (snd (span q s)) = true -> occurs p s = true.
Proof.
  induction s as [|c s IH]; [tauto|].
  cbn [span]. destruct (q c); [|tauto].
  destruct (span q s) as [run rest]. cbn [snd] in *.
  intros H. cbn [occurs]. rewrite (IH H). apply orb_true_r.
Qed.

(** Trimming brings in nothing. *)
Lemma occurs_trim p s : occurs p s = false -> occurs p (Generator.trim s) = false.
Proof.
  intros H. destruct (occurs p (Generator.trim s)) eqn:E; [|reflexivity].
  unfold Generator.trim in E.
  destruct (trimEnd_prefix (Generator.trimStart s)) as [tail T].
  apply (occurs_app_r _ _ tail) in E. rewrite <- T in E.
  apply occurs_span_snd in E. congruence.
Qed.

(** X17. The text handed to the validator. The reply of the service,
    as [callLLM] returns it, has no markdown fence left: three backquotes
    in a row occur nowhere in it. It neither begins nor ends with white
    space. A reply without three backquotes in a row is returned as it
    is, trimmed. *)
Theorem strip_markdown_leaves_no_fence (content : string) :
  occurs "```" (Generator.strip_markdown content) = false /\
  (forall c rest, Generator.strip_markdown content = String c rest ->
                  is_space c = false) /\
  (forall front c, Generator.strip_markdown content = front ++ String c EmptyString ->
                   is_space c = false) /\
  (occurs "```" content = false ->
   Generator.strip_markdown content = Generator.trim content) /\
  (forall fuel, String.length content <= fuel ->
     Generator.trim (Generator.replace_fences fuel content)
     = Generator.strip_markdown content).
Proof.
  unfold Generator.strip_markdown. split; [|split; [|split; [|split]]].
  - apply occurs_trim, replace_fences_no_fence. lia.
  - intros c rest H. unfold Generator.trim in H.
    destruct (Generator.trimStart (Generator.replace_fences (String.length content) content))
      as [|d t] eqn:E; [discriminate|].
    unfold Generator.trimStart in E. apply span_snd_head in E.
    destruct (trimEnd_head d t E) as [kept K]. rewrite K in H.
    injection H as <- _. exact E.
  - intros front c H. exact (trimEnd_last _ front c H).
  - intros H. rewrite (replace_fences_plain _ _ H). reflexivity.
  - intros fuel L. f_equal. apply replace_fences_fuel; lia.
Qed.

Lemma strip_markdown_leaves_no_fence_witness :
  Generator.strip_markdown
    ("```jsx" ++ Generator.nl ++ "<p class='p-4'>Hi</p>" ++ Generator.nl ++ "```")
  = "<p class='p-4'>Hi</p>" /\
  Generator.strip_markdown " <p>Hi</p> " = Generator.trim " <p>Hi</p> ".
Proof.
  split; [reflexivity|].
  exact (proj1 (proj2 (proj2 (proj2 (strip_markdown_leaves_no_fence " <p>Hi</p> "))))
               eq_refl).
Defined.

(** ** The defaults script *)

(** The loop of [flattenColors] over the entries of an object. *)
Lemma flattenColors_entries_JObj props proto prefix :
  flattenColors_entries (JObj props proto) prefix =
  fold_left (fun result kv =>
               let newKey :=
                 if truthy prefix
                 then if String.eqb (fst kv) "DEFAULT" then prefix
                      else prefix ++ "-" ++ fst kv
                 else fst kv in
               if string_in (fst kv) DEPRECATED_COLORS then result
               else
                 match snd kv with
                 | JStr s => put result newKey s
                 | JObj _ _ | JArr _ =>
                     put_all result (flattenColors_entries (snd kv) newKey)
                 | JNull => result
                 end) props JsObject.empty.
Proof. reflexivity. Qed.

Lemma ordinary_JObj props proto :
  ordinary (JObj props proto) =
  match proto with
  | ObjectPrototype | NullPrototype => true
  | PrototypeObject _ _ | PrototypeArray _ => false
  end
  && forallb (fun kv => negb (String.eqb (fst kv) "DEFAULT")
                        && negb (string_in (fst kv) DEPRECATED_COLORS)
                        && ordinary (snd kv)) props.
Proof. reflexivity. Qed.

(** The loop of [flattenObject] over the properties of an object that
    inherits no enumerable property. *)
Lemma flattenObject_own props proto prefix :
  match proto with
  | ObjectPrototype | NullPrototype => true
  | PrototypeObject _ _ | PrototypeArray _ => false
  end = true ->
  flattenObject (JObj props proto) prefix = flattenObject (JObj props ObjectPrototype) prefix.
Proof. destruct proto; [reflexivity|reflexivity|discriminate|discriminate]. Qed.

(** On ordinary objects the script flattens as the extractor does. *)
Lemma flattenColors_entries_ordinary : forall obj,
  match obj with
  | JObj props proto =>
      forall prefix, ordinary obj = true ->
                     flattenColors_entries obj prefix = flattenObject obj prefix
  | JStr _ | JArr _ | JNull => True
  end.
Proof.
  fix IH 1. intros [s|props proto|items|]; [exact I| |exact I|exact I].
  intros prefix H.
  rewrite ordinary_JObj in H. apply andb_true_iff in H as [Hproto H].
  rewrite (flattenObject_own _ _ _ Hproto).
  rewrite flattenColors_entries_JObj, flattenObject_JObj.
  generalize (@JsObject.empty string).
  induction props as [|[key value] props IHp]; intros result; [reflexivity|].
  cbn [forallb fst snd] in H.
  apply andb_true_iff in H as [H Hrest].
  apply andb_true_iff in H as [H Hvalue].
  apply andb_true_iff in H as [Hd Hdep].
  apply negb_true_iff in Hd. apply negb_true_iff in Hdep.
  cbn [fold_left fst snd]. cbv zeta. rewrite Hd, Hdep.
  specialize (IH value).
  destruct value as [s|inner innerProto|items|].
  - apply IHp, Hrest.
  - rewrite (IH _ Hvalue). apply IHp, Hrest.
  - discriminate Hvalue.
  - apply IHp, Hrest.
Qed.

(** X18. The script that freezes the defaults and the extractor
    flatten alike on ordinary objects: on an object that has, at no
    depth, a key [DEFAULT] or one of the deprecated color names, an array,
    or an object that inherits from another object or array,
    [flattenColors] returns what [flattenObject] returns. Beyond the two
    special cases of the script they differ on arrays, which only the
    script flattens, and on inherited properties, which only the
    extractor enumerates. *)
Theorem flattenColors_agrees_with_flattenObject :
  (forall props proto prefix,
     ordinary (JObj props proto) = true ->
     flattenColors (JObj props proto) prefix
     = Return (flattenObject (JObj props proto) prefix)) /\
  (let withArray := JObj [("a", JArr [JStr "x"])] ObjectPrototype in
   flattenColors withArray EmptyString = Return [("a-0", "x")] /\
   flattenObject withArray EmptyString = []) /\
  (let inheriting := JObj [("a", JStr "x")] (PrototypeObject [("b", JStr "y")] ObjectPrototype) in
   flattenColors inheriting EmptyString = Return [("a", "x")] /\
   flattenObject inheriting EmptyString = [("a", "x"); ("b", "y")]).
Proof.
  split; [|repeat split].
  intros props proto prefix H. unfold flattenColors. f_equal.
  exact (flattenColors_entries_ordinary (JObj props proto) prefix H).
Qed.

Lemma flattenColors_agrees_with_flattenObject_witness :
  ordinary (JObj [("black", JStr "#000");
                  ("slate", JObj [("50", JStr "#f8fafc"); ("900", JStr "#0f172a")]
                                 ObjectPrototype)] ObjectPrototype) = true /\
  flattenColors (JObj [("black", JStr "#000");
                       ("slate", JObj [("50", JStr "#f8fafc"); ("900", JStr "#0f172a")]
                                      ObjectPrototype)] ObjectPrototype)
                EmptyString
  = Return [("black", "#000"); ("slate-50", "#f8fafc"); ("slate-900", "#0f172a")].
Proof.
  split; [reflexivity|].
  exact (proj1 flattenColors_agrees_with_flattenObject
           [("black", JStr "#000");
            ("slate", JObj [("50", JStr "#f8fafc"); ("900", JStr "#0f172a")]
                           ObjectPrototype)]
           ObjectPrototype EmptyString eq_refl).
Defined.

Lemma color_key_inj parent k k' : color_key parent k = color_key parent k' -> k = k'.
Proof.
  unfold color_key.
  assert (N : forall x, parent <> parent ++ "-" ++ x).
  { intros x E. apply (f_equal String.length) in E.
    rewrite length_append in E. simpl in E. lia. }
  destruct (String.eqb k "DEFAULT") eqn:E1, (String.eqb k' "DEFAULT") eqn:E2; intros H.
  - apply String.eqb_eq in E1, E2. congruence.
  - exfalso. exact (N _ H).
  - exfalso. symmetry in H. exact (N _ H).
  - apply append_inj_l in H. injection H as H. exact H.
Qed.

(** Under a parent other than [__proto__] no new key is [__proto__]. *)
Lemma color_key_not_proto parent k :
  parent <> "__proto__" -> String.eqb (color_key parent k) "__proto__" = false.
Proof.
  intros H. unfold color_key. destruct (String.eqb k "DEFAULT").
  - apply String.eqb_neq, H.
  - apply dash_not_proto.
Qed.

(** Reading after a loop that stores each entry of a group under a new
    key, deprecated names left out: the new keys being distinct, every
    entry is read back under its own. *)
Lemma get_own_color_keys parent (group : JsObject.obj string) : forall result k,
  JsObject.wf group = true ->
  JsObject.get_own
    (fold_left (fun result kv =>
                  if string_in (fst kv) DEPRECATED_COLORS then result
                  else JsObject.set result (color_key parent (fst kv)) (snd kv))
               group result) (color_key parent k) =
  match (if string_in k DEPRECATED_COLORS then None else JsObject.get_own group k) with
  | Some v => Some v
  | None => JsObject.get_own result (color_key parent k)
  end.
Proof.
  induction group as [|[k0 v0] group IH]; intros result k Hwf.
  - cbn [fold_left JsObject.get_own]. destruct (string_in k DEPRECATED_COLORS); reflexivity.
  - unfold JsObject.wf in Hwf. cbn [JsObject.keys map fst JsObject.ordered] in Hwf.
    apply andb_true_iff in Hwf as [Hfresh Hwf].
    cbn [fold_left fst snd]. rewrite (IH _ k Hwf).
    cbn [JsObject.get_own].
    destruct (String.eqb k0 k) eqn:E.
    + apply String.eqb_eq in E. subst k0.
      rewrite (get_own_fresh _ _ Hfresh).
      destruct (string_in k DEPRECATED_COLORS); [reflexivity|].
      rewrite get_own_set, String.eqb_refl. reflexivity.
    + destruct (string_in k DEPRECATED_COLORS) eqn:Dk.
      * destruct (string_in k0 DEPRECATED_COLORS); [reflexivity|].
        rewrite get_own_set.
        destruct (String.eqb (color_key parent k0) (color_key parent k)) eqn:Ek;
          [|reflexivity].
        apply String.eqb_eq, color_key_inj in Ek. subst.
        rewrite String.eqb_refl in E. discriminate.
      * destruct (JsObject.get_own group k); [reflexivity|].
        destruct (string_in k0 DEPRECATED_COLORS); [reflexivity|].
        rewrite get_own_set.
        destruct (String.eqb (color_key parent k0) (color_key parent k)) eqn:Ek;
          [|reflexivity].
        apply String.eqb_eq, color_key_inj in Ek. subst.
        rewrite String.eqb_refl in E. discriminate.
Qed.

(** Every key after the loop was there before or is a new key. *)
Lemma get_own_color_keys_only parent (group : JsObject.obj string) :
  forall result key v,
  JsObject.get_own
    (fold_left (fun result kv =>
                  if string_in (fst kv) DEPRECATED_COLORS then result
                  else JsObject.set result (color_key parent (fst kv)) (snd kv))
               group result) key = Some v ->
  JsObject.get_own result key = Some v \/ exists k, key = color_key parent k.
Proof.
  induction group as [|[k0 v0] group IH]; intros result key v H; [left; exact H|].
  cbn [fold_left fst snd] in H. apply IH in H as [H|H]; [|right; exact H].
  destruct (string_in k0 DEPRECATED_COLORS); [left; exact H|].
  rewrite get_own_set in H.
  destruct (String.eqb (color_key parent k0) key) eqn:E; [|left; exact H].
  apply String.eqb_eq in E. right. exists k0. symmetry. exact E.
Qed.

Lemma wf_color_keys parent (group : JsObject.obj string) : forall result,
  JsObject.wf result = true ->
  JsObject.wf
    (fold_left (fun result kv =>
                  if string_in (fst kv) DEPRECATED_COLORS then result
                  else JsObject.set result (color_key parent (fst kv)) (snd kv))
               group result) = true.
Proof.
  induction group as [|[k0 v0] group IH]; intros result H; [exact H|].
  cbn [fold_left fst snd]. apply IH.
  destruct (string_in k0 DEPRECATED_COLORS); [exact H|apply wf_set, H].
Qed.

Lemma fold_left_map_ext (A B C : Type) (f : A -> B -> A) (g : A -> C -> A)
                        (h : C -> B) (l : list C) :
  (forall a x, f a (h x) = g a x) ->
  forall a, fold_left f (map h l) a = fold_left g l a.
Proof.
  intros H. induction l as [|x l IH]; intros a; [reflexivity|].
  cbn [map fold_left]. rewrite H. apply IH.
Qed.

Lemma flattenColors_entries_group parent (group : JsObject.obj string) :
  truthy parent = true ->
  parent <> "__proto__" ->
  flattenColors_entries (as_object group) parent =
  fold_left (fun result kv =>
               if string_in (fst kv) DEPRECATED_COLORS then result
               else JsObject.set result (color_key parent (fst kv)) (snd kv))
            group JsObject.empty.
Proof.
  intros Hp Hn. unfold as_object. rewrite flattenColors_entries_JObj.
  apply fold_left_map_ext. intros result [k v]. cbn [fst snd]. cbv zeta.
  rewrite Hp. fold (color_key parent k).
  rewrite (put_set _ _ _ (color_key_not_proto parent k Hn)). reflexivity.
Qed.

(** X19. The script gives the key [DEFAULT] of a color group the name
    of the group. For a group of string values under a non-empty name
    that is neither deprecated nor [__proto__], [flattenColors] maps the
    group's [DEFAULT] to the bare name and every other child to name,
    dash, child, leaves out the deprecated children, and has no key
    name-[DEFAULT]; [flattenObject] on the same object has name-[DEFAULT]
    and not the bare name. *)
Theorem flattenColors_collapses_DEFAULT (parent : string)
                                        (group : JsObject.obj string) :
  truthy parent = true ->
  parent <> "__proto__" ->
  string_in parent DEPRECATED_COLORS = false ->
  JsObject.wf group = true ->
  let nested := JObj [(parent, as_object group)] ObjectPrototype in
  exists flat,
    flattenColors nested EmptyString = Return flat /\
    (forall k, JsObject.get_own flat (color_key parent k) =
               if string_in k DEPRECATED_COLORS then None
               else JsObject.get_own group k) /\
    (forall v, JsObject.get_own group "DEFAULT" = Some v ->
       JsObject.get_own flat parent = Some v /\
       JsObject.get_own flat (parent ++ "-DEFAULT") = None /\
       JsObject.get_own (flattenObject nested EmptyString) (parent ++ "-DEFAULT") = Some v /\
       JsObject.get_own (flattenObject nested EmptyString) parent = None).
Proof.
  intros Hp Hn Hdep Hwf nested.
  set (inner := fold_left
                  (fun result kv =>
                     if string_in (fst kv) DEPRECATED_COLORS then result
                     else JsObject.set result (color_key parent (fst kv)) (snd kv))
                  group JsObject.empty).
  assert (Winner : JsObject.wf inner = true) by (apply wf_color_keys; reflexivity).
  assert (Ninner : JsObject.get_own inner "__proto__" = None).
  { unfold inner.
    apply (fold_left_invariant _ _ (fun r => JsObject.get_own r "__proto__" = None));
      [|reflexivity].
    intros r [k v] Hr. cbn [fst snd].
    destruct (string_in k DEPRECATED_COLORS); [exact Hr|].
    rewrite get_own_set, (color_key_not_proto parent k Hn). exact Hr. }
  assert (E : flattenColors_entries nested EmptyString = inner).
  { unfold nested. rewrite flattenColors_entries_JObj.
    cbn [fold_left fst snd]. cbv zeta. rewrite Hdep.
    change (truthy EmptyString) with false. cbv iota.
    change (flattenColors_entries (JObj (map (fun kv => (fst kv, JStr (snd kv))) group)
                                        ObjectPrototype) parent)
      with (flattenColors_entries (as_object group) parent).
    rewrite (flattenColors_entries_group _ _ Hp Hn). fold inner.
    rewrite put_all_without_proto by reflexivity.
    rewrite (without_proto_id _ Ninner). apply assign_empty, Winner. }
  assert (Hget : forall k, JsObject.get_own inner (color_key parent k) =
                           if string_in k DEPRECATED_COLORS then None
                           else JsObject.get_own group k).
  { intros k. unfold inner. rewrite (get_own_color_keys parent group _ k Hwf).
    destruct (string_in k DEPRECATED_COLORS); [reflexivity|].
    destruct (JsObject.get_own group k); reflexivity. }
  assert (F : flattenObject nested EmptyString =
              map (fun kv => (parent ++ "-" ++ fst kv, snd kv)) group)
    by exact (proj1 (flattenObject_joins_every_child parent group Hp Hwf)).
  exists inner. split; [unfold flattenColors, nested; rewrite <- E; reflexivity|].
  split; [exact Hget|].
  intros v Hv. split; [|split; [|split]].
  - pose proof (Hget "DEFAULT") as G. rewrite Hv in G. exact G.
  - destruct (JsObject.get_own inner (parent ++ "-DEFAULT")) as [w|] eqn:G; [|reflexivity].
    exfalso. apply get_own_color_keys_only in G as [G|[k G]]; [discriminate|].
    unfold color_key in G. destruct (String.eqb k "DEFAULT") eqn:Ek.
    + apply (f_equal String.length) in G. rewrite length_append in G. simpl in G. lia.
    + change (parent ++ "-DEFAULT") with (parent ++ "-" ++ "DEFAULT") in G.
      apply append_inj_l in G. injection G as G. subst k. discriminate.
  - rewrite F. change (parent ++ "-DEFAULT") with (parent ++ "-" ++ "DEFAULT").
    rewrite get_own_dash. exact Hv.
  - rewrite F. apply get_own_dash_parent.
Qed.

Lemma flattenColors_collapses_DEFAULT_witness :
  flattenColors (JObj [("primary", JObj [("DEFAULT", JStr "#000"); ("light", JStr "#fff")]
                                        ObjectPrototype)] ObjectPrototype)
                EmptyString
  = Return [("primary", "#000"); ("primary-light", "#fff")] /\
  exists flat,
    flattenColors (JObj [("primary", as_object [("DEFAULT", "#000"); ("light", "#fff")])]
                        ObjectPrototype)
                  EmptyString = Return flat /\
    JsObject.get_own flat "primary" = Some "#000".
Proof.
  split; [reflexivity|].
  destruct (flattenColors_collapses_DEFAULT "primary"
              [("DEFAULT", "#000"); ("light", "#fff")] eq_refl ltac:(discriminate)
              eq_refl eq_refl)
    as (flat & E & _ & H).
  exists flat. split; [exact E|]. exact (proj1 (H "#000" eq_refl)).
Defined.

(** ** The visitor of the extraction *)

Lemma ancestry_fold (enclosing : list Enclosing) : forall acc,
  fold_left (fun acc current =>
               match current with
               | EnclosingProperty parentKey => join_text (key_of parentKey) :: acc
               | EnclosingOther => acc
               end) enclosing acc =
  (rev (flat_map (fun e => match e with
                           | EnclosingProperty k => [join_text (key_of k)]
                           | EnclosingOther => []
                           end) enclosing) ++ acc)%list.
Proof.
  induction enclosing as [|e enclosing IH]; intros acc; [reflexivity|].
  cbn [fold_left flat_map]. rewrite IH. destruct e as [k|]; [|reflexivity].
  cbn [app rev]. rewrite <- app_assoc. reflexivity.
Qed.

(** The visitor leaves the buckets as they are at a path it does not
    collect from. *)
Lemma visit_ignores b nodePath : collected nodePath = false -> visit b nodePath = b.
Proof.
  unfold collected, visit.
  destruct (key_of (node_key nodePath)) as [k|]; [|reflexivity].
  rewrite ancestry_fold, app_nil_r.
  assert (Case : forall tk,
            k = target_name tk ->
            string_in (join "." (ancestry nodePath k))
                      ["theme." ++ k; "theme.extend." ++ k] = false ->
            verifyAncestry
              (rev (flat_map (fun e => match e with
                                       | EnclosingProperty k0 => [join_text (key_of k0)]
                                       | EnclosingOther => []
                                       end) (parents nodePath)) ++ [target_name tk])
              tk = None).
  { intros tk -> H. unfold verifyAncestry. fold (ancestry nodePath (target_name tk)).
    unfold string_in in H. cbn [existsb] in H.
    apply orb_false_iff in H as [H1 H2]. rewrite orb_false_r in H2.
    rewrite H1, H2. reflexivity. }
  destruct (String.eqb k "colors") eqn:Ec.
  - apply String.eqb_eq in Ec. subst k.
    change (string_in "colors" ["colors"; "spacing"]) with true. cbn [andb].
    intros H. rewrite (Case KColors eq_refl H). reflexivity.
  - destruct (String.eqb k "spacing") eqn:Es; [|reflexivity].
    apply String.eqb_eq in Es. subst k.
    change (string_in "spacing" ["colors"; "spacing"]) with true. cbn [andb].
    intros H. rewrite (Case KSpacing eq_refl H). reflexivity.
Qed.

Lemma fold_visit_collected paths : forall b,
  fold_left visit paths b = fold_left visit (filter collected paths) b.
Proof.
  induction paths as [|p paths IH]; intros b; [reflexivity|].
  cbn [fold_left filter]. destruct (collected p) eqn:C.
  - cbn [fold_left]. apply IH.
  - rewrite (visit_ignores _ _ C). apply IH.
Qed.

(** *** Dot-joined paths *)

Lemma join_cons sep s l : l <> [] -> join sep (s :: l) = s ++ sep ++ join sep l.
Proof. destruct l; [intros H; destruct (H eq_refl)|reflexivity]. Qed.

Lemma dot_free_cons c s :
  dot_free (String c s) = true -> c <> "."%char /\ dot_free s = true.
Proof.
  unfold dot_free. cbn [includes]. intros H. apply negb_true_iff, orb_false_iff in H as [H1 H2].
  split; [apply Ascii.eqb_neq, H1|rewrite H2; reflexivity].
Qed.

(** Two texts without dots that are followed by a dot. *)
Lemma dot_split s : forall s' r r',
  dot_free s = true -> dot_free s' = true ->
  s ++ "." ++ r = s' ++ "." ++ r' -> s = s' /\ r = r'.
Proof.
  induction s as [|c s IH]; intros [|c' s'] r r' Hs Hs' E; cbn in E.
  - injection E as E. split; [reflexivity|exact E].
  - injection E as Ec E. apply dot_free_cons in Hs' as [Hc _]. congruence.
  - injection E as Ec E. apply dot_free_cons in Hs as [Hc _]. congruence.
  - injection E as Ec E. apply dot_free_cons in Hs as [_ Hs].
    apply dot_free_cons in Hs' as [_ Hs'].
    destruct (IH _ _ _ Hs Hs' E) as [-> ->]. subst c'. split; reflexivity.
Qed.

Lemma dot_free_not_joined s : forall s' r,
  dot_free s = true -> s = s' ++ "." ++ r -> False.
Proof.
  induction s as [|c s IH]; intros [|c' s'] r Hs E; cbn in E; try discriminate.
  - injection E as Ec E. apply dot_free_cons in Hs as [Hc _]. congruence.
  - injection E as Ec E. apply dot_free_cons in Hs as [_ Hs]. exact (IH _ _ Hs E).
Qed.

(** Joined by dots, chains of keys without dots are told apart. *)
Lemma join_dot_inj l : forall l',
  l <> [] -> l' <> [] ->
  forallb dot_free l = true -> forallb dot_free l' = true ->
  join "." l = join "." l' -> l = l'.
Proof.
  induction l as [|s l IH]; intros [|s' l'] Hl Hl' Hd Hd' E;
    try (destruct (Hl eq_refl)); try (destruct (Hl' eq_refl)).
  cbn [forallb] in Hd, Hd'.
  apply andb_true_iff in Hd as [Hs Hd]. apply andb_true_iff in Hd' as [Hs' Hd'].
  destruct l as [|t l], l' as [|t' l'].
  - cbn in E. subst. reflexivity.
  - exfalso. rewrite (join_cons "." s' (t' :: l')) in E by discriminate.
    change (join "." [s]) with s in E. exact (dot_free_not_joined _ _ _ Hs E).
  - exfalso. rewrite (join_cons "." s (t :: l)) in E by discriminate.
    change (join "." [s']) with s' in E. symmetry in E.
    exact (dot_free_not_joined _ _ _ Hs' E).
  - rewrite (join_cons "." s (t :: l)), (join_cons "." s' (t' :: l')) in E by discriminate.
    destruct (dot_split _ _ _ _ Hs Hs' E) as [-> E'].
    f_equal. apply IH; try discriminate; assumption.
Qed.

Lemma same_keys_eq l : forall l', same_keys l l' = true <-> l = l'.
Proof.
  induction l as [|k l IH]; intros [|k' l']; cbn [same_keys]; split; intros H;
    try reflexivity; try discriminate.
  - apply andb_true_iff in H as [H1 H2]. apply String.eqb_eq in H1. apply IH in H2.
    subst. reflexivity.
  - injection H as -> ->. rewrite String.eqb_refl. apply IH. reflexivity.
Qed.

Lemma path_eqb enclosing target k :
  forallb dot_free enclosing = true -> forallb dot_free target = true ->
  dot_free k = true ->
  String.eqb (join "." (enclosing ++ [k])) (join "." (target ++ [k]))
  = same_keys enclosing target.
Proof.
  intros He Ht Hk. destruct (same_keys enclosing target) eqn:S.
  - apply same_keys_eq in S. subst. apply String.eqb_refl.
  - apply String.eqb_neq. intros E. apply join_dot_inj in E.
    + apply app_inv_tail in E. apply same_keys_eq in E. congruence.
    + destruct enclosing; discriminate.
    + destruct target; discriminate.
    + rewrite forallb_app, He. cbn [forallb]. rewrite Hk. reflexivity.
    + rewrite forallb_app, Ht. cbn [forallb]. rewrite Hk. reflexivity.
Qed.

(** Where no enclosing key has a dot, the visitor collects from the
    properties at the theme and from no other. *)
Lemma collected_at_theme nodePath :
  forallb dot_free (enclosing_keys nodePath) = true ->
  collected nodePath = at_theme nodePath.
Proof.
  intros Hd. unfold collected, at_theme.
  destruct (key_of (node_key nodePath)) as [k|]; [|reflexivity].
  destruct (string_in k ["colors"; "spacing"]) eqn:K; [|reflexivity].
  cbn [andb].
  assert (Hk : dot_free k = true).
  { apply string_in_In in K. destruct K as [<-|[<-|[]]]; reflexivity. }
  change (ancestry nodePath k) with (enclosing_keys nodePath ++ [k])%list.
  change ("theme." ++ k) with (join "." (["theme"] ++ [k])).
  change ("theme.extend." ++ k) with (join "." (["theme"; "extend"] ++ [k])).
  unfold string_in. cbn [existsb].
  rewrite !path_eqb by (try exact Hd; try exact Hk; reflexivity).
  rewrite orb_false_r. reflexivity.
Qed.

(** X20. In a configuration whose enclosing property keys contain no
    dot, only the theme is read: the extracted truth is the same as if the
    traversal had met only the properties named [colors] or [spacing]
    whose enclosing object properties are, from the outside in, [theme]
    alone or [theme] and [extend]; without such a property the
    configuration extracts to the empty truth, whatever it declares
    elsewhere. The visitor compares the chain of keys joined by dots, so
    a key that itself contains dots is not told from nesting: [colors]
    under the single key ['theme.extend'], with no property [theme] at
    all, is read as an extension of the theme. *)
Theorem extractTruth_reads_only_theme :
  (forall (Ast : Type) (host : Host Ast) (projectRoot configPath code : string)
          (ast : Ast) (paths : list NodePath),
     findConfig host projectRoot = Some configPath ->
     readFileSync host configPath = inr code ->
     parse host code = inr ast ->
     traverse host ast = inr paths ->
     forallb (fun p => forallb dot_free (enclosing_keys p)) paths = true ->
     extractTruth host projectRoot =
     extractTruth {| path_join := path_join host; existsSync := existsSync host;
                     readFileSync := readFileSync host; parse := parse host;
                     traverse := fun _ => inr (filter at_theme paths) |} projectRoot /\
     (forallb (fun p => negb (at_theme p)) paths = true ->
      extractTruth host projectRoot = Return emptyTruth)) /\
  (forallb (fun p => negb (at_theme p)) dottedKeyPaths = true /\
   extractTruth hostWithDottedKey "/app"
   = Return {| extend := {| colors := [("brand", "#123")]; spacing := [] |};
               override := {| colors := []; spacing := [] |} |}).
Proof.
  split; [|split; reflexivity].
  intros Ast host projectRoot configPath code ast paths Hc Hr Hp Ht Hd.
  assert (E : forall b,
            fold_left visit paths b = fold_left visit (filter at_theme paths) b).
  { intros b. rewrite fold_visit_collected. f_equal.
    apply filter_ext_in. intros p Hin. apply collected_at_theme.
    rewrite forallb_forall in Hd. exact (Hd p Hin). }
  split.
  - unfold extractTruth.
    change (findConfig {| path_join := path_join host; existsSync := existsSync host;
                          readFileSync := readFileSync host; parse := parse host;
                          traverse := fun _ => inr (filter at_theme paths) |}
                       projectRoot)
      with (findConfig host projectRoot).
    rewrite Hc. cbn [readFileSync parse traverse]. rewrite Hr, Hp, Ht, E. reflexivity.
  - intros Hall. unfold extractTruth. rewrite Hc, Hr, Hp, Ht, E.
    assert (N : filter at_theme paths = []).
    { clear -Hall. induction paths as [|p paths IH]; [reflexivity|].
      cbn [forallb] in Hall. apply andb_true_iff in Hall as [Hp Hall].
      apply negb_true_iff in Hp. cbn [filter]. rewrite Hp. apply IH, Hall. }
    rewrite N. reflexivity.
Qed.

Lemma extractTruth_reads_only_theme_witness :
  forallb (fun p => forallb dot_free (enclosing_keys p)) strayColorsPaths = true /\
  forallb (fun p => negb (at_theme p)) strayColorsPaths = true /\
  extractTruth hostWithStrayColors "/app" = Return emptyTruth.
Proof.
  split; [reflexivity|]. split; [reflexivity|].
  exact (proj2 (proj1 extractTruth_reads_only_theme unit hostWithStrayColors
                  "/app" "/app/tailwind.config.js"
                  "module.exports = { colors: {}, plugins: {} }" tt
                  strayColorsPaths eq_refl eq_refl eq_refl eq_refl eq_refl)
               eq_refl).
Defined.

(** ** What the extraction collects *)

(** In a plain object a listed entry is the one read under its key. *)
Lemma In_get_own (V : Type) (o : JsObject.obj V) k v :
  JsObject.wf o = true -> In (k, v) o -> JsObject.get_own o k = Some v.
Proof.
  unfold JsObject.wf. induction o as [|[k0 v0] o IH]; intros Hwf Hin; [destruct Hin|].
  cbn [JsObject.keys map fst JsObject.ordered] in Hwf.
  apply andb_true_iff in Hwf as [Hfresh Hwf].
  cbn [JsObject.get_own]. destruct Hin as [[= -> ->]|Hin].
  - rewrite String.eqb_refl. reflexivity.
  - destruct (String.eqb k0 k) eqn:E; [|exact (IH Hwf Hin)].
    apply String.eqb_eq in E. subst k0. exfalso.
    rewrite forallb_forall in Hfresh.
    assert (Hk : In k (JsObject.keys o)).
    { unfold JsObject.keys. apply in_map_iff. exists (k, v). split; [reflexivity|exact Hin]. }
    apply Hfresh, precedes_neq in Hk. rewrite String.eqb_refl in Hk. discriminate.
Qed.

Lemma get_own_map_values (A B : Type) (f : A -> B) (o : JsObject.obj A) k :
  JsObject.get_own (map (fun kv => (fst kv, f (snd kv))) o) k
  = option_map f (JsObject.get_own o k).
Proof.
  induction o as [|[k0 v0] o IH]; [reflexivity|].
  cbn [map fst snd JsObject.get_own]. destruct (String.eqb k0 k); [reflexivity|exact IH].
Qed.

Lemma last_property_In properties k : forall found node,
  fold_left (fun found prop =>
               match prop with
               | ObjectProperty key value =>
                   if String.eqb (property_name key) k then Some value else found
               | SpreadElement | ObjectMethod => found
               end) properties found = Some node ->
  found = Some node \/ exists key, In (ObjectProperty key node) properties.
Proof.
  induction properties as [|prop properties IH]; intros found node H; [left; exact H|].
  cbn [fold_left] in H. apply IH in H as [H|[key H]].
  - destruct prop as [key value| |]; [|left; exact H|left; exact H].
    destruct (String.eqb (property_name key) k); [|left; exact H].
    injection H as ->. right. exists key. left. reflexivity.
  - right. exists key. right. exact H.
Qed.

(** The own properties stay those of a plain object under assignments. *)
Lemma wf_assign_property o key value :
  JsObject.wf (fst o) = true -> JsObject.wf (fst (assign_property o key value)) = true.
Proof.
  intros H. unfold assign_property.
  match goal with |- context [if ?c then _ else _] => destruct c end.
  - destruct value; exact H.
  - cbn [fst]. apply wf_set, H.
Qed.

Lemma wf_extracted properties : forall obj : object,
  JsObject.wf (fst obj) = true ->
  JsObject.wf
    (fst (fold_left (fun obj prop =>
                       match prop with
                       | ObjectProperty key value =>
                           assign_property obj (property_name key)
                                           (extractObjectFromNode value)
                       | SpreadElement | ObjectMethod => obj
                       end) properties obj)) = true.
Proof.
  induction properties as [|prop properties IH]; intros obj H; [exact H|].
  cbn [fold_left]. apply IH. destruct prop; [apply wf_assign_property, H|exact H|exact H].
Qed.

Lemma literal_properties_proto properties :
  literal_properties properties = true -> proto_literals properties = true.
Proof.
  unfold literal_properties, proto_literals. rewrite !forallb_forall.
  intros H prop Hin. specialize (H prop Hin). destruct prop as [key value| |]; [|reflexivity..].
  rewrite H. apply orb_true_r.
Qed.

(** Assigning the own properties of an object literal without own
    [__proto__] to an empty object literal copies them. *)
Lemma assign_value_literal props proto :
  JsObject.wf props = true ->
  JsObject.get_own props "__proto__" = None ->
  assign_value new_object (JObj props proto) = (props, ObjectPrototype).
Proof.
  intros Hwf Hno. unfold assign_value, new_object. cbn [own_properties].
  assert (Hk : forall kv, In kv props -> String.eqb (fst kv) "__proto__" = false).
  { intros [k v] Hin. apply (get_own_None_neq _ _ _ _ Hno).
    unfold JsObject.keys. apply in_map. exact Hin. }
  assert (G : forall acc : JsObject.obj jsval,
            fold_left (fun (target : object) kv =>
                         assign_property target (fst kv) (snd kv))
                      props (acc, ObjectPrototype)
            = (JsObject.assign acc props, ObjectPrototype)).
  { clear Hwf Hno. unfold JsObject.assign.
    induction props as [|[k v] props IH]; intros acc; [reflexivity|].
    cbn [fold_left fst snd].
    assert (S : assign_property (acc, ObjectPrototype) k v
                = (JsObject.set acc k v, ObjectPrototype)).
    { unfold assign_property. cbn [fst snd].
      pose proof (Hk (k, v) (or_introl eq_refl)) as Hkv. cbn [fst] in Hkv.
      rewrite Hkv. reflexivity. }
    rewrite S. apply IH. intros kv Hin. apply Hk. right. exact Hin. }
  etransitivity; [exact (G [])|]. f_equal. apply (assign_empty _ Hwf).
Qed.

(** The object extracted from an object expression of literals, and its
    flattened form. *)
Lemma flattenObject_extracted_literals properties :
  literal_properties properties = true ->
  exists props,
    extractObjectFromNode (ObjectExpression properties) = JObj props ObjectPrototype /\
    JsObject.wf props = true /\
    JsObject.get_own props "__proto__" = None /\
    forall k,
      JsObject.get_own (flattenObject (JObj props ObjectPrototype) EmptyString) k =
      if String.eqb k "__proto__" then None
      else match last_property properties k with
           | Some node => string_of_literal node
           | None => None
           end.
Proof.
  intros Hlit. rewrite extractObjectFromNode_ObjectExpression.
  destruct (extracted_literal_object properties []
              (literal_properties_proto _ Hlit) eq_refl) as (props & E & Hno).
  assert (Hwf : JsObject.wf props = true).
  { pose proof (wf_extracted properties new_object eq_refl) as W.
    unfold new_object in W. rewrite E in W. exact W. }
  assert (Hget : forall k, k <> "__proto__" ->
                           JsObject.get_own props k =
                           option_map extractObjectFromNode (last_property properties k)).
  { intros k Hk.
    pose proof (get_own_extracted properties k Hk new_object None eq_refl) as G.
    unfold new_object in G. rewrite E in G. exact G. }
  assert (Hnode : forall k node, last_property properties k = Some node ->
                                 exists s, string_of_literal node = Some s).
  { intros k node H. unfold last_property in H.
    apply last_property_In in H as [H|[key H]]; [discriminate|].
    unfold literal_properties in Hlit. rewrite forallb_forall in Hlit.
    specialize (Hlit _ H). cbv beta iota in Hlit.
    destruct (string_of_literal node) as [s|]; [exists s; reflexivity|discriminate]. }
  set (text := fun v => match v with JStr s => s | _ => EmptyString end).
  set (flat := map (fun kv => (fst kv, text (snd kv))) props).
  assert (Hobj : as_object flat = JObj props ObjectPrototype).
  { unfold as_object, flat. f_equal. rewrite map_map.
    rewrite <- (map_id props) at 2. apply map_ext_in. intros [k v] Hin. cbn [fst snd].
    f_equal. pose proof (In_get_own _ props k v Hwf Hin) as G.
    assert (Hk : k <> "__proto__") by (intros ->; congruence).
    rewrite (Hget _ Hk) in G.
    destruct (last_property properties k) as [node|] eqn:L; [|discriminate].
    destruct (Hnode k node L) as [s Hs]. cbn [option_map] in G.
    rewrite (extract_literal _ _ Hs) in G. injection G as <-. reflexivity. }
  assert (Hflat : JsObject.wf flat = true).
  { unfold JsObject.wf, JsObject.keys, flat in *. rewrite map_map. exact Hwf. }
  exists props. unfold new_object.
  rewrite E. split; [reflexivity|]. split; [exact Hwf|]. split; [exact Hno|].
  intros k. rewrite <- Hobj, (flattenObject_flat _ Hflat), get_own_without_proto.
  destruct (String.eqb k "__proto__") eqn:Ek; [reflexivity|].
  apply String.eqb_neq in Ek.
  unfold flat. rewrite get_own_map_values, (Hget _ Ek).
  destruct (last_property properties k) as [node|] eqn:L; [|reflexivity].
  destruct (Hnode k node L) as [s Hs]. cbn [option_map].
  rewrite (extract_literal _ _ Hs), Hs. reflexivity.
Qed.

(** The visitor at a property it collects from, with every bucket still
    empty. *)
Lemma visit_collects nodePath source target properties props :
  key_of (node_key nodePath) = Some (target_name target) ->
  join "." (ancestry nodePath (target_name target)) = theme_path source target ->
  node_value nodePath = ObjectExpression properties ->
  extractObjectFromNode (ObjectExpression properties) = JObj props ObjectPrototype ->
  JsObject.wf props = true ->
  JsObject.get_own props "__proto__" = None ->
  let filled : object := (props, ObjectPrototype) in
  visit (mkBuckets new_object new_object new_object new_object) nodePath =
  match source, target with
  | FromExtend, KColors => mkBuckets filled new_object new_object new_object
  | FromExtend, KSpacing => mkBuckets new_object filled new_object new_object
  | FromRoot, KColors => mkBuckets new_object new_object filled new_object
  | FromRoot, KSpacing => mkBuckets new_object new_object new_object filled
  end.
Proof.
  intros Hk Hpath Hv He Hwf Hno filled. unfold visit. rewrite Hk, Hv, He.
  rewrite ancestry_fold, app_nil_r.
  assert (T : (if String.eqb (target_name target) "colors" then Some KColors
               else if String.eqb (target_name target) "spacing" then Some KSpacing
                    else None) = Some target) by (destruct target; reflexivity).
  rewrite T. fold (ancestry nodePath (target_name target)).
  unfold verifyAncestry. rewrite Hpath.
  assert (A : (if String.eqb (theme_path source target)
                             ("theme.extend." ++ target_name target)
               then Some FromExtend
               else if String.eqb (theme_path source target)
                                  ("theme." ++ target_name target)
                    then Some FromRoot else None) = Some source)
    by (destruct source, target; reflexivity).
  rewrite A. cbn [js_truthy extendColors extendSpacing overrideColors overrideSpacing].
  rewrite (assign_value_literal _ _ Hwf Hno). destruct source, target; reflexivity.
Qed.

(** X21. What the extraction collects. When the only property the
    traversal meets at one of the four theme paths is an object of
    literals, the extracted truth has, in the bucket of that path, each
    name of the object other than [__proto__] with the text of the last
    literal written for it, and nothing else: a property [__proto__] with
    a literal for value leaves no key. Its three other buckets are
    empty. *)
Theorem extractTruth_collects_literals
        (Ast : Type) (host : Host Ast) (projectRoot configPath code : string)
        (ast : Ast) (paths : list NodePath) (nodePath : NodePath)
        (source : Ancestry) (target : TargetKey) (properties : list Property) :
  findConfig host projectRoot = Some configPath ->
  readFileSync host configPath = inr code ->
  parse host code = inr ast ->
  traverse host ast = inr paths ->
  filter collected paths = [nodePath] ->
  key_of (node_key nodePath) = Some (target_name target) ->
  join "." (ancestry nodePath (target_name target)) = theme_path source target ->
  node_value nodePath = ObjectExpression properties ->
  literal_properties properties = true ->
  exists t,
    extractTruth host projectRoot = Return t /\
    (forall k, JsObject.get_own (bucket t source target) k =
               if String.eqb k "__proto__" then None
               else match last_property properties k with
                    | Some node => string_of_literal node
                    | None => None
                    end) /\
    (forall source' target', (source', target') <> (source, target) ->
                             bucket t source' target' = []).
Proof.
  intros Hc Hr Hp Ht Hf Hk Hpath Hv Hlit.
  destruct (flattenObject_extracted_literals properties Hlit)
    as (props & E & Hwf & Hno & Hget).
  unfold extractTruth. rewrite Hc, Hr, Hp, Ht, fold_visit_collected, Hf.
  cbn [fold_left].
  rewrite (visit_collects nodePath source target properties props Hk Hpath Hv E Hwf Hno).
  eexists. split; [reflexivity|].
  split.
  - intros k. rewrite <- Hget.
    destruct source, target; reflexivity.
  - intros source' target' Hne.
    destruct source, target, source', target'; try congruence; reflexivity.
Qed.

Lemma extractTruth_collects_literals_witness :
  extractTruth hostWithExtendSpacing "/app"
  = Return {| extend := {| colors := []; spacing := [("18", "5rem"); ("gutter", "2rem")] |};
              override := {| colors := []; spacing := [] |} |} /\
  exists t,
    extractTruth hostWithExtendSpacing "/app" = Return t /\
    JsObject.get_own (spacing (extend t)) "18" = Some "5rem" /\
    JsObject.get_own (spacing (extend t)) "__proto__" = None.
Proof.
  split; [reflexivity|].
  destruct (extractTruth_collects_literals unit hostWithExtendSpacing
              "/app" "/app/tailwind.config.ts"
              "export default { theme: { extend: { spacing: {} } } }" tt
              _ extendSpacingPath FromExtend KSpacing _
              eq_refl eq_refl eq_refl eq_refl eq_refl eq_refl eq_refl eq_refl eq_refl)
    as (t & E & H & _).
  exists t. split; [exact E|]. split; [exact (H "18")|exact (H "__proto__")].
Defined.

(** ** Names every object inherits, and the suggestions *)

Lemma inherited_names_plain :
  forallb (fun q => forallb (fun inherited => negb (is_arbitrary (q ++ inherited)))
                            OBJECT_PROTOTYPE_KEYS)
          (prefixes_of Colors ++ prefixes_of Spacing) = true.
Proof. vm_compute. reflexivity. Qed.

(** X22. Names inherited from the object prototype pass for tokens.
    Reading a family at [constructor], [toString], [valueOf] or another
    name every object inherits gives a truthy value, so after [bg-],
    [ring-] and [divide-], and after every spacing prefix but [gap-], such
    a name is accepted against any resolved truth that does not declare
    it. *)
Theorem inherited_names_are_accepted (truth : ResolvedTruth) (q inherited : string) :
  In inherited OBJECT_PROTOTYPE_KEYS ->
  (In q ["bg-"; "ring-"; "divide-"] ->
   JsObject.get_own (colors truth) inherited = None ->
   accepted truth (q ++ inherited) = true) /\
  (In q (prefixes_of Spacing) -> q <> "gap-" ->
   JsObject.get_own (spacing truth) inherited = None ->
   accepted truth (q ++ inherited) = true).
Proof.
  intros Hin.
  assert (Plain : In q (prefixes_of Colors ++ prefixes_of Spacing) ->
                  is_arbitrary (q ++ inherited) = false).
  { intros Hq.
    pose proof (proj1 (forallb_forall _ _) inherited_names_plain q Hq) as H.
    cbv beta in H.
    pose proof (proj1 (forallb_forall _ _) H inherited Hin) as H'.
    cbv beta in H'. apply negb_true_iff in H'. exact H'. }
  split.
  - intros Hq Hown.
    pose proof (proj1 (forallb_forall _ _) color_prefixes_dominant q Hq) as Hd.
    cbv beta in Hd.
    rewrite (accepted_dominant_colors truth q inherited Hd).
    + unfold truthy_get. rewrite Hown, (string_in_of_In _ _ Hin).
      rewrite andb_false_r. reflexivity.
    + apply Plain. apply in_or_app. left.
      apply string_in_In.
      destruct Hq as [<-|[<-|[<-|[]]]]; vm_compute; reflexivity.
  - intros Hq Hne Hown.
    pose proof (proj1 (forallb_forall _ _) spacing_prefixes_dominant q Hq) as Hd.
    cbv beta in Hd. apply orb_true_iff in Hd as [Hd|Hd].
    { apply String.eqb_eq in Hd. contradiction. }
    rewrite (accepted_dominant_spacing truth q inherited Hd).
    + unfold truthy_get. rewrite Hown, (string_in_of_In _ _ Hin).
      rewrite andb_false_r. reflexivity.
    + apply Plain. apply in_or_app. right. exact Hq.
Qed.

Lemma inherited_names_are_accepted_witness :
  JsObject.get_own (colors sampleResolved) "constructor" = None /\
  accepted sampleResolved "bg-constructor" = true /\
  accepted sampleResolved "bg-builder" = false.
Proof.
  split; [reflexivity|]. split; [|reflexivity].
  apply (proj1 (inherited_names_are_accepted sampleResolved "bg-" "constructor"
                  ltac:(vm_compute; tauto)));
    [left; reflexivity|reflexivity].
Defined.

(** Whatever [findClosest] returns is one of the options. *)
Lemma findClosest_In target options s :
  In s (findClosest target options) -> In s options.
Proof.
  unfold findClosest. intros H.
  apply in_map_iff in H as [x [<- Hx]].
  assert (Hs : In x (Array_sort
                       (fun a b => (Z.of_nat (distance a) - Z.of_nat (distance b))%Z)
                       (map (fun option =>
                               {| option_ := option;
                                  distance := levenshtein target option |}) options))).
  { rewrite <- (firstn_skipn 3). apply in_or_app. left. exact Hx. }
  apply (Permutation_in _ (Array_sort_perm _ _ _)) in Hs.
  apply in_map_iff in Hs as [o [<- Ho]]. exact Ho.
Qed.

Lemma truthy_get_key (o : JsObject.obj string) s :
  forallb (fun kv => truthy (snd kv)) o = true ->
  In s (JsObject.keys o) -> truthy_get o s = true.
Proof.
  unfold truthy_get. induction o as [|[k v] o IH]; intros Hall Hin; [destruct Hin|].
  cbn [forallb snd] in Hall. apply andb_true_iff in Hall as [Hv Hall].
  cbn [JsObject.get_own]. destruct (String.eqb k s) eqn:E; [exact Hv|].
  destruct Hin as [Hin|Hin]; [|exact (IH Hall Hin)].
  cbn [fst] in Hin. subst. rewrite String.eqb_refl in E. discriminate.
Qed.

Lemma verdict_if truth className (b : bool) msg :
  (forall st, validate_class truth st className =
              if b then reject st msg else accept st className) ->
  verdict truth className = if b then Some msg else None.
Proof. intros H. unfold verdict. rewrite H. destruct b; reflexivity. Qed.

(** X23. The suggestions of a rejection are themselves acceptable. A
    class without a pair of brackets that is rejected after [bg-], [ring-]
    or [divide-] gets the message that suggests the closest color keys
    under the same prefix; when every resolved color has a non-empty
    value, each suggested class that has no pair of brackets is accepted
    against the same truth. *)
Theorem suggestions_are_accepted (truth : ResolvedTruth) (q rest msg : string) :
  In q ["bg-"; "ring-"; "divide-"] ->
  forallb (fun kv => truthy (snd kv)) (colors truth) = true ->
  is_arbitrary (q ++ rest) = false ->
  verdict truth (q ++ rest) = Some msg ->
  msg = suggestion_message (q ++ rest) q rest (JsObject.keys (colors truth)) /\
  (forall s, In s (findClosest rest (JsObject.keys (colors truth))) ->
             is_arbitrary (q ++ s) = false ->
             accepted truth (q ++ s) = true).
Proof.
  intros Hq Hall Hb Hv.
  pose proof (proj1 (forallb_forall _ _) color_prefixes_dominant q Hq) as Hd.
  cbv beta in Hd. split.
  - rewrite (verdict_if truth (q ++ rest)
               (truthy rest && negb (truthy_get (colors truth) rest))
               (suggestion_message (q ++ rest) q rest (JsObject.keys (colors truth))))
      in Hv.
    + destruct (truthy rest && negb (truthy_get (colors truth) rest));
        [injection Hv as <-; reflexivity|discriminate].
    + intros st. rewrite (validate_class_dominant truth st q Colors rest Hd Hb).
      apply strict_check_if.
  - intros s Hs Hbs. rewrite (accepted_dominant_colors truth q s Hd Hbs).
    rewrite (truthy_get_key _ s Hall (findClosest_In _ _ _ Hs)).
    rewrite andb_false_r. reflexivity.
Qed.

Lemma suggestions_are_accepted_witness :
  verdict sampleResolved "bg-rod"
  = Some "Invalid class 'bg-rod'. Did you mean: 'bg-red', 'bg-blue-500'?" /\
  accepted sampleResolved "bg-red" = true.
Proof.
  assert (V : verdict sampleResolved "bg-rod"
              = Some "Invalid class 'bg-rod'. Did you mean: 'bg-red', 'bg-blue-500'?")
    by (vm_compute; reflexivity).
  split; [exact V|].
  apply (proj2 (suggestions_are_accepted sampleResolved "bg-" "rod" _
                  (or_introl eq_refl) eq_refl eq_refl V) "red");
    [vm_compute; tauto|reflexivity].
Defined.

(** ** What the system prompt lists *)

Lemma keys_set_named (V : Type) (o : JsObject.obj V) k v :
  named_key k = true ->
  JsObject.keys (JsObject.set o k v) =
  (JsObject.keys o ++ if JsObject.has_own o k then [] else [k])%list.
Proof.
  unfold named_key, JsObject.set. intros Hk.
  destruct (JsObject.has_own o k).
  - rewrite keys_replace, app_nil_r. reflexivity.
  - destruct (JsObject.array_index k); [discriminate|].
    unfold JsObject.keys. rewrite map_app. reflexivity.
Qed.

(** Assigning named keys leaves the keys there were in their places. *)
Lemma keys_assign_named (V : Type) (src : JsObject.obj V) : forall target,
  forallb (fun kv => named_key (fst kv)) src = true ->
  exists added,
    JsObject.keys (JsObject.assign target src) = (JsObject.keys target ++ added)%list.
Proof.
  unfold JsObject.assign.
  induction src as [|[k v] src IH]; intros target H.
  - exists []. rewrite app_nil_r. reflexivity.
  - cbn [forallb fst] in H. apply andb_true_iff in H as [Hk H].
    cbn [fold_left fst snd]. destruct (IH (JsObject.set target k v) H) as [added E].
    rewrite E, (keys_set_named _ _ _ _ Hk), <- app_assoc.
    eexists. reflexivity.
Qed.

Lemma firstn_app_long (A : Type) n (l added : list A) :
  n <= List.length l -> firstn n (l ++ added) = firstn n l.
Proof.
  intros H. rewrite firstn_app.
  replace (n - List.length l) with 0 by lia.
  cbn [firstn]. apply app_nil_r.
Qed.

(** X24. The system prompt does not show what the configuration adds.
    The prompt lists the first twenty resolved colors. When the baseline
    of the colors (the override, or the defaults without one) has twenty
    keys or more, the prompt is the same as for a configuration without
    the colors under [theme.extend], provided these are named keys: the
    colors the configuration adds are not among those offered to the
    model. *)
Theorem prompt_omits_extended_colors (defaultTheme : TokenFamilies)
                                     (userTruth : ExtractedTruth)
                                     (context : Generator.CodeContext) :
  wf_families defaultTheme = true ->
  wf_truth userTruth = true ->
  20 <= List.length
          (JsObject.keys match colors (override userTruth) with
                         | [] => colors defaultTheme
                         | _ :: _ => colors (override userTruth)
                         end) ->
  forallb (fun kv => named_key (fst kv)) (colors (extend userTruth)) = true ->
  Generator.buildSystemPrompt context (resolveTruth defaultTheme userTruth) =
  Generator.buildSystemPrompt context
    (resolveTruth defaultTheme
       {| extend := {| colors := []; spacing := spacing (extend userTruth) |};
          override := override userTruth |}).
Proof.
  intros Hd Ht Hlen Hnamed.
  pose proof (wf_baseline_colors defaultTheme userTruth Ht Hd) as Hbase.
  cbv zeta in Hbase.
  unfold Generator.buildSystemPrompt.
  rewrite !resolveTruth_colors, !resolveTruth_spacing.
  cbn [extend override colors spacing].
  set (base := match colors (override userTruth) with
               | [] => colors defaultTheme
               | _ :: _ => colors (override userTruth)
               end) in *.
  assert (E : firstn 20 (JsObject.keys (JsObject.spread2 base (colors (extend userTruth))))
              = firstn 20 (JsObject.keys (JsObject.spread2 base []))).
  { unfold JsObject.spread2.
    rewrite (assign_empty _ Hbase).
    destruct (keys_assign_named _ (colors (extend userTruth)) base Hnamed) as [added Ha].
    rewrite Ha. cbn [JsObject.assign fold_left].
    apply firstn_app_long, Hlen. }
  rewrite E. reflexivity.
Qed.

Lemma prompt_omits_extended_colors_witness :
  accepted (resolveTruth paletteDefaults sampleTruth) "bg-brand" = true /\
  Generator.buildSystemPrompt sampleContext (resolveTruth paletteDefaults sampleTruth) =
  Generator.buildSystemPrompt sampleContext
    (resolveTruth paletteDefaults
       {| extend := {| colors := []; spacing := spacing (extend sampleTruth) |};
          override := override sampleTruth |}).
Proof.
  split; [reflexivity|].
  exact (prompt_omits_extended_colors paletteDefaults sampleTruth sampleContext
           eq_refl eq_refl ltac:(vm_compute; lia) eq_refl).
Defined.

(** ** More tokens, no fewer classes *)

(** X25. Adding tokens breaks nothing. When every key that reads as a
    token in a truth also does in a larger one, family by family, every
    class accepted against the first is accepted against the second, and
    markup that is valid against the first validates against the second
    with the same result. *)
Theorem accepted_monotone (truth larger : ResolvedTruth) :
  (forall k, truthy_get (colors truth) k = true -> truthy_get (colors larger) k = true) ->
  (forall k, truthy_get (spacing truth) k = true -> truthy_get (spacing larger) k = true) ->
  (forall className, accepted truth className = true ->
                     accepted larger className = true) /\
  (forall markup, isValid (validateCode markup truth) = true ->
                  validateCode markup larger = validateCode markup truth).
Proof.
  intros Hc Hs.
  assert (Strict : forall st className p token (family family' : JsObject.obj string),
            (forall k, truthy_get family k = true -> truthy_get family' k = true) ->
            errorList (strict_check st className p token family) = errorList st ->
            strict_check st className p token family' = accept st className).
  { intros st className p token family family' Hf. unfold strict_check.
    destruct (truthy token); [|reflexivity]. cbn [andb].
    destruct (truthy_get family token) eqn:G.
    - rewrite (Hf _ G). reflexivity.
    - cbn [negb errorList reject]. intros E. exfalso.
      apply (f_equal (@List.length string)) in E. rewrite length_app in E.
      simpl in E. lia. }
  assert (A : forall className, accepted truth className = true ->
                                accepted larger className = true).
  { intros className. unfold accepted, verdict.
    set (st := {| validClasses := []; errorList := []; stillValid := true |}).
    intros H.
    assert (E : errorList (validate_class truth st className) = errorList st).
    { destruct (errorList (validate_class truth st className)); [reflexivity|discriminate]. }
    clear H.
    assert (G : validate_class larger st className = accept st className);
      [|rewrite G; reflexivity].
    unfold validate_class in E |- *.
    destruct (includes className "[" && includes className "]");
      [discriminate E|].
    destruct (findLongestMatch className) as [[category p]|]; [|reflexivity].
    cbv zeta in E |- *.
    destruct category.
    - destruct (String.eqb p "text-").
      { destruct (string_in (extractToken className p) TEXT_SIZES); [reflexivity|].
        exact (Strict _ _ _ _ _ _ Hc E). }
      destruct (String.eqb p "border-").
      { destruct (string_in (extractToken className p) BORDER_WIDTHS); [reflexivity|].
        exact (Strict _ _ _ _ _ _ Hc E). }
      exact (Strict _ _ _ _ _ _ Hc E).
    - exact (Strict _ _ _ _ _ _ Hs E).
    - destruct (startsWith p "w-" || startsWith p "h-" || startsWith p "min-"
                || startsWith p "max-").
      + destruct (truthy (extractToken className p)); [|reflexivity].
        destruct (isStandardSizeKeyword (extractToken className p)); [reflexivity|].
        cbn [andb negb] in E |- *.
        destruct (truthy_get (spacing truth) (extractToken className p)) eqn:G.
        * rewrite (Hs _ G). reflexivity.
        * discriminate E.
      + destruct (startsWith p "border-t-" || startsWith p "border-b-"
                  || startsWith p "border-l-" || startsWith p "border-r-"
                  || startsWith p "border-x-" || startsWith p "border-y-");
          [|reflexivity].
        exact (Strict _ _ _ _ _ _ Hs E).
    - reflexivity.
    - reflexivity. }
  split; [exact A|].
  intros markup H. rewrite !validateCode_accumulates in *. cbn [isValid] in H.
  assert (F : forall classes,
            forallb (accepted truth) classes = true ->
            forallb (accepted larger) classes = true /\
            filter (accepted larger) classes = classes /\
            filter (accepted truth) classes = classes).
  { induction classes as [|c classes IH]; intros Hall; [repeat split|].
    cbn [forallb filter] in Hall |- *. apply andb_true_iff in Hall as [Hc' Hall].
    destruct (IH Hall) as (I1 & I2 & I3).
    rewrite (A c Hc'), Hc', I1, I2, I3. repeat split. }
  destruct (F _ H) as (F1 & F2 & F3).
  rewrite H, F1, F2, F3.
  rewrite (rejections_accepted truth _ H), (rejections_accepted larger _ F1).
  reflexivity.
Qed.

Lemma accepted_monotone_witness :
  accepted sampleResolved "bg-red" = true /\
  accepted {| colors := (colors sampleResolved ++ [("neon", "#0f0")])%list;
              spacing := spacing sampleResolved |} "bg-red" = true.
Proof.
  split; [reflexivity|].
  apply (proj1 (accepted_monotone sampleResolved
                  {| colors := (colors sampleResolved ++ [("neon", "#0f0")])%list;
                     spacing := spacing sampleResolved |}
                  ltac:(intros k; unfold truthy_get; cbn [colors sampleResolved app
                                                           JsObject.get_own];
                        repeat (destruct (String.eqb _ k); [tauto|]);
                        destruct (string_in k OBJECT_PROTOTYPE_KEYS);
                        [tauto|discriminate])
                  ltac:(intros k H; exact H))).
  reflexivity.
Defined.

(** ** Overloaded prefixes, in full *)

(** X26. The two overloaded prefixes. A class without a pair of
    brackets that begins with [text-], the three alignment classes
    apart, is matched with the prefix [text-] of the colors; when what
    follows is one of the fixed text sizes the class is accepted whatever
    the resolved truth holds, and otherwise it is accepted exactly when
    what follows is empty or reads as truthy in the resolved colors (a
    key with a non-empty value, or no key and a name inherited from
    [Object.prototype]), and rejected with the message that suggests the
    closest color keys. The same holds for [border-], the classes of the
    directional borders apart, with the fixed border widths. *)
Theorem overloaded_prefix_fixed_set_first
        (truth : ResolvedTruth) (q rest : string) (fixed : list string) :
  (q = "text-" /\ fixed = TEXT_SIZES /\
   string_in rest ["center"; "left"; "right"] = false) \/
  (q = "border-" /\ fixed = BORDER_WIDTHS /\
   existsb (startsWith rest) ["t-"; "b-"; "l-"; "r-"; "x-"; "y-"] = false /\
   string_in rest ["t"; "b"; "l"; "r"] = false) ->
  is_arbitrary (q ++ rest) = false ->
  findLongestMatch (q ++ rest) = Some (Colors, q) /\
  (string_in rest fixed = true -> accepted truth (q ++ rest) = true) /\
  (string_in rest fixed = false ->
   (accepted truth (q ++ rest) = true <->
    rest = EmptyString \/ reads_truthy (colors truth) rest) /\
   (rest <> EmptyString -> ~ reads_truthy (colors truth) rest ->
    verdict truth (q ++ rest)
    = Some (suggestion_message (q ++ rest) q rest (JsObject.keys (colors truth))))).
Proof.
  intros Hq Hb.
  assert (Hm : findLongestMatch (q ++ rest) = Some (Colors, q)).
  { destruct Hq as [(-> & _ & H)|(-> & _ & H1 & H2)];
      [apply findLongestMatch_text, H|apply findLongestMatch_border; assumption]. }
  assert (Ht : extractToken (q ++ rest) q = rest).
  { apply extractToken_append. destruct Hq as [(-> & _)|(-> & _)]; reflexivity. }
  assert (Hstep : forall st,
            validate_class truth st (q ++ rest) =
            if negb (string_in rest fixed)
               && (truthy rest && negb (truthy_get (colors truth) rest))
            then reject st (suggestion_message (q ++ rest) q rest
                                               (JsObject.keys (colors truth)))
            else accept st (q ++ rest)).
  { intros st. unfold validate_class. unfold is_arbitrary in Hb.
    rewrite Hb, Hm. cbv zeta. rewrite Ht.
    destruct Hq as [(-> & -> & _)|(-> & -> & _)].
    - change (String.eqb "text-" "text-") with true. cbv iota.
      destruct (string_in rest TEXT_SIZES); [reflexivity|apply strict_check_if].
    - change (String.eqb "border-" "text-") with false.
      change (String.eqb "border-" "border-") with true. cbv iota.
      destruct (string_in rest BORDER_WIDTHS); [reflexivity|apply strict_check_if]. }
  split; [exact Hm|]. split.
  - intros Hf. rewrite (accepted_if _ _ _ _ Hstep), Hf. reflexivity.
  - intros Hf. split.
    + rewrite (accepted_if _ _ _ _ Hstep), Hf. cbn [negb andb].
      rewrite <- truthy_get_reads. apply strict_condition.
    + intros Hne Hnot. rewrite (verdict_if _ _ _ _ Hstep), Hf. cbn [negb andb].
      assert (T : truthy rest = true).
      { destruct (truthy rest) eqn:T; [reflexivity|].
        apply truthy_false in T. contradiction. }
      assert (G : truthy_get (colors truth) rest = false).
      { destruct (truthy_get (colors truth) rest) eqn:G; [|reflexivity].
        apply truthy_get_reads in G. contradiction. }
      rewrite T, G. reflexivity.
Qed.

Lemma overloaded_prefix_fixed_set_first_witness :
  (string_in "xl" TEXT_SIZES = true /\
   JsObject.get_own (colors sampleResolved) "xl" = None /\
   accepted sampleResolved "text-xl" = true) /\
  (string_in "red" TEXT_SIZES = false /\ accepted sampleResolved "text-red" = true) /\
  (string_in "giant" TEXT_SIZES = false /\
   verdict sampleResolved "text-giant"
   = Some (suggestion_message "text-giant" "text-" "giant" ["red"; "blue-500"])) /\
  (string_in "4" BORDER_WIDTHS = true /\
   JsObject.get_own (colors sampleResolved) "4" = None /\
   accepted sampleResolved "border-4" = true) /\
  (string_in "red" BORDER_WIDTHS = false /\ accepted sampleResolved "border-red" = true) /\
  (string_in "giant" BORDER_WIDTHS = false /\
   verdict sampleResolved "border-giant"
   = Some (suggestion_message "border-giant" "border-" "giant" ["red"; "blue-500"])).
Proof.
  assert (NotRead : ~ reads_truthy (colors sampleResolved) "giant").
  { intros [(v & H & _)|[_ H]]; [discriminate|].
    vm_compute in H. intuition discriminate. }
  assert (Red : reads_truthy (colors sampleResolved) "red").
  { left. exists "#f00". split; [reflexivity|discriminate]. }
  pose (text := fun rest H =>
          overloaded_prefix_fixed_set_first sampleResolved "text-" rest TEXT_SIZES
            (or_introl (conj eq_refl (conj eq_refl H)))).
  pose (border := fun rest H1 H2 =>
          overloaded_prefix_fixed_set_first sampleResolved "border-" rest BORDER_WIDTHS
            (or_intror (conj eq_refl (conj eq_refl (conj H1 H2))))).
  split; [|split; [|split; [|split; [|split]]]].
  - split; [reflexivity|]. split; [reflexivity|].
    exact (proj1 (proj2 (text "xl" eq_refl eq_refl)) eq_refl).
  - split; [reflexivity|].
    exact (proj2 (proj1 (proj2 (proj2 (text "red" eq_refl eq_refl)) eq_refl))
                 (or_intror Red)).
  - split; [reflexivity|].
    exact (proj2 (proj2 (proj2 (text "giant" eq_refl eq_refl)) eq_refl)
                 ltac:(discriminate) NotRead).
  - split; [reflexivity|]. split; [reflexivity|].
    exact (proj1 (proj2 (border "4" eq_refl eq_refl eq_refl)) eq_refl).
  - split; [reflexivity|].
    exact (proj2 (proj1 (proj2 (proj2 (border "red" eq_refl eq_refl eq_refl)) eq_refl))
                 (or_intror Red)).
  - split; [reflexivity|].
    exact (proj2 (proj2 (proj2 (border "giant" eq_refl eq_refl eq_refl)) eq_refl)
                 ltac:(discriminate) NotRead).
Defined.
